(** * Talk2SQL query safety pipeline: a shallow embedding

    The development follows the Python sources under [backend/app]:

    - [agents/sql_validator.py]  ([validate_sql], [_BLOCKED_PATTERNS], [_ALLOWED_START])
    - [agents/sql_agent.py]      ([generate_sql], [_clean_sql])
    - [agents/intent_guard.py]   ([check_intent], [_llm_classify], [_DOMAIN_PATTERN])
    - [schema/schema_retriever.py] ([retrieve_relevant_schema])
    - [api/chat.py]              ([handle_query])
    - [db/executor.py]           ([execute_readonly_query])
    - [utils/prompt_builder.py]  ([_format_schema_snippets])
    - [core/config.py]           ([Settings.cors_origin_list])
    - [memory/session_memory.py] ([Session.add_turn], [Session.get_context_messages])
    - [memory/memory_updater.py] ([_detect_domains])

    Python [str] values are modelled as lists of characters.  A character is
    a code point in the range 0..255 (Rocq's [ascii]); on that range the
    tables below ([isspace], the regex class [\w], [lower]) are the ones of
    CPython, and no character outside ASCII is case-equivalent to an ASCII
    letter, so [re.IGNORECASE] on the ASCII patterns of the sources is plain
    ASCII case folding.  Outside that range CPython's [re] also lets I match
    U+0130 and U+0131, S match U+017F and K match U+212A, so there a pattern
    matches more texts than a lower-case comparison finds: statements that
    depend on a pattern not matching are phrased on the check itself
    ([re_match], [first_blocked]), and the comparison of a check with the
    text is used only from an occurrence in the text to a match. *)

From Stdlib Require Import List Ascii String Bool Arith NArith ZArith QArith Lia.
From Stdlib Require Import DecimalString.
Import ListNotations.

Set Implicit Arguments.
Close Scope Q_scope.
Open Scope string_scope.
Open Scope list_scope.

(* ------------------------------------------------------------------ *)
(** ** Python strings *)

Module Py.

Definition str := list ascii.

Definition py (s : string) : str := list_ascii_of_string s.
Coercion py : string >-> str.

Definition code (c : ascii) : N := N_of_ascii c.

(** [str.isspace] for one character, which is also the regex class [\s]. *)
Definition isspace (c : ascii) : bool :=
  let n := code c in
  ((9 <=? n) && (n <=? 13) || (28 <=? n) && (n <=? 32) || (n =? 133) || (n =? 160))%N.

(** The regex class [\w]: alphanumeric characters and the underscore. *)
Definition isword (c : ascii) : bool :=
  let n := code c in
  ((48 <=? n) && (n <=? 57) || (65 <=? n) && (n <=? 90) || (n =? 95)
   || (97 <=? n) && (n <=? 122)
   || (n =? 170) || (n =? 178) || (n =? 179) || (n =? 181) || (n =? 185)
   || (n =? 186) || (188 <=? n) && (n <=? 190)
   || (192 <=? n) && (n <=? 214) || (216 <=? n) && (n <=? 246)
   || (248 <=? n))%N.

(** [str.lower] for one character. *)
Definition lower_char (c : ascii) : ascii :=
  let n := code c in
  if ((65 <=? n) && (n <=? 90) || (192 <=? n) && (n <=? 222) && negb (n =? 215))%N
  then ascii_of_N (n + 32) else c.

Definition lower (s : str) : str := map lower_char s.

Fixpoint drop_while (p : ascii -> bool) (s : str) : str :=
  match s with
  | [] => []
  | c :: s' => if p c then drop_while p s' else s
  end.

(** Drop the longest suffix whose characters all satisfy [p]. *)
Fixpoint drop_while_end (p : ascii -> bool) (s : str) : str :=
  match s with
  | [] => []
  | c :: s' =>
      match drop_while_end p s' with
      | [] => if p c then [] else [c]
      | t => c :: t
      end
  end.

Definition lstrip (s : str) : str := drop_while isspace s.
Definition rstrip (s : str) : str := drop_while_end isspace s.

(** [s.strip()] *)
Definition strip (s : str) : str := rstrip (lstrip s).

Definition char_in (chars : str) (c : ascii) : bool :=
  existsb (Ascii.eqb c) chars.

(** [s.rstrip(chars)] *)
Definition rstrip_chars (chars : str) (s : str) : str :=
  drop_while_end (char_in chars) s.

(** [s.startswith(prefix)] *)
Fixpoint startswith (prefix s : str) : bool :=
  match prefix, s with
  | [], _ => true
  | p :: prefix', c :: s' => Ascii.eqb p c && startswith prefix' s'
  | _ :: _, [] => false
  end.

(** [sub in s] *)
Fixpoint contains (sub s : str) : bool :=
  startswith sub s ||
  match s with
  | [] => false
  | _ :: s' => contains sub s'
  end.

(** [s[:n]] *)
Definition slice_to (n : nat) (s : str) : str := firstn n s.

(** Truth value of a string: [not s] is [is_empty s]. *)
Definition is_empty (s : str) : bool :=
  match s with [] => true | _ => false end.

Definition str_eqb (a b : str) : bool :=
  if list_eq_dec ascii_dec a b then true else false.

End Py.
Import Py.

(* ------------------------------------------------------------------ *)
(** ** The fragment of Python's [re] used by the sources *)

Module Re.

Inductive atom : Type :=
| ALit (c : ascii)      (* a literal character *)
| ADot                  (* [.] : any character but a newline *)
| ASpace.               (* [\s] *)

Inductive regex : Type :=
| Eps
| Never
| One (a : atom)
| Seq (r1 r2 : regex)
| Alt (r1 r2 : regex)   (* [r1|r2], left alternative first *)
| Opt (r : regex)       (* [r?], greedy *)
| Star (a : atom)       (* [a*], greedy *)
| WordB                 (* [\b] *)
| Bol                   (* [^] without MULTILINE *)
| Eol.                  (* [$] without MULTILINE *)

(** *** Parsing pattern text *)

Record frame : Type := Frame { alts_rev : list regex; items_rev : list regex }.

Definition empty_frame : frame := Frame [] [].

Fixpoint mk_seq (rs : list regex) : regex :=
  match rs with
  | [] => Eps
  | [r] => r
  | r :: rs' => Seq r (mk_seq rs')
  end.

Fixpoint mk_alt (rs : list regex) : regex :=
  match rs with
  | [] => Never
  | [r] => r
  | r :: rs' => Alt r (mk_alt rs')
  end.

Definition push (r : regex) (f : frame) : frame :=
  Frame (alts_rev f) (r :: items_rev f).

Definition next_alt (f : frame) : frame :=
  Frame (mk_seq (rev (items_rev f)) :: alts_rev f) [].

Definition close_frame (f : frame) : regex :=
  mk_alt (rev (alts_rev (next_alt f))).

(** What a backslash followed by [c] stands for. *)
Definition escape (c : ascii) : option regex :=
  if Ascii.eqb c "b" then Some WordB
  else if Ascii.eqb c "s" then Some (One ASpace)
  else if isword c then None
  else Some (One (ALit c)).

(** Characters with a meaning this fragment does not cover. *)
Definition unsupported (c : ascii) : bool :=
  char_in (py "+{}[]") c.

Fixpoint parse (s : str) (cur : frame) (stack : list frame) : option regex :=
  match s with
  | [] => match stack with [] => Some (close_frame cur) | _ :: _ => None end
  | c :: s' =>
      if Ascii.eqb c "\" then
        match s' with
        | e :: s'' =>
            match escape e with
            | Some r => parse s'' (push r cur) stack
            | None => None
            end
        | [] => None
        end
      else if Ascii.eqb c "(" then
        match s' with
        | q :: s1 =>
            if Ascii.eqb q "?" then
              match s1 with
              | k :: s2 =>
                  if Ascii.eqb k ":" then parse s2 empty_frame (cur :: stack)
                  else None
              | [] => None
              end
            else parse s' empty_frame (cur :: stack)
        | [] => None
        end
      else if Ascii.eqb c ")" then
        match stack with
        | parent :: stack' => parse s' (push (close_frame cur) parent) stack'
        | [] => None
        end
      else if Ascii.eqb c "|" then parse s' (next_alt cur) stack
      else if Ascii.eqb c "?" then
        match items_rev cur with
        | r :: rs => parse s' (Frame (alts_rev cur) (Opt r :: rs)) stack
        | [] => None
        end
      else if Ascii.eqb c "*" then
        match items_rev cur with
        | One a :: rs => parse s' (Frame (alts_rev cur) (Star a :: rs)) stack
        | _ => None
        end
      else if Ascii.eqb c "." then parse s' (push (One ADot) cur) stack
      else if Ascii.eqb c "^" then parse s' (push Bol cur) stack
      else if Ascii.eqb c "$" then parse s' (push Eol cur) stack
      else if unsupported c then None
      else parse s' (push (One (ALit c)) cur) stack
  end.

(** A compiled pattern: the expression and the IGNORECASE flag. *)
Record pattern : Type := Pattern { expr : regex; ignorecase : bool }.

(** [re.compile(text, flags)]; text outside the fragment compiles to a
    pattern that matches nothing (none of the source patterns is). *)
Definition compile (text : str) (ic : bool) : pattern :=
  match parse text empty_frame [] with
  | Some r => Pattern r ic
  | None => Pattern Never ic
  end.

(** *** Matching: backtracking with ordered choice *)

Section Matching.
Variable ic : bool.

Definition atom_ok (a : atom) (c : ascii) : bool :=
  match a with
  | ALit l => if ic then Ascii.eqb (lower_char l) (lower_char c) else Ascii.eqb l c
  | ADot => negb (Ascii.eqb c "010")
  | ASpace => isspace c
  end.

Definition word_before (prev : option ascii) : bool :=
  match prev with Some c => isword c | None => false end.

Definition word_after (s : str) : bool :=
  match s with c :: _ => isword c | [] => false end.

Section Cont.
Variable A : Type.

(** [prev] is the character just before the current position ([None]
    at the start of the subject), [s] the text from the current
    position on, [k] what remains to be matched. *)
Fixpoint star (a : atom) (prev : option ascii) (s : str)
         (k : option ascii -> str -> option A) : option A :=
  match s with
  | c :: s' =>
      if atom_ok a c then
        match star a (Some c) s' k with
        | Some x => Some x
        | None => k prev s
        end
      else k prev s
  | [] => k prev s
  end.

Fixpoint rmatch (r : regex) (prev : option ascii) (s : str)
         (k : option ascii -> str -> option A) : option A :=
  match r with
  | Eps => k prev s
  | Never => None
  | One a =>
      match s with
      | c :: s' => if atom_ok a c then k (Some c) s' else None
      | [] => None
      end
  | Seq r1 r2 => rmatch r1 prev s (fun p t => rmatch r2 p t k)
  | Alt r1 r2 =>
      match rmatch r1 prev s k with
      | Some x => Some x
      | None => rmatch r2 prev s k
      end
  | Opt r1 =>
      match rmatch r1 prev s k with
      | Some x => Some x
      | None => k prev s
      end
  | Star a => star a prev s k
  | WordB => if xorb (word_before prev) (word_after s) then k prev s else None
  | Bol => match prev with None => k prev s | Some _ => None end
  | Eol =>
      match s with
      | [] => k prev s
      | [c] => if Ascii.eqb c "010" then k prev s else None
      | _ => None
      end
  end.
End Cont.

(** The text left after the first (highest priority) match at the
    current position. *)
Definition match_here (r : regex) (prev : option ascii) (s : str) : option str :=
  rmatch r prev s (fun _ t => Some t).

Definition matches_here (r : regex) (prev : option ascii) (s : str) : bool :=
  match match_here r prev s with Some _ => true | None => false end.

Fixpoint search_from (r : regex) (prev : option ascii) (s : str) : bool :=
  matches_here r prev s ||
  match s with
  | [] => false
  | c :: s' => search_from r (Some c) s'
  end.

(** Deleting every match: [skip] counts the characters of the match in
    progress that are still to be dropped. *)
Fixpoint delete_from (r : regex) (prev : option ascii) (s : str) (skip : nat) : str :=
  match s with
  | [] => []
  | c :: s' =>
      match skip with
      | S n => delete_from r (Some c) s' n
      | O =>
          match match_here r prev s with
          | Some t =>
              match List.length s - List.length t with
              | S n => delete_from r (Some c) s' n
              | O => c :: delete_from r (Some c) s' 0
              end
          | None => c :: delete_from r (Some c) s' 0
          end
      end
  end.
End Matching.

(** Truth value of [p.match(s)]. *)
Definition re_match (p : pattern) (s : str) : bool :=
  matches_here (ignorecase p) (expr p) None s.

(** Truth value of [p.search(s)]. *)
Definition re_search (p : pattern) (s : str) : bool :=
  search_from (ignorecase p) (expr p) None s.

(** [p.sub("", s)] *)
Definition re_sub_empty (p : pattern) (s : str) : str :=
  delete_from (ignorecase p) (expr p) None s 0.

End Re.
Import Re.

(* ------------------------------------------------------------------ *)
(** ** Results of fallible calls *)

Inductive result (E A : Type) : Type :=
| Return (a : A)
| Raise (e : E).
Arguments Return {E A} a.
Arguments Raise {E A} e.

(* ------------------------------------------------------------------ *)
(** ** agents/sql_validator.py *)

Module Validator.

(** [SQLValidationError(message, sql=sql)] *)
Record SQLValidationError : Type :=
  mkSQLValidationError { message : str; sql_of : str }.

(** [_BLOCKED_PATTERNS]: (compiled regex, human-readable label). *)
Definition _BLOCKED_PATTERNS : list (pattern * str) :=
  [ (compile "\bDROP\b" true, py "DROP statements are not allowed");
    (compile "\bALTER\b" true, py "ALTER statements are not allowed");
    (compile "\bTRUNCATE\b" true, py "TRUNCATE statements are not allowed");
    (compile "\bDELETE\b" true, py "DELETE statements are not allowed");
    (compile "\bINSERT\b" true, py "INSERT statements are not allowed");
    (compile "\bUPDATE\b" true, py "UPDATE statements are not allowed");
    (compile "\bCREATE\b" true, py "CREATE statements are not allowed");
    (compile "\bGRANT\b" true, py "GRANT statements are not allowed");
    (compile "\bREVOKE\b" true, py "REVOKE statements are not allowed");
    (compile "\bEXECUTE\b" true, py "EXECUTE statements are not allowed");
    (compile "\bCALL\b" true, py "CALL statements are not allowed");
    (compile "--" true, py "SQL comments (--) are not allowed");
    (compile "/\*" true, py "Block comments (/*) are not allowed");
    (compile "\bpg_" true, py "Access to pg_ system catalogs is not allowed");
    (compile "\binformation_schema\b" true,
     py "Access to information_schema is not allowed") ].

(** [_ALLOWED_START] *)
Definition _ALLOWED_START : pattern := compile "^\s*(SELECT|WITH)\b" true.

Definition MSG_EMPTY : str := "Empty SQL statement.".
Definition MSG_START : str :=
  "Only SELECT queries are allowed. Your query must start with SELECT or WITH.".
Definition MSG_PARENS : str := "Unbalanced parentheses in SQL.".
Definition MSG_MULTIPLE : str :=
  "Multiple SQL statements are not allowed. Only single queries are permitted.".

(** The [for pattern, message in _BLOCKED_PATTERNS] loop: the label of the
    first pattern found in the text. *)
Fixpoint first_blocked (pats : list (pattern * str)) (stripped : str) : option str :=
  match pats with
  | [] => None
  | (pattern, msg) :: pats' =>
      if re_search pattern stripped then Some msg else first_blocked pats' stripped
  end.

(** The [for ch in stripped] loop; [None] when the loop raises because the
    depth went negative, otherwise the depth at the end. *)
Fixpoint paren_scan (depth : Z) (s : str) : option Z :=
  match s with
  | [] => Some depth
  | ch :: s' =>
      let depth :=
        if Ascii.eqb ch "(" then (depth + 1)%Z
        else if Ascii.eqb ch ")" then (depth - 1)%Z
        else depth in
      if (depth <? 0)%Z then None else paren_scan depth s'
  end.

Definition parens_balanced (stripped : str) : bool :=
  match paren_scan 0 stripped with
  | Some depth => (depth =? 0)%Z
  | None => false
  end.

Definition validate_sql (sql : str) : result SQLValidationError str :=
  if is_empty sql || is_empty (strip sql) then
    Raise (mkSQLValidationError MSG_EMPTY sql)
  else
    let stripped := strip sql in
    (* 1. Must start with SELECT or WITH *)
    if negb (re_match _ALLOWED_START stripped) then
      Raise (mkSQLValidationError MSG_START sql)
    else
      (* 2. Check for blocked patterns *)
      match first_blocked _BLOCKED_PATTERNS stripped with
      | Some msg => Raise (mkSQLValidationError msg sql)
      | None =>
          (* 3. Balanced parentheses check *)
          if negb (parens_balanced stripped) then
            Raise (mkSQLValidationError MSG_PARENS sql)
          else
            (* 4. Check for multiple statements (;) *)
            let without_trailing := strip (rstrip_chars ";" stripped) in
            if contains ";" without_trailing then
              Raise (mkSQLValidationError MSG_MULTIPLE sql)
            else Return sql
      end.

(** The failure kinds of the specification's [ValidationVerdict], read off
    the message the validator raises with. *)
Inductive failure_kind : Type :=
| EmptyStatement
| WrongLeadingKeyword
| BlockedKeyword
| CommentInjection
| CatalogProbe
| UnbalancedParentheses
| MultipleStatements.

Definition kind_table : list (str * failure_kind) :=
  [ (MSG_EMPTY, EmptyStatement);
    (MSG_START, WrongLeadingKeyword);
    (py "DROP statements are not allowed", BlockedKeyword);
    (py "ALTER statements are not allowed", BlockedKeyword);
    (py "TRUNCATE statements are not allowed", BlockedKeyword);
    (py "DELETE statements are not allowed", BlockedKeyword);
    (py "INSERT statements are not allowed", BlockedKeyword);
    (py "UPDATE statements are not allowed", BlockedKeyword);
    (py "CREATE statements are not allowed", BlockedKeyword);
    (py "GRANT statements are not allowed", BlockedKeyword);
    (py "REVOKE statements are not allowed", BlockedKeyword);
    (py "EXECUTE statements are not allowed", BlockedKeyword);
    (py "CALL statements are not allowed", BlockedKeyword);
    (py "SQL comments (--) are not allowed", CommentInjection);
    (py "Block comments (/*) are not allowed", CommentInjection);
    (py "Access to pg_ system catalogs is not allowed", CatalogProbe);
    (py "Access to information_schema is not allowed", CatalogProbe);
    (MSG_PARENS, UnbalancedParentheses);
    (MSG_MULTIPLE, MultipleStatements) ].

Fixpoint lookup_kind (tbl : list (str * failure_kind)) (msg : str) : option failure_kind :=
  match tbl with
  | [] => None
  | (m, k) :: tbl' => if str_eqb m msg then Some k else lookup_kind tbl' msg
  end.

(** [Some k] when validation fails with kind [k], [None] when it accepts. *)
Definition failure_of (r : result SQLValidationError str) : option failure_kind :=
  match r with
  | Return _ => None
  | Raise e => lookup_kind kind_table (message e)
  end.

Definition validate (candidate : str) : option failure_kind :=
  failure_of (validate_sql candidate).

End Validator.
Import Validator.

(* ------------------------------------------------------------------ *)
(** ** External collaborators and effects *)

Module Effects.

(** A Python exception that is an instance of [Exception]: its class name,
    whether it is an instance of [ValueError], and [str(exc)]. *)
Record exn : Type :=
  mkExn { type_name : str; is_value_error : bool; text : str }.

Definition ValueError (msg : str) : exn := mkExn "ValueError" true msg.

(** One row of [information_schema.columns] as the retriever selects it. *)
Record column_row : Type :=
  mkColumnRow { column_name : str; data_type : str;
                is_nullable : str; column_default : option str }.

(** A schema snippet (one dict of the list [retrieve_relevant_schema]
    returns). *)
Record snippet : Type :=
  mkSnippet { table : str; description : str; columns : list str;
              column_details : list (str * str); relationships : list str;
              similarity : Q }.

(** What the database hands back for a statement: the column names, the
    raw rows, and the time the round trip took. *)
Record db_rows : Type :=
  mkDbRows { keys : list str; raw_rows : list (list str); elapsed : Q }.

Definition hints := list (str * str).
Definition turn := (str * str)%type.

(** The collaborators of one request.  [classifier_content query] is the
    message content the LLM service returns for the classification prompt
    of [query]; [generator_content] the one it returns for the prompt
    [build_sql_prompt] assembles; the three [db_] fields are the answers of
    the database engine.  Each may raise instead. *)
Record world : Type :=
  mkWorld {
    classifier_content : str -> result exn str;
    generator_content :
      str -> list snippet -> option hints -> option (list turn) -> result exn str;
    db_tables : result exn (list str);
    db_columns : str -> result exn (list column_row);
    db_execute : str -> result exn db_rows }.

(** The calls that leave the process, in the order they are made. *)
Inductive event : Type :=
| LLMClassify (query : str)
| LLMGenerate (query : str) (snippets : list snippet)
| DBListTables
| DBListColumns (table_name : str)
| DBExecute (sql : str).

Definition trace := list event.

(** Computations that call collaborators, may raise, and log their calls. *)
Definition M (A : Type) : Type := world -> trace -> result exn A * trace.

Definition ret {A} (a : A) : M A := fun _ tr => (Return a, tr).

Definition raise {A} (e : exn) : M A := fun _ tr => (Raise e, tr).

Definition bind {A B} (m : M A) (f : A -> M B) : M B :=
  fun w tr =>
    match m w tr with
    | (Return a, tr') => f a w tr'
    | (Raise e, tr') => (Raise e, tr')
    end.

(** [try: m  except Exception as e: ...] : the outcome of [m] as a value. *)
Definition try_except {A} (m : M A) : M (result exn A) :=
  fun w tr =>
    match m w tr with
    | (r, tr') => (Return r, tr')
    end.

(** [try: m  except ValueError as e: ...] : any other exception goes on. *)
Definition try_except_ValueError {A} (m : M A) : M (result exn A) :=
  fun w tr =>
    match m w tr with
    | (Return a, tr') => (Return (Return a), tr')
    | (Raise e, tr') =>
        if is_value_error e then (Return (Raise e), tr') else (Raise e, tr')
    end.

(** One call of a collaborator: log it, then return or raise its answer. *)
Definition call {A} (ev : event) (answer : world -> result exn A) : M A :=
  fun w tr => (answer w, tr ++ [ev]).

Definition run {A} (m : M A) (w : world) : result exn A * trace := m w [].

End Effects.
Import Effects.

Notation "x <- m ;; k" := (bind m (fun x => k))
  (at level 61, m at next level, right associativity).

(* ------------------------------------------------------------------ *)
(** ** core/longcat_client.py *)

Module LongcatClient.

(** [chat_completion] as [_llm_classify] calls it. *)
Definition chat_completion_classify (query : str) : M str :=
  content <- call (LLMClassify query) (fun w => classifier_content w query) ;;
  ret (strip content).

(** [chat_completion] as [generate_sql] calls it, on the messages of
    [build_sql_prompt]. *)
Definition chat_completion_sql (user_query : str) (schema_snippets : list snippet)
    (user_hints : option hints) (session_context : option (list turn)) : M str :=
  content <- call (LLMGenerate user_query schema_snippets)
               (fun w => generator_content w user_query schema_snippets
                           user_hints session_context) ;;
  ret (strip content).

End LongcatClient.
Import LongcatClient.

(* ------------------------------------------------------------------ *)
(** ** agents/sql_agent.py *)

Module SqlAgent.

Definition FENCE_OPEN : pattern := compile "^```(?:sql)?\s*" true.
Definition FENCE_CLOSE : pattern := compile "\s*```$" false.

Definition _clean_sql (raw : str) : str :=
  (* Remove markdown code fences *)
  let cleaned := re_sub_empty FENCE_OPEN raw in
  let cleaned := re_sub_empty FENCE_CLOSE cleaned in
  (* Strip leading/trailing whitespace *)
  let cleaned := strip cleaned in
  (* Remove trailing semicolons *)
  let cleaned := strip (rstrip_chars ";" cleaned) in
  cleaned.

(** The dash of the source message lies outside the modelled character
    range; a hyphen stands for it. *)
Definition MSG_GENERATION : str :=
  "SQL generation failed - LLM returned empty response.".

Definition generate_sql (user_query : str) (schema_snippets : list snippet)
    (user_hints : option hints) (session_context : option (list turn)) : M str :=
  raw <- chat_completion_sql user_query schema_snippets user_hints session_context ;;
  let sql := _clean_sql raw in
  if is_empty sql then raise (ValueError MSG_GENERATION)
  else ret sql.

End SqlAgent.
Import SqlAgent.

(* ------------------------------------------------------------------ *)
(** ** agents/intent_guard.py *)

Module IntentGuard.

Definition REJECTION_MESSAGE : str :=
  "Please enter a query related to the system's database (employees, inventory, production, or sales).".

Definition _DOMAIN_KEYWORDS : list str :=
  [ (* HR / Employees *)
    py "employee"; py "staff"; py "worker"; py "salary"; py "salaries"; py "hire";
    py "designation"; py "manager"; py "department"; py "dept";
    (* Attendance / Leave *)
    py "attendance"; py "present"; py "absent"; py "late"; py "check.?in";
    py "check.?out"; py "leave"; py "sick"; py "casual"; py "annual"; py "maternity";
    py "half.?day"; py "hours.?worked";
    (* Inventory / Suppliers *)
    py "inventory"; py "stock"; py "material"; py "raw.?material"; py "fabric";
    py "supplier"; py "reorder"; py "quantity"; py "cost.?per.?unit";
    (* Products / Production *)
    py "product"; py "production"; py "manufacturing"; py "order";
    py "target.?quantity"; py "completed"; py "stitching"; py "cutting";
    py "product.?code"; py "category";
    (* Sales *)
    py "sale"; py "sales"; py "revenue"; py "customer"; py "total.?amount";
    py "selling.?price";
    (* Generic DB ops (safe) *)
    py "count"; py "average"; py "sum"; py "total"; py "maximum"; py "minimum";
    py "highest"; py "lowest"; py "top"; py "bottom"; py "list"; py "show";
    py "display"; py "report"; py "how many"; py "which" ].

(** [sep.join(parts)] *)
Fixpoint join (sep : str) (parts : list str) : str :=
  match parts with
  | [] => []
  | [x] => x
  | x :: rest => x ++ sep ++ join sep rest
  end.

Definition _DOMAIN_PATTERN : pattern := compile (join "|" _DOMAIN_KEYWORDS) true.

Record IntentResult : Type :=
  mkIntentResult { is_in_domain : bool; rejection_message : option str }.

(** Ask the LLM for a binary yes/no classification. *)
Definition _llm_classify (query : str) : M bool :=
  response <- chat_completion_classify query ;;
  ret (startswith "yes" (lower (strip response))).

Definition check_intent (query : str) : M IntentResult :=
  (* Layer 1: Fast keyword scan *)
  if re_search _DOMAIN_PATTERN query then ret (mkIntentResult true None)
  else
    (* Layer 2: LLM micro-classification *)
    r <- try_except (_llm_classify query) ;;
    match r with
    | Return true => ret (mkIntentResult true None)
    | Return false => ret (mkIntentResult false (Some REJECTION_MESSAGE))
    | Raise _ => ret (mkIntentResult false (Some REJECTION_MESSAGE))
    end.

End IntentGuard.
Import IntentGuard.

(* ------------------------------------------------------------------ *)
(** ** schema/schema_retriever.py *)

Module SchemaRetriever.

(** [d[key] = value] on a dict kept as an association list in insertion
    order. *)
Fixpoint dict_set (d : list (str * str)) (key value : str) : list (str * str) :=
  match d with
  | [] => [(key, value)]
  | (k, v) :: d' =>
      if str_eqb k key then (k, value) :: d' else (k, v) :: dict_set d' key value
  end.

(** The column detail string of one row. *)
Definition detail_of (row : column_row) : str :=
  let detail_parts := [data_type row] in
  let detail_parts :=
    if str_eqb (is_nullable row) "NO" then detail_parts ++ [py "NOT NULL"]
    else detail_parts in
  let detail_parts :=
    match column_default row with
    | Some d => if is_empty d then detail_parts
                else detail_parts ++ [py "DEFAULT " ++ d]
    | None => detail_parts
    end in
  join " " detail_parts.

(** The [for row in columns_result] loop. *)
Fixpoint scan_columns (rows : list column_row)
    (columns : list str) (column_details : list (str * str))
    : list str * list (str * str) :=
  match rows with
  | [] => (columns, column_details)
  | row :: rows' =>
      scan_columns rows' (columns ++ [column_name row])
        (dict_set column_details (column_name row) (detail_of row))
  end.

(** The [for table_name in tables] loop. *)
Fixpoint scan_tables (tables : list str) (snippets : list snippet) : M (list snippet) :=
  match tables with
  | [] => ret snippets
  | table_name :: tables' =>
      columns_result <- call (DBListColumns table_name)
                          (fun w => db_columns w table_name) ;;
      let (columns, column_details) := scan_columns columns_result [] [] in
      scan_tables tables'
        (snippets ++ [mkSnippet table_name (py "Table: " ++ table_name) columns
                        column_details [] 1%Q])
  end.

(** [top_k] and [min_similarity] are accepted and not used; an exception
    of the engine is logged and raised again. *)
Definition retrieve_relevant_schema (query : str) (top_k : nat) (min_similarity : Q)
    : M (list snippet) :=
  tables <- call DBListTables db_tables ;;
  scan_tables tables [].

End SchemaRetriever.
Import SchemaRetriever.

(* ------------------------------------------------------------------ *)
(** ** db/executor.py *)

Module Executor.

Record ExecutionResult : Type :=
  mkExecutionResult { rows : list (list (str * str)); result_columns : list str;
                      row_count : nat; execution_time : Q }.

(** [dict(zip(columns, row))] *)
Fixpoint dict_zip (columns : list str) (row : list str) (d : list (str * str))
    : list (str * str) :=
  match columns, row with
  | c :: columns', v :: row' => dict_zip columns' row' (dict_set d c v)
  | _, _ => d
  end.

Definition execute_readonly_query (sql : str) : M ExecutionResult :=
  result <- call (DBExecute sql) (fun w => db_execute w sql) ;;
  let columns := keys result in
  let rows := map (fun row => dict_zip columns row []) (raw_rows result) in
  ret (mkExecutionResult rows columns (List.length rows) (elapsed result)).

End Executor.
Import Executor.

(* ------------------------------------------------------------------ *)
(** ** api/chat.py *)

Module Chat.

Record QueryRequest : Type :=
  mkQueryRequest { user_id : str; session_id : str; query : str }.

Record QueryResponse : Type :=
  mkQueryResponse {
    qr_id : str; qr_sql : str; qr_data : list (list (str * str));
    qr_columns : list str; qr_row_count : nat; qr_execution_time : Q;
    qr_explanation : str; qr_personalization_used : bool;
    qr_status : str; qr_error : option str }.

Record ErrorResponse : Type :=
  mkErrorResponse {
    er_id : str; er_sql : str; er_data : list (list (str * str));
    er_columns : list str; er_row_count : nat; er_execution_time : Q;
    er_explanation : str; er_personalization_used : bool;
    er_status : str; er_error : str }.

Inductive response : Type :=
| Success (r : QueryResponse)
| Failure (r : ErrorResponse).

(** [ErrorResponse(id=..., sql=..., error=..., explanation=...)] with the
    defaults of the class for the other fields. *)
Definition error_response (id sql error explanation : str) : ErrorResponse :=
  mkErrorResponse id sql [] [] 0 0%Q explanation false "error" error.

Definition str_of_nat (n : nat) : str :=
  py (NilEmpty.string_of_uint (Nat.to_uint n)).

Definition explain (row_count : nat) : str :=
  if Nat.eqb row_count 0 then py "No data found matching your query."
  else if Nat.eqb row_count 1 then py "Found 1 matching result."
  else py "Found " ++ str_of_nat row_count ++ py " matching results.".

Definition MSG_NOT_RELATED : str := "Query is not related to the system's database.".
Definition MSG_REPHRASE_DOMAIN : str :=
  "Please rephrase your query to ask about employees, inventory, production, or sales.".
Definition MSG_NO_TABLES : str :=
  "Could not find relevant database tables for your query. Please rephrase.".
Definition MSG_TRY_TOPICS : str :=
  "Try asking about specific topics like employees, attendance, inventory, production, or sales.".
Definition MSG_GENERATION_FAILED : str :=
  "SQL generation failed. Please rephrase your question.".
Definition MSG_BE_SPECIFIC : str :=
  "Try to be more specific about what data you want to see.".
Definition MSG_EXECUTION_HINT : str :=
  "There was an error executing your query. Please try rephrasing.".

(** [request_id] is the fresh [uuid4] the handler draws first. *)
Definition handle_query (request_id : str) (request : QueryRequest) : M response :=
  let query := strip (query request) in
  (* Step 1: Intent Guard *)
  intent <- check_intent query ;;
  if negb (is_in_domain intent) then
    ret (Failure (error_response request_id ""
           match rejection_message intent with
           | Some m => if is_empty m then MSG_NOT_RELATED else m
           | None => MSG_NOT_RELATED
           end
           MSG_REPHRASE_DOMAIN))
  else
    (* Step 2: Retrieve relevant schema *)
    retrieved <- try_except (retrieve_relevant_schema query 5 (3 # 10)) ;;
    match retrieved with
    | Raise e =>
        ret (Failure (error_response request_id ""
               (py "Schema retrieval error: " ++ type_name e ++ py ": "
                  ++ slice_to 200 (text e))
               ""))
    | Return schema_snippets =>
        match schema_snippets with
        | [] => ret (Failure (error_response request_id "" MSG_NO_TABLES MSG_TRY_TOPICS))
        | _ :: _ =>
            (* Step 3: Generate SQL via the SQL agent *)
            generated <- try_except_ValueError
                           (generate_sql query schema_snippets None None) ;;
            match generated with
            | Raise exc =>
                ret (Failure (error_response request_id ""
                       MSG_GENERATION_FAILED MSG_BE_SPECIFIC))
            | Return generated_sql =>
                (* Step 4: Validate SQL *)
                match validate_sql generated_sql with
                | Raise exc =>
                    ret (Failure (error_response request_id generated_sql
                           (py "Generated SQL failed safety checks: " ++ message exc)
                           ""))
                | Return _ =>
                    (* Step 5: Execute *)
                    executed <- try_except (execute_readonly_query generated_sql) ;;
                    match executed with
                    | Raise exc =>
                        ret (Failure (error_response request_id generated_sql
                               (py "Query execution failed: " ++ slice_to 200 (text exc))
                               MSG_EXECUTION_HINT))
                    | Return exec_result =>
                        (* Step 6: Generate simple explanation *)
                        ret (Success (mkQueryResponse request_id generated_sql
                               (rows exec_result) (result_columns exec_result)
                               (row_count exec_result) (execution_time exec_result)
                               (explain (row_count exec_result)) false "success" None))
                    end
                end
            end
        end
    end.

End Chat.
Import Chat.

(* ------------------------------------------------------------------ *)
(** ** Vocabulary of the specification *)

Module Spec.

(** The literal expression for a word: one [ALit] per character. *)
Definition lits (w : str) : regex := mk_seq (map (fun c => One (ALit c)) w).

(** Case-insensitive [startswith]. *)
Definition startswith_ci (w s : str) : bool := startswith (lower w) (lower s).

(** [s] begins, ignoring case, with the keyword [kw]: its letters come
    first and no word character follows them. *)
Definition begins_with_keyword (kw s : str) : bool :=
  startswith_ci kw s && negb (word_after (skipn (List.length kw) s)).

(** [s] begins with SELECT or WITH once leading whitespace is ignored. *)
Definition leading_keyword (s : str) : bool :=
  begins_with_keyword "SELECT" (lstrip s) || begins_with_keyword "WITH" (lstrip s).

(** Checks 1 to 5 of the validator, as [validate_sql] evaluates them:
    non-empty, allowed start, no blocked pattern (keywords, comment
    sequences, catalog names), balanced parentheses. *)
Definition passes_checks_1_to_5 (s : str) : bool :=
  negb (is_empty s || is_empty (strip s))
  && re_match _ALLOWED_START (strip s)
  && match first_blocked _BLOCKED_PATTERNS (strip s) with None => true | Some _ => false end
  && parens_balanced (strip s).

(** The body left by the single-statement check: every trailing [;] of the
    trimmed text removed, then trimmed again. *)
Definition body_all_stripped (s : str) : str :=
  strip (rstrip_chars ";" (strip s)).

(** The body the specification describes: exactly one trailing [;] removed
    from the trimmed text. *)
Definition body_one_stripped (s : str) : str :=
  match rev (strip s) with
  | c :: r => if Ascii.eqb c ";" then rev r else strip s
  | [] => []
  end.

Definition has_terminator (body : str) : bool := contains ";" body.

(** At least one keyword of [_DOMAIN_KEYWORDS] is found in the question. *)
Definition some_domain_keyword_matches (question : str) : bool :=
  existsb (fun kw => re_search (compile kw true) question) _DOMAIN_KEYWORDS.

(** The snippet [sn] describes table [t] of the catalog: it carries the
    table's name and its columns in the order the catalog lists them. *)
Definition describes (w : world) (t : str) (sn : snippet) : Prop :=
  table sn = t /\
  exists rows, db_columns w t = Return rows /\ columns sn = map column_name rows.

Definition no_exec (tr : trace) : Prop := forall sql, ~ In (DBExecute sql) tr.

Definition no_classify (tr : trace) : Prop := forall q, ~ In (LLMClassify q) tr.

End Spec.
Import Spec.

(* ------------------------------------------------------------------ *)
(** ** The stages as functions of the collaborators' answers *)

Module Stages.

(** The position reached after consuming [n] characters. *)
Fixpoint advance (n : nat) (prev : option ascii) (s : str) : option ascii * str :=
  match n, s with
  | S n', c :: s' => advance n' (Some c) s'
  | _, _ => (prev, s)
  end.

(** The verdict of the escalation path. *)
Definition escalation_verdict (w : world) (q : str) : IntentResult :=
  match classifier_content w q with
  | Return content =>
      if startswith "yes" (lower (strip (strip content)))
      then mkIntentResult true None
      else mkIntentResult false (Some REJECTION_MESSAGE)
  | Raise _ => mkIntentResult false (Some REJECTION_MESSAGE)
  end.

(** What [generate_sql] answers, from the content the LLM service gave. *)
Definition generated (w : world) (q : str) (sn : list snippet)
    (h : option hints) (c : option (list turn)) : result exn str :=
  match generator_content w q sn h c with
  | Return content =>
      if is_empty (_clean_sql (strip content)) then Raise (ValueError MSG_GENERATION)
      else Return (_clean_sql (strip content))
  | Raise e => Raise e
  end.

(** What [execute_readonly_query] answers, from the rows the engine gave. *)
Definition executed (w : world) (sql : str) : result exn ExecutionResult :=
  match db_execute w sql with
  | Return result =>
      Return (mkExecutionResult
                (map (fun row => dict_zip (keys result) row []) (raw_rows result))
                (keys result)
                (List.length (map (fun row => dict_zip (keys result) row [])
                                (raw_rows result)))
                (elapsed result))
  | Raise e => Raise e
  end.

(** The response once the executor has been called on [sql]. *)
Definition after_execution (rid sql : str) (x : result exn ExecutionResult) : response :=
  match x with
  | Return exec_result =>
      Success (mkQueryResponse rid sql (rows exec_result) (result_columns exec_result)
                 (row_count exec_result) (execution_time exec_result)
                 (explain (row_count exec_result)) false "success" None)
  | Raise exc =>
      Failure (error_response rid sql
                 (py "Query execution failed: " ++ slice_to 200 (text exc))
                 MSG_EXECUTION_HINT)
  end.

End Stages.
Import Stages.

(* ------------------------------------------------------------------ *)
(** ** Concrete collaborators used in the examples *)

Module Examples.

Definition employees_columns : list column_row :=
  [ mkColumnRow "emp_id" "integer" "NO" None;
    mkColumnRow "name" "text" "NO" None;
    mkColumnRow "status" "text" "YES" (Some (py "'active'")) ].

(** A healthy deployment with one table, whose generator answers
    [sql_text] and whose classifier answers [reply]. *)
Definition world_with (reply : result exn str) (sql_text : result exn str) : world :=
  mkWorld (fun _ => reply)
          (fun _ _ _ _ => sql_text)
          (Return [py "employees"])
          (fun _ => Return employees_columns)
          (fun _ => Return (mkDbRows [py "name"] [[py "Ada"]; [py "Grace"]] (1 # 100))).

(** A catalog of six tables. *)
Definition world_six_tables : world :=
  mkWorld (fun _ => Return (py "yes"))
          (fun _ _ _ _ => Return (py "SELECT name FROM employees"))
          (Return [py "attendance"; py "departments"; py "employees";
                   py "inventory"; py "products"; py "sales"])
          (fun _ => Return employees_columns)
          (fun _ => Return (mkDbRows [py "name"] [[py "Ada"]] (1 # 100))).

Definition request_employees : QueryRequest :=
  mkQueryRequest "user-1" "session-1" "Show me all employees".

Definition request_weather : QueryRequest :=
  mkQueryRequest "user-1" "session-1" "What's the weather today?".

End Examples.
Import Examples.

(* ------------------------------------------------------------------ *)
(** ** Words and parentheses in a text *)

Module Lexical.

(** The last character of [a], or [prev] when [a] is empty. *)
Definition last_opt (prev : option ascii) (a : str) : option ascii :=
  fold_left (fun _ c => Some c) a prev.

(** [w] occurs in [s] as a whole word, ignoring case: some stretch of [s]
    spells [w], no word character stands just before it and none just
    after it. *)
Definition occurs_as_word (w s : str) : Prop :=
  exists a m b, s = a ++ m ++ b /\ lower m = lower w /\
                word_before (last_opt None a) = false /\ word_after b = false.

(** [w] occurs in [s], ignoring case, with no word character just before. *)
Definition occurs_at_word_start (w s : str) : Prop :=
  exists a m b, s = a ++ m ++ b /\ lower m = lower w /\
                word_before (last_opt None a) = false.

(** The verbs of the first eleven entries of [_BLOCKED_PATTERNS]. *)
Definition BLOCKED_VERBS : list str :=
  [ py "DROP"; py "ALTER"; py "TRUNCATE"; py "DELETE"; py "INSERT"; py "UPDATE";
    py "CREATE"; py "GRANT"; py "REVOKE"; py "EXECUTE"; py "CALL" ].

(** The expression of [\bw\b] and of [\bw]. *)
Definition word_regex (w : str) : regex :=
  mk_seq (WordB :: map (fun c => One (ALit c)) w ++ [WordB]).

Definition word_start_regex (w : str) : regex :=
  mk_seq (WordB :: map (fun c => One (ALit c)) w).

(** Scanning for a whole word from a position on. *)
Fixpoint word_search (w : str) (prev : option ascii) (s : str) : bool :=
  (negb (word_before prev) && begins_with_keyword w s) ||
  match s with
  | [] => false
  | c :: s' => word_search w (Some c) s'
  end.

Fixpoint word_start_search (w : str) (prev : option ascii) (s : str) : bool :=
  (negb (word_before prev) && startswith_ci w s) ||
  match s with
  | [] => false
  | c :: s' => word_start_search w (Some c) s'
  end.

(** Opening minus closing parentheses. *)
Fixpoint paren_depth (s : str) : Z :=
  match s with
  | [] => 0%Z
  | c :: s' =>
      ((if Ascii.eqb c "(" then 1 else if Ascii.eqb c ")" then -1 else 0)
       + paren_depth s')%Z
  end.

(** Every closing parenthesis closes an earlier opening one, and none
    stays open. *)
Definition well_nested (s : str) : Prop :=
  paren_depth s = 0%Z /\ forall n, (0 <= paren_depth (firstn n s))%Z.

End Lexical.
Import Lexical.

(* ------------------------------------------------------------------ *)
(** ** What the blocked patterns look for *)

Module BlockedContent.

(** The entry of [_BLOCKED_PATTERNS] for a verb. *)
Definition verb_entry (w : str) : pattern * str :=
  (Pattern (word_regex w) true, w ++ py " statements are not allowed").

(** A mutating or DDL verb occurs as a whole word. *)
Definition blocked_verb_occurs (s : str) : Prop :=
  exists verb, In verb BLOCKED_VERBS /\ occurs_as_word verb s.

(** A line comment or the opening of a block comment occurs. *)
Definition comment_occurs (s : str) : Prop :=
  contains "--" s = true \/ contains "/*" s = true.

(** A catalog name occurs: a word starting with [pg_], or the word
    [information_schema]. *)
Definition catalog_probe_occurs (s : str) : Prop :=
  occurs_at_word_start "pg_" s \/ occurs_as_word "information_schema" s.

(** A terminator of the trimmed text is followed by something else than
    terminators. *)
Definition second_statement_occurs (s : str) : Prop :=
  exists a b c, strip s = a ++ ";"%char :: b /\ In c b /\ c <> ";"%char.

(** The entries of [_BLOCKED_PATTERNS] for the eleven verbs, and the two
    entries for the comment sequences that follow them. *)
Definition VERB_PATTERNS : list (pattern * str) := firstn 11 _BLOCKED_PATTERNS.

Definition COMMENT_PATTERNS : list (pattern * str) :=
  firstn 2 (skipn 11 _BLOCKED_PATTERNS).

Definition CATALOG_PATTERNS : list (pattern * str) := skipn 13 _BLOCKED_PATTERNS.

(** None of the patterns [pats] is found in the trimmed text: the loop of
    [validate_sql] passes them. *)
Definition no_pattern_fires (pats : list (pattern * str)) (s : str) : Prop :=
  first_blocked pats (strip s) = None.

End BlockedContent.
Import BlockedContent.

(* ------------------------------------------------------------------ *)
(** ** Shapes of keywords and of traces *)

Module Shapes.

(** A keyword of [_DOMAIN_KEYWORDS] written without regex operators. *)
Definition plain_keyword (kw : str) : bool :=
  forallb (fun c => negb (char_in ".?" c)) kw.

Definition accepted : IntentResult := mkIntentResult true None.

Definition rejected : IntentResult := mkIntentResult false (Some REJECTION_MESSAGE).

(** The calls of the gate: none, or one call of the classifier. *)
Definition gate_calls (q : str) (tr : trace) : Prop :=
  tr = [] \/ tr = [LLMClassify q].

(** The tables whose columns are queried: those of the listing, in order,
    up to and including the first whose query raises. *)
Fixpoint reached_tables (w : world) (tables : list str) : list str :=
  match tables with
  | [] => []
  | t :: tables' =>
      match db_columns w t with
      | Return _ => t :: reached_tables w tables'
      | Raise _ => [t]
      end
  end.

(** The calls of the grounding step: the table listing, then, when it
    succeeds, one columns query per table reached. *)
Definition catalog_calls (w : world) : trace :=
  match db_tables w with
  | Return tables => DBListTables :: map DBListColumns (reached_tables w tables)
  | Raise _ => [DBListTables]
  end.

End Shapes.
Import Shapes.

(* ------------------------------------------------------------------ *)
(** ** Reading a dict *)

Module Dicts.

(** [d.get(key)] on a dict kept as an association list. *)
Fixpoint lookup (key : str) (d : list (str * str)) : option str :=
  match d with
  | [] => None
  | (k, v) :: d' => if str_eqb k key then Some v else lookup key d'
  end.

(** The snippet the retriever builds for a table from its column rows,
    when no two rows share a column name. *)
Definition snippet_of (t : str) (rows : list column_row) : snippet :=
  mkSnippet t (py "Table: " ++ t) (map column_name rows)
    (map (fun r => (column_name r, detail_of r)) rows) [] 1%Q.

End Dicts.
Import Dicts.

(* ------------------------------------------------------------------ *)
(** ** Shapes of expressions *)

Module RegexShapes.

(** Every match of the expression consumes the literal [c]. *)
Fixpoint needs_char (c : ascii) (r : regex) : bool :=
  match r with
  | One (ALit l) => Ascii.eqb l c
  | Seq r1 r2 => needs_char c r1 || needs_char c r2
  | _ => false
  end.

(** The expression ends with [$]. *)
Fixpoint ends_with_eol (r : regex) : bool :=
  match r with
  | Eol => true
  | Seq _ r2 => ends_with_eol r2
  | _ => false
  end.

(** The expression starts with [^]. *)
Fixpoint starts_with_bol (r : regex) : bool :=
  match r with
  | Bol => true
  | Seq r1 _ => starts_with_bol r1
  | _ => false
  end.

(** The expression never looks at the character before the position. *)
Fixpoint no_lookbehind (r : regex) : bool :=
  match r with
  | WordB | Bol => false
  | Seq r1 r2 | Alt r1 r2 => no_lookbehind r1 && no_lookbehind r2
  | Opt r1 => no_lookbehind r1
  | _ => true
  end.

(** [m] is a contiguous part of [s]. *)
Definition is_infix (m s : str) : Prop := exists a b, s = a ++ m ++ b.

Definition backtick : ascii := "`"%char.

Definition newline : ascii := "010"%char.

End RegexShapes.
Import RegexShapes.

(* ------------------------------------------------------------------ *)
(** ** utils/prompt_builder.py *)

Module PromptBuilder.

Definition MSG_NO_SCHEMA : str := "(No schema context available.)".

(** The text of one snippet: the body of the loop of
    [_format_schema_snippets].  A snippet has all its keys, so the
    defaults of [s.get] are never used. *)
Definition section_of (s : snippet) : str :=
  let section :=
    py "TABLE: " ++ table s ++ [newline] ++ py "  Description: " ++ description s
    ++ [newline] ++ py "  Columns: " ++ join ", " (columns s) in
  let section :=
    match column_details s with
    | [] => section
    | _ :: _ =>
        let detail_lines :=
          map (fun cd => py "    - " ++ fst cd ++ py ": " ++ snd cd) (column_details s) in
        section ++ ([newline] ++ py "  Column Details:" ++ [newline])
                ++ join [newline] detail_lines
    end in
  let section :=
    match relationships s with
    | [] => section
    | _ :: _ => section ++ [newline] ++ py "  Joins: " ++ join "; " (relationships s)
    end in
  section.

Definition _format_schema_snippets (snippets : list snippet) : str :=
  match snippets with
  | [] => MSG_NO_SCHEMA
  | _ :: _ => join [newline; newline] (map section_of snippets)
  end.

End PromptBuilder.

(* ------------------------------------------------------------------ *)
(** ** core/config.py *)

Module Config.

(** The settings the modelled code reads. *)
Record Settings : Type :=
  mkSettings { CORS_ORIGINS : str; SESSION_MAX_TURNS : Z }.

(** [s.split(sep)] for a separator of one character. *)
Fixpoint split (sep : ascii) (s : str) : list str :=
  match s with
  | [] => [[]]
  | c :: s' =>
      if Ascii.eqb c sep then [] :: split sep s'
      else match split sep s' with
           | h :: t => (c :: h) :: t
           | [] => [[c]]
           end
  end.

Definition comma : ascii := ","%char.

Definition cors_origin_list (self : Settings) : list str :=
  map strip
      (filter (fun o => negb (is_empty (strip o))) (split comma (CORS_ORIGINS self))).

End Config.

(* ------------------------------------------------------------------ *)
(** ** memory/session_memory.py *)

Module SessionMemory.
Import Config.

(** [l[i:]] *)
Definition slice_from {A : Type} (i : Z) (l : list A) : list A :=
  let n := Z.of_nat (List.length l) in
  let start := if (i <? 0)%Z then Z.max (n + i) 0 else Z.min i n in
  skipn (Z.to_nat start) l.

Record ConversationTurn : Type :=
  mkConversationTurn { role : str; content : str; sql : option str; timestamp : str }.

Record Session : Type :=
  mkSession { session_id : str; user_id : str;
              turns : list ConversationTurn; created_at : str }.

Definition set_turns (self : Session) (ts : list ConversationTurn) : Session :=
  mkSession (session_id self) (user_id self) ts (created_at self).

(** [now] is the time the clock gives when the turn is built. *)
Definition add_turn (settings : Settings) (now : str) (self : Session)
    (role content : str) (sql : option str) : Session :=
  let self := set_turns self (turns self ++ [mkConversationTurn role content sql now]) in
  (* Evict oldest turns beyond the configured maximum *)
  if (Z.of_nat (List.length (turns self)) >? SESSION_MAX_TURNS settings)%Z
  then set_turns self (slice_from (- SESSION_MAX_TURNS settings) (turns self))
  else self.

(** A message dict with the keys role and content. *)
Record message : Type := mkMessage { msg_role : str; msg_content : str }.

Definition get_context_messages (self : Session) (last_n : Z) : list message :=
  let recent := slice_from (- last_n) (turns self) in
  map (fun t => mkMessage (role t) (content t)) recent.

Definition reset (self : Session) : Session := set_turns self [].

(** One call of [add_turn]: the clock's answer and the arguments. *)
Record call_args : Type :=
  mkCall { at_time : str; with_role : str; with_content : str; with_sql : option str }.

Definition turn_of (c : call_args) : ConversationTurn :=
  mkConversationTurn (with_role c) (with_content c) (with_sql c) (at_time c).

(** A sequence of [add_turn] calls on one session. *)
Definition add_turns (settings : Settings) (self : Session) (calls : list call_args)
    : Session :=
  fold_left (fun s c => add_turn settings (at_time c) s (with_role c) (with_content c)
                          (with_sql c))
            calls self.

(** The last [n] elements of a list. *)
Definition last_n {A : Type} (n : nat) (l : list A) : list A :=
  skipn (List.length l - n) l.

End SessionMemory.

(* ------------------------------------------------------------------ *)
(** ** memory/memory_updater.py *)

Module MemoryUpdater.

Definition _DOMAIN_KEYWORDS : list (str * list str) :=
  [ (py "HR",
     [py "employee"; py "staff"; py "salary"; py "department"; py "designation";
      py "manager"; py "hire"; py "attendance"; py "leave"; py "check_in";
      py "check_out"; py "hours_worked"; py "absent"; py "present"; py "late"]);
    (py "Inventory",
     [py "inventory"; py "stock"; py "material"; py "raw_material"; py "supplier";
      py "reorder"; py "quantity"; py "cost_per_unit"; py "fabric"]);
    (py "Production",
     [py "production"; py "product"; py "manufacturing"; py "order"; py "target";
      py "completed"; py "stitching"; py "cutting"; py "product_code"]);
    (py "Sales",
     [py "sale"; py "sales"; py "revenue"; py "customer"; py "total_amount";
      py "selling_price"]) ].

Definition _detect_domains (query sql : str) : list str :=
  let combined := lower (query ++ py " " ++ sql) in
  let matched :=
    map fst (filter (fun entry => existsb (fun kw => contains kw combined) (snd entry))
                    _DOMAIN_KEYWORDS) in
  match matched with
  | [] => [py "HR"]  (* default fallback *)
  | _ :: _ => matched
  end.

(** Some keyword of the domain occurs in the text. *)
Definition domain_keyword_in (domain text : str) : Prop :=
  exists kws kw, In (domain, kws) _DOMAIN_KEYWORDS /\ In kw kws /\
                 contains kw text = true.

End MemoryUpdater.

(* ================================================================== *)
(** * Properties *)

Unset Implicit Arguments.

(* ------------------------------------------------------------------ *)
(** ** Strings *)

Section StringFacts.

Lemma drop_while_end_app_keep (p : ascii -> bool) (a : str) (c : ascii) (b : str) :
  p c = false ->
  drop_while_end p (a ++ c :: b) = a ++ c :: drop_while_end p b.
Proof.
  intros Hc. induction a as [|x a IH]; simpl.
  - destruct (drop_while_end p b); [now rewrite Hc | reflexivity].
  - rewrite IH. destruct a; reflexivity.
Qed.

Lemma drop_while_end_all (p : ascii -> bool) (s : str) :
  forallb p s = true -> drop_while_end p s = [].
Proof.
  induction s as [|c s IH]; simpl; [reflexivity|].
  intros H. apply andb_true_iff in H as [Hc Hs].
  now rewrite (IH Hs), Hc.
Qed.

(** A string splits into what [drop_while_end] keeps and a dropped tail. *)
Lemma drop_while_end_split (p : ascii -> bool) (s : str) :
  exists tail, s = drop_while_end p s ++ tail /\ forallb p tail = true.
Proof.
  induction s as [|c s [tail [Hs Ht]]]; simpl.
  - now exists [].
  - destruct (drop_while_end p s) as [|d t] eqn:E.
    + destruct (p c) eqn:Hc.
      * exists (c :: s). simpl. split; [reflexivity|].
        rewrite Hc. simpl in Hs. now rewrite Hs.
      * exists s. split; [reflexivity|]. simpl in Hs. now rewrite Hs.
    + exists tail. split; [|exact Ht]. simpl. now rewrite Hs at 1.
Qed.

(** What [drop_while_end] keeps does not end with a dropped character. *)
Lemma drop_while_end_last (p : ascii -> bool) (s : str) (a : str) (c : ascii) :
  drop_while_end p s = a ++ [c] -> p c = false.
Proof.
  revert a. induction s as [|x s IH]; simpl; intros a H.
  - now destruct a.
  - destruct (drop_while_end p s) as [|d t] eqn:E.
    + destruct (p x) eqn:Hx; [now destruct a|].
      destruct a as [|y a]; [now inversion H; subst|].
      inversion H. now destruct a.
    + destruct a as [|y a]; [inversion H|].
      inversion H; subst. now apply (IH a).
Qed.

Lemma drop_while_end_idem (p : ascii -> bool) (s : str) :
  drop_while_end p (drop_while_end p s) = drop_while_end p s.
Proof.
  induction s as [|c s IH]; simpl; [reflexivity|].
  destruct (drop_while_end p s) as [|d t] eqn:E.
  - destruct (p c) eqn:Hc; simpl; [reflexivity | now rewrite Hc].
  - simpl in *. rewrite IH. reflexivity.
Qed.

Lemma drop_while_end_head (p : ascii -> bool) (c : ascii) (s : str) :
  p c = false -> exists t, drop_while_end p (c :: s) = c :: t.
Proof.
  intros Hc. simpl. destruct (drop_while_end p s) as [|d t].
  - rewrite Hc. now exists [].
  - now exists (d :: t).
Qed.

Lemma drop_while_head (p : ascii -> bool) (s : str) :
  match drop_while p s with [] => True | c :: _ => p c = false end.
Proof.
  induction s as [|c s IH]; simpl; [exact I|].
  destruct (p c) eqn:Hc; [exact IH | exact Hc].
Qed.

Lemma drop_while_fix (p : ascii -> bool) (s : str) :
  match s with [] => True | c :: _ => p c = false end ->
  drop_while p s = s.
Proof.
  destruct s as [|c s]; simpl; [reflexivity|]. now intros ->.
Qed.

(** [s.strip()] has no leading whitespace... *)
Lemma strip_head (s : str) :
  match strip s with [] => True | c :: _ => isspace c = false end.
Proof.
  unfold strip, rstrip, lstrip.
  pose proof (drop_while_head isspace s) as H.
  destruct (drop_while isspace s) as [|c t]; simpl; [exact I|].
  destruct (drop_while_end isspace t); [|exact H].
  destruct (isspace c) eqn:Hc; [exact I | exact Hc].
Qed.

(** ... and no trailing whitespace. *)
Lemma strip_last (s : str) (a : str) (c : ascii) :
  strip s = a ++ [c] -> isspace c = false.
Proof. apply drop_while_end_last. Qed.

Lemma strip_idem (s : str) : strip (strip s) = strip s.
Proof.
  unfold strip at 1. unfold lstrip.
  rewrite (drop_while_fix isspace (strip s) (strip_head s)).
  apply drop_while_end_idem.
Qed.

Lemma contains_char (c : ascii) (s : str) :
  contains [c] s = existsb (Ascii.eqb c) s.
Proof.
  induction s as [|x s IH]; simpl; [reflexivity|].
  rewrite IH. now rewrite andb_true_r.
Qed.

Lemma in_drop_while (p : ascii -> bool) (x : ascii) (s : str) :
  In x s -> p x = false -> In x (drop_while p s).
Proof.
  intros Hin Hx. induction s as [|c s IH]; simpl; [exact Hin|].
  destruct (p c) eqn:Hc; [|exact Hin].
  destruct Hin as [-> | Hin]; [congruence | now apply IH].
Qed.

Lemma in_drop_while_end (p : ascii -> bool) (x : ascii) (s : str) :
  In x s -> p x = false -> In x (drop_while_end p s).
Proof.
  intros Hin Hx. induction s as [|c s IH]; simpl; [exact Hin|].
  destruct Hin as [-> | Hin].
  - destruct (drop_while_end p s); [rewrite Hx|]; now left.
  - specialize (IH Hin). destruct (drop_while_end p s); [inversion IH | now right].
Qed.

Lemma drop_while_incl (p : ascii -> bool) (x : ascii) (s : str) :
  In x (drop_while p s) -> In x s.
Proof.
  induction s as [|c s IH]; simpl; [auto|].
  destruct (p c); [right; now apply IH | auto].
Qed.

Lemma drop_while_end_incl (p : ascii -> bool) (x : ascii) (s : str) :
  In x (drop_while_end p s) -> In x s.
Proof.
  destruct (drop_while_end_split p s) as [tail [Hs _]].
  intros H. rewrite Hs. apply in_or_app. now left.
Qed.

Lemma strip_keeps (x : ascii) (s : str) :
  isspace x = false -> (In x (strip s) <-> In x s).
Proof.
  intros Hx. unfold strip, rstrip, lstrip. split; intros H.
  - now apply drop_while_end_incl, drop_while_incl in H.
  - now apply in_drop_while_end; [apply in_drop_while|].
Qed.

Lemma contains_char_in (c : ascii) (s : str) :
  contains [c] s = true <-> In c s.
Proof.
  rewrite contains_char, existsb_exists. split.
  - intros [x [Hin Hx]]. apply Ascii.eqb_eq in Hx. now subst.
  - intros Hin. exists c. split; [exact Hin | apply Ascii.eqb_refl].
Qed.

(** A [;] survives the removal of the trailing [;] run exactly when some
    other character comes after it. *)
Lemma semicolon_remains (t : str) :
  In ";"%char (rstrip_chars ";" t) <->
  exists a b c, t = a ++ ";"%char :: b /\ In c b /\ c <> ";"%char.
Proof.
  unfold rstrip_chars.
  assert (Hp : forall c, char_in ";" c = false <-> c <> ";"%char).
  { intros c. unfold char_in. simpl. rewrite orb_false_r. apply Ascii.eqb_neq. }
  split.
  - intros Hin.
    destruct (drop_while_end_split (char_in ";") t) as [tail [Ht _]].
    apply in_split in Hin as [a [b Hu]].
    destruct (rev b) as [|d rb] eqn:Hrev.
    + apply (f_equal (@rev ascii)) in Hrev. rewrite rev_involutive in Hrev.
      simpl in Hrev. subst b.
      apply drop_while_end_last in Hu. now apply Hp in Hu.
    + apply (f_equal (@rev ascii)) in Hrev. rewrite rev_involutive in Hrev.
      simpl in Hrev. subst b.
      assert (Hd : char_in ";" d = false).
      { apply (drop_while_end_last (char_in ";") t (a ++ ";"%char :: rev rb) d).
        rewrite Hu, <- app_assoc. reflexivity. }
      exists a, ((rev rb ++ [d]) ++ tail), d. split.
      * rewrite Ht at 1. rewrite Hu, <- app_assoc. reflexivity.
      * split; [|now apply Hp].
        apply in_or_app. left. apply in_or_app. right. now left.
  - intros (a & b & c & Ht & Hin & Hc).
    apply in_split in Hin as [b1 [b2 Hb]]. subst b t.
    replace (a ++ ";"%char :: b1 ++ c :: b2) with ((a ++ ";"%char :: b1) ++ c :: b2)
      by (now rewrite <- app_assoc).
    rewrite drop_while_end_app_keep by (now apply Hp).
    rewrite <- app_assoc. apply in_or_app. right. now left.
Qed.

End StringFacts.

(* ------------------------------------------------------------------ *)
(** ** The validator *)

Section ValidatorFacts.

(** [validate_sql] either raises or hands back its argument. *)
Lemma validate_sql_cases (s : str) :
  validate_sql s = Return s \/ exists e, validate_sql s = Raise e /\ sql_of e = s.
Proof.
  unfold validate_sql.
  destruct (is_empty s || is_empty (strip s)); [right; eauto|].
  destruct (negb (re_match _ALLOWED_START (strip s))); [right; eauto|].
  destruct (first_blocked _BLOCKED_PATTERNS (strip s)); [right; eauto|].
  destruct (negb (parens_balanced (strip s))); [right; eauto|].
  destruct (contains ";" (strip (rstrip_chars ";" (strip s)))); [right; eauto|].
  now left.
Qed.

End ValidatorFacts.

(** C9: whenever [validate_sql s] succeeds, the value it returns is [s]
    itself, unchanged (not trimmed, not rewritten). *)
Theorem validate_sql_returns_input (s r : str) :
  validate_sql s = Return r -> r = s.
Proof.
  intros H. destruct (validate_sql_cases s) as [E | [e [E _]]];
    rewrite E in H; [now inversion H | discriminate].
Qed.

Lemma validate_sql_returns_input_witness :
  exists r, validate_sql (py "  SELECT name FROM employees ;  ") = Return r /\
            r = py "  SELECT name FROM employees ;  ".
Proof.
  eexists. split.
  - vm_compute. reflexivity.
  - apply (validate_sql_returns_input (py "  SELECT name FROM employees ;  ")).
    vm_compute. reflexivity.
Defined.

(* ------------------------------------------------------------------ *)
(** ** Regular expressions *)

Section RegexFacts.

Lemma isword_lower (c : ascii) : isword (lower_char c) = isword c.
Proof. destruct c as [[] [] [] [] [] [] [] []]; reflexivity. Qed.

Lemma isspace_lower (c : ascii) : isspace (lower_char c) = isspace c.
Proof. destruct c as [[] [] [] [] [] [] [] []]; reflexivity. Qed.

Lemma isword_not_space (c : ascii) : isword c = true -> isspace c = false.
Proof. destruct c as [[] [] [] [] [] [] [] []]; simpl; intros H; try reflexivity; discriminate H. Qed.

Lemma ci_eq_isword (l c : ascii) :
  Ascii.eqb (lower_char l) (lower_char c) = true -> isword c = isword l.
Proof.
  intros H. apply Ascii.eqb_eq in H.
  now rewrite <- (isword_lower c), <- H, isword_lower.
Qed.

Lemma ci_eq_isspace (l c : ascii) :
  Ascii.eqb (lower_char l) (lower_char c) = true -> isspace c = isspace l.
Proof.
  intros H. apply Ascii.eqb_eq in H.
  now rewrite <- (isspace_lower c), <- H, isspace_lower.
Qed.

Lemma advance_skipn (n : nat) (prev : option ascii) (s : str) :
  snd (advance n prev s) = skipn n s.
Proof.
  revert prev s. induction n as [|n IH]; intros prev [|c s]; simpl; auto.
Qed.

(** Once a non-empty word has been consumed, the character before the
    current position is case-equal to the last letter of the word. *)
Lemma advance_prev (w : str) (l : ascii) (prev : option ascii) (s : str) :
  startswith_ci (w ++ [l]) s = true ->
  exists c, fst (advance (List.length (w ++ [l])) prev s) = Some c
            /\ Ascii.eqb (lower_char l) (lower_char c) = true.
Proof.
  unfold startswith_ci, lower.
  revert prev s. induction w as [|x w IH]; intros prev [|c s]; simpl; try discriminate.
  - intros H. apply andb_true_iff in H as [H _]. exists c. now destruct s.
  - intros H. apply andb_true_iff in H as [_ H]. now apply IH.
Qed.

Lemma rmatch_lits (A : Type) (w : str) (prev : option ascii) (s : str)
    (k : option ascii -> str -> option A) :
  rmatch true (lits w) prev s k =
  if startswith_ci w s
  then k (fst (advance (List.length w) prev s)) (snd (advance (List.length w) prev s))
  else None.
Proof.
  unfold startswith_ci, lower, lits.
  revert prev s k. induction w as [|l w IH]; intros prev s k; [reflexivity|].
  destruct w as [|l' w].
  - destruct s as [|c s]; simpl; [reflexivity|].
    rewrite andb_true_r. reflexivity.
  - change (mk_seq (map (fun c => One (ALit c)) (l :: l' :: w)))
      with (Seq (One (ALit l)) (mk_seq (map (fun c => One (ALit c)) (l' :: w)))).
    destruct s as [|c s]; [reflexivity|].
    cbn [rmatch atom_ok].
    change (startswith (map lower_char (l :: l' :: w)) (map lower_char (c :: s)))
      with (Ascii.eqb (lower_char l) (lower_char c)
            && startswith (map lower_char (l' :: w)) (map lower_char s)).
    destruct (Ascii.eqb (lower_char l) (lower_char c)); [|reflexivity].
    rewrite IH. reflexivity.
Qed.

(** Greedy [\s*] in front of a continuation that cannot start on a space
    and does not look behind: the continuation runs after the spaces. *)
Lemma star_space_skip (A : Type) (ic : bool) (k : option ascii -> str -> option A)
    (prev : option ascii) (s : str) :
  (forall p c t, isspace c = true -> k p (c :: t) = None) ->
  (forall p p' t, k p t = k p' t) ->
  star ic ASpace prev s k = k None (drop_while isspace s).
Proof.
  intros Hsp Hprev. revert prev.
  induction s as [|c s IH]; intros prev; simpl; [apply Hprev|].
  destruct (isspace c) eqn:Hc.
  - rewrite IH. destruct (k None (drop_while isspace s)) eqn:E; [reflexivity|].
    now apply Hsp.
  - apply Hprev.
Qed.

Lemma matches_here_alt (ic : bool) (r1 r2 : regex) (prev : option ascii) (s : str) :
  matches_here ic (Alt r1 r2) prev s = matches_here ic r1 prev s || matches_here ic r2 prev s.
Proof.
  unfold matches_here, match_here. simpl.
  destruct (rmatch ic r1 prev s (fun _ t => Some t)); reflexivity.
Qed.

Lemma search_from_alt (ic : bool) (r1 r2 : regex) (prev : option ascii) (s : str) :
  search_from ic (Alt r1 r2) prev s = search_from ic r1 prev s || search_from ic r2 prev s.
Proof.
  revert prev. induction s as [|c s IH]; intros prev; simpl.
  - rewrite matches_here_alt. now rewrite !orb_false_r.
  - rewrite matches_here_alt, IH.
    destruct (matches_here ic r1 prev (c :: s)), (matches_here ic r2 prev (c :: s)),
      (search_from ic r1 (Some c) s), (search_from ic r2 (Some c) s); reflexivity.
Qed.

Lemma search_from_never (ic : bool) (prev : option ascii) (s : str) :
  search_from ic Never prev s = false.
Proof. revert prev. induction s as [|c s IH]; intros prev; simpl; auto. Qed.

Lemma search_from_mk_alt (ic : bool) (rs : list regex) (prev : option ascii) (s : str) :
  search_from ic (mk_alt rs) prev s = existsb (fun r => search_from ic r prev s) rs.
Proof.
  induction rs as [|r rs IH]; [apply search_from_never|].
  destruct rs as [|r' rs].
  - simpl. now rewrite orb_false_r.
  - change (mk_alt (r :: r' :: rs)) with (Alt r (mk_alt (r' :: rs))).
    rewrite search_from_alt, IH. reflexivity.
Qed.

End RegexFacts.

(* ------------------------------------------------------------------ *)
(** ** The allowlist pattern against the words of the specification *)

Section AllowedStart.

Let boundary_k : option ascii -> str -> option str :=
  fun p t => if xorb (word_before p) (word_after t) then Some t else None.

Lemma allowed_start_expr :
  _ALLOWED_START =
  Pattern (Seq Bol (Seq (Star ASpace)
             (Seq (Alt (lits "SELECT") (lits "WITH")) WordB))) true.
Proof. reflexivity. Qed.

Lemma keyword_then_boundary (w : str) (l : ascii) (p : option ascii) (t : str) :
  isword l = true ->
  rmatch true (lits (w ++ [l])) p t boundary_k =
  if begins_with_keyword (w ++ [l]) t
  then Some (skipn (List.length (w ++ [l])) t) else None.
Proof.
  intros Hl. rewrite rmatch_lits. unfold begins_with_keyword.
  destruct (startswith_ci (w ++ [l]) t) eqn:E; [|reflexivity].
  destruct (advance_prev w l p t E) as [c [Hc Hci]].
  unfold boundary_k. rewrite Hc, advance_skipn. simpl.
  rewrite (ci_eq_isword _ _ Hci), Hl. simpl.
  now destruct (word_after (skipn (List.length (w ++ [l])) t)).
Qed.

Lemma begins_with_keyword_space (w : str) (l c : ascii) (t : str) :
  isspace l = false -> isspace c = true ->
  begins_with_keyword (l :: w) (c :: t) = false.
Proof.
  intros Hl Hc. unfold begins_with_keyword, startswith_ci. simpl.
  destruct (Ascii.eqb (lower_char l) (lower_char c)) eqn:E; [|reflexivity].
  apply ci_eq_isspace in E. congruence.
Qed.

Lemma re_match_allowed_start (t : str) :
  re_match _ALLOWED_START t =
  begins_with_keyword "SELECT" (drop_while isspace t)
  || begins_with_keyword "WITH" (drop_while isspace t).
Proof.
  rewrite allowed_start_expr. unfold re_match, matches_here, match_here.
  cbn [expr ignorecase rmatch].
  set (K := fun (p : option ascii) (t0 : str) =>
              rmatch true (Seq (Alt (lits "SELECT") (lits "WITH")) WordB) p t0
                (fun _ t1 => Some t1)).
  assert (HK : forall p t0, K p t0 =
            if begins_with_keyword "SELECT" t0 then Some (skipn 6 t0)
            else if begins_with_keyword "WITH" t0 then Some (skipn 4 t0)
            else None).
  { intros p t0. unfold K. cbn [rmatch].
    change (fun (p0 : option ascii) (t1 : str) =>
              if xorb (word_before p0) (word_after t1) then Some t1 else None)
      with boundary_k.
    pose proof (keyword_then_boundary (py "SELEC") "T" p t0 eq_refl) as HS.
    pose proof (keyword_then_boundary (py "WIT") "H" p t0 eq_refl) as HW.
    change (py "SELEC" ++ ["T"%char]) with (py "SELECT") in HS.
    change (py "WIT" ++ ["H"%char]) with (py "WITH") in HW.
    rewrite HS, HW.
    change (List.length (py "SELECT")) with 6.
    change (List.length (py "WITH")) with 4.
    destruct (begins_with_keyword "SELECT" t0); reflexivity. }
  change (star true ASpace None t
            (fun p t0 => rmatch true (Seq (Alt (lits "SELECT") (lits "WITH")) WordB) p t0
                           (fun _ t1 => Some t1)))
    with (star true ASpace None t K).
  rewrite star_space_skip.
  - change (match K None (drop_while isspace t) with Some _ => true | None => false end
            = begins_with_keyword "SELECT" (drop_while isspace t)
              || begins_with_keyword "WITH" (drop_while isspace t)).
    rewrite HK.
    destruct (begins_with_keyword "SELECT" (drop_while isspace t)),
             (begins_with_keyword "WITH" (drop_while isspace t)); reflexivity.
  - intros p c t0 Hc. change (K p (c :: t0) = None). rewrite HK.
    pose proof (begins_with_keyword_space (py "ELECT") "S" c t0 eq_refl Hc) as HS.
    pose proof (begins_with_keyword_space (py "ITH") "W" c t0 eq_refl Hc) as HW.
    change ("S"%char :: py "ELECT") with (py "SELECT") in HS.
    change ("W"%char :: py "ITH") with (py "WITH") in HW.
    now rewrite HS, HW.
  - intros p p' t0. change (K p t0 = K p' t0). now rewrite !HK.
Qed.

(** Trailing whitespace plays no part in whether a keyword leads. *)
Lemma startswith_ci_app_spaces (kw v tail : str) :
  forallb (fun c => negb (isspace c)) kw = true ->
  forallb isspace tail = true ->
  kw <> [] ->
  startswith_ci kw (v ++ tail) = startswith_ci kw v.
Proof.
  unfold startswith_ci, lower. revert kw.
  induction v as [|x v IH]; intros kw Hkw Htail Hne.
  - destruct kw as [|k kw]; [congruence|]. simpl.
    destruct tail as [|c tail]; [reflexivity|]. simpl in *.
    apply andb_true_iff in Hkw as [Hk _]. apply andb_true_iff in Htail as [Hc _].
    destruct (Ascii.eqb (lower_char k) (lower_char c)) eqn:E; [|reflexivity].
    apply ci_eq_isspace in E. rewrite Hc in E. rewrite <- E in Hk. discriminate.
  - destruct kw as [|k kw]; [congruence|]. simpl in *.
    apply andb_true_iff in Hkw as [_ Hkw].
    destruct kw as [|k' kw]; [reflexivity|].
    rewrite (IH (k' :: kw) Hkw Htail); [reflexivity | discriminate].
Qed.

Lemma startswith_length (w s : str) :
  startswith w s = true -> List.length w <= List.length s.
Proof.
  revert s. induction w as [|x w IH]; intros [|c s]; simpl; try lia; try discriminate.
  intros H. apply andb_true_iff in H as [_ H]. apply IH in H. lia.
Qed.

Lemma word_after_app_spaces (y tail : str) :
  forallb isspace tail = true -> word_after (y ++ tail) = word_after y.
Proof.
  intros Ht. destruct y as [|c y]; [|reflexivity]. simpl.
  destruct tail as [|c tail]; [reflexivity|]. simpl in *.
  apply andb_true_iff in Ht as [Hc _].
  destruct (isword c) eqn:E; [|reflexivity].
  apply isword_not_space in E. congruence.
Qed.

Lemma begins_with_keyword_rstrip (kw u : str) :
  forallb (fun c => negb (isspace c)) kw = true ->
  kw <> [] ->
  begins_with_keyword kw (rstrip u) = begins_with_keyword kw u.
Proof.
  intros Hkw Hne. unfold rstrip.
  destruct (drop_while_end_split isspace u) as [tail [Hu Htail]].
  remember (drop_while_end isspace u) as v eqn:Hv. clear Hv. subst u.
  unfold begins_with_keyword.
  rewrite (startswith_ci_app_spaces kw v tail Hkw Htail Hne).
  destruct (startswith_ci kw v) eqn:E; [|reflexivity]. simpl.
  unfold startswith_ci, lower in E. apply startswith_length in E.
  rewrite !length_map in E.
  rewrite skipn_app.
  replace (List.length kw - List.length v) with 0 by lia. simpl.
  now rewrite word_after_app_spaces.
Qed.

(** The allowlist regex, run on the trimmed text as [validate_sql] does,
    decides exactly whether the text begins with SELECT or WITH. *)
Lemma allowed_start_is_leading_keyword (s : str) :
  re_match _ALLOWED_START (strip s) = leading_keyword s.
Proof.
  rewrite re_match_allowed_start.
  rewrite (drop_while_fix isspace (strip s) (strip_head s)).
  unfold leading_keyword, strip.
  rewrite !begins_with_keyword_rstrip by (reflexivity || discriminate).
  reflexivity.
Qed.

End AllowedStart.

(* ------------------------------------------------------------------ *)
(** ** Leading keyword (check 2) and single statement (check 6) *)

Lemma strip_nil_of_nil (s : str) : s = [] -> strip s = [].
Proof. now intros ->. Qed.





(** C4, as stated, fails: "SELECT 1;;" passes checks 1 to 5 and a
    terminator remains once exactly one trailing terminator is removed, yet
    the validator accepts it. *)
Lemma double_semicolon_accepted :
  passes_checks_1_to_5 (py "SELECT 1;;") = true /\
  has_terminator (body_one_stripped (py "SELECT 1;;")) = true /\
  validate_sql (py "SELECT 1;;") = Return (py "SELECT 1;;") /\
  validate (py "SELECT 1;;") <> Some MultipleStatements.
Proof. vm_compute. repeat split; discriminate. Qed.

Lemma passes_checks_unfold (s : str) :
  passes_checks_1_to_5 s = true ->
  is_empty s || is_empty (strip s) = false /\
  re_match _ALLOWED_START (strip s) = true /\
  first_blocked _BLOCKED_PATTERNS (strip s) = None /\
  parens_balanced (strip s) = true.
Proof.
  unfold passes_checks_1_to_5. intros H.
  apply andb_true_iff in H as [H H4]. apply andb_true_iff in H as [H H3].
  apply andb_true_iff in H as [H1 H2]. apply negb_true_iff in H1.
  destruct (first_blocked _BLOCKED_PATTERNS (strip s)); [discriminate|]. auto.
Qed.

(** After checks 1 to 5 the verdict is decided by the single-statement
    check alone. *)
Lemma validate_sql_after_checks (s : str) :
  passes_checks_1_to_5 s = true ->
  validate_sql s =
  if has_terminator (body_all_stripped s)
  then Raise (mkSQLValidationError MSG_MULTIPLE s) else Return s.
Proof.
  intros H. apply passes_checks_unfold in H as (H1 & H2 & H3 & H4).
  unfold validate_sql. rewrite H1, H2, H3, H4. reflexivity.
Qed.

(** The single-statement check in the words of the text itself: a
    terminator remains exactly when some [;] of the trimmed text is
    followed by a character other than [;]. *)
Lemma has_terminator_body_all (s : str) :
  has_terminator (body_all_stripped s) = true <->
  exists a b c, strip s = a ++ ";"%char :: b /\ In c b /\ c <> ";"%char.
Proof.
  unfold has_terminator, body_all_stripped.
  change (py ";") with [";"%char].
  rewrite contains_char_in, (strip_keeps ";"%char _ eq_refl).
  apply semicolon_remains.
Qed.

(** C4, amended: for a statement that passes checks 1 to 5, the
    single-statement check removes every trailing terminator from the
    trimmed text (and trims again) and rejects with MultipleStatements
    exactly when a terminator remains in that body, that is when some
    terminator is followed by a character other than a terminator;
    otherwise the statement is accepted. *)
Theorem single_statement_check (s : str) :
  passes_checks_1_to_5 s = true ->
  (validate s = Some MultipleStatements <->
   has_terminator (body_all_stripped s) = true) /\
  (validate s = Some MultipleStatements <->
   exists a b c, strip s = a ++ ";"%char :: b /\ In c b /\ c <> ";"%char) /\
  (validate s = None <-> has_terminator (body_all_stripped s) = false).
Proof.
  intros H. rewrite <- has_terminator_body_all.
  unfold validate. rewrite (validate_sql_after_checks s H).
  destruct (has_terminator (body_all_stripped s)); simpl.
  - change (lookup_kind kind_table MSG_MULTIPLE) with (Some MultipleStatements).
    repeat split; auto; discriminate.
  - repeat split; auto; discriminate.
Qed.

Lemma single_statement_check_witness :
  validate (py "SELECT a FROM t; SELECT b FROM u") = Some MultipleStatements /\
  validate (py "SELECT a FROM t ;; ") = None.
Proof.
  split.
  - refine (proj2 (proj1 (single_statement_check
                            (py "SELECT a FROM t; SELECT b FROM u") _)) _);
      vm_compute; reflexivity.
  - refine (proj2 (proj2 (proj2 (single_statement_check
                                   (py "SELECT a FROM t ;; ") _))) _);
      vm_compute; reflexivity.
Defined.

(* ------------------------------------------------------------------ *)
(** ** Traces of the stages *)

Section StageFacts.

Lemma no_exec_nil : no_exec [].
Proof. intros sql H. inversion H. Qed.

Lemma no_exec_app (a b : trace) : no_exec a -> no_exec b -> no_exec (a ++ b).
Proof.
  intros Ha Hb sql H. apply in_app_or in H as [H | H]; [now apply (Ha sql) | now apply (Hb sql)].
Qed.

Lemma no_exec_classify (q : str) : no_exec [LLMClassify q].
Proof. intros sql [H | []]. discriminate H. Qed.

Lemma no_exec_generate (q : str) (sn : list snippet) : no_exec [LLMGenerate q sn].
Proof. intros sql [H | []]. discriminate H. Qed.

Lemma no_exec_tables : no_exec [DBListTables].
Proof. intros sql [H | []]. discriminate H. Qed.

Lemma no_exec_columns (t : str) : no_exec [DBListColumns t].
Proof. intros sql [H | []]. discriminate H. Qed.

Create HintDb traces.
#[local] Hint Resolve no_exec_nil no_exec_app no_exec_classify no_exec_generate
  no_exec_tables no_exec_columns : traces.

Lemma ignorecase_compile (text : str) (ic : bool) : ignorecase (compile text ic) = ic.
Proof. unfold compile. now destruct (parse text empty_frame []). Qed.

Lemma domain_pattern_expr :
  expr _DOMAIN_PATTERN = mk_alt (map (fun kw => expr (compile kw true)) _DOMAIN_KEYWORDS).
Proof. vm_compute. reflexivity. Qed.

(** The compiled alternation finds a match exactly when one of the
    keywords does. *)
Lemma domain_pattern_search (question : str) :
  re_search _DOMAIN_PATTERN question = some_domain_keyword_matches question.
Proof.
  unfold re_search, some_domain_keyword_matches.
  rewrite domain_pattern_expr.
  rewrite (ignorecase_compile (join "|" _DOMAIN_KEYWORDS) true
           : ignorecase _DOMAIN_PATTERN = true).
  rewrite search_from_mk_alt.
  induction _DOMAIN_KEYWORDS as [|kw kws IH]; [reflexivity|].
  simpl. rewrite IH. unfold re_search. now rewrite ignorecase_compile.
Qed.

Lemma check_intent_keyword (q : str) (w : world) (tr : trace) :
  re_search _DOMAIN_PATTERN q = true ->
  check_intent q w tr = (Return (mkIntentResult true None), tr).
Proof. intros H. unfold check_intent. now rewrite H. Qed.

Lemma check_intent_escalate (q : str) (w : world) (tr : trace) :
  re_search _DOMAIN_PATTERN q = false ->
  check_intent q w tr = (Return (escalation_verdict w q), tr ++ [LLMClassify q]).
Proof.
  intros H. unfold check_intent. rewrite H.
  unfold bind, try_except, _llm_classify, chat_completion_classify, bind, call, ret,
    escalation_verdict.
  destruct (classifier_content w q) as [content | e]; [|reflexivity].
  now destruct (startswith "yes" (lower (strip (strip content)))).
Qed.

(** [check_intent] always returns, and never touches the executor. *)
Lemma check_intent_run (q : str) (w : world) (tr : trace) :
  exists intent ext,
    check_intent q w tr = (Return intent, tr ++ ext) /\ no_exec ext /\
    run (check_intent q) w = (Return intent, ext).
Proof.
  destruct (re_search _DOMAIN_PATTERN q) eqn:E.
  - exists (mkIntentResult true None), []. rewrite app_nil_r.
    unfold run. rewrite !check_intent_keyword by exact E.
    auto using no_exec_nil.
  - exists (escalation_verdict w q), [LLMClassify q].
    unfold run. rewrite !check_intent_escalate by exact E.
    auto using no_exec_classify.
Qed.

Lemma scan_tables_run (tables : list str) (acc : list snippet) (w : world) (tr : trace) :
  exists r ext, scan_tables tables acc w tr = (r, tr ++ ext) /\ no_exec ext.
Proof.
  revert acc tr. induction tables as [|t tables IH]; intros acc tr.
  - exists (Return acc), []. rewrite app_nil_r. split; [reflexivity | apply no_exec_nil].
  - cbn [scan_tables]. unfold bind at 1. unfold call.
    destruct (db_columns w t) as [rows | e].
    + destruct (scan_columns rows [] []) as [cols details].
      destruct (IH (acc ++ [mkSnippet t (py "Table: " ++ t) cols details [] 1%Q])
                  (tr ++ [DBListColumns t])) as (r & ext & E & Hne).
      exists r, ([DBListColumns t] ++ ext). rewrite app_assoc. split; [exact E|].
      auto with traces.
    + exists (Raise e), [DBListColumns t]. split; [reflexivity | auto with traces].
Qed.

Lemma retrieve_run (q : str) (top_k : nat) (ms : Q) (w : world) (tr : trace) :
  exists r ext, retrieve_relevant_schema q top_k ms w tr = (r, tr ++ ext) /\ no_exec ext.
Proof.
  unfold retrieve_relevant_schema, bind, call.
  destruct (db_tables w) as [tables | e].
  - destruct (scan_tables_run tables [] w (tr ++ [DBListTables])) as (r & ext & E & Hne).
    exists r, ([DBListTables] ++ ext). rewrite app_assoc. split; [exact E|].
    auto with traces.
  - exists (Raise e), [DBListTables]. split; [reflexivity | auto with traces].
Qed.

Lemma generate_sql_run (q : str) (sn : list snippet) (h : option hints)
    (c : option (list turn)) (w : world) (tr : trace) :
  generate_sql q sn h c w tr = (generated w q sn h c, tr ++ [LLMGenerate q sn]).
Proof.
  unfold generate_sql, chat_completion_sql, generated, bind, call, ret, raise.
  destruct (generator_content w q sn h c) as [content | e]; [|reflexivity].
  now destruct (is_empty (_clean_sql (strip content))).
Qed.

Lemma execute_run (sql : str) (w : world) (tr : trace) :
  execute_readonly_query sql w tr = (executed w sql, tr ++ [DBExecute sql]).
Proof.
  unfold execute_readonly_query, executed, bind, call, ret.
  now destruct (db_execute w sql).
Qed.

End StageFacts.

(* ------------------------------------------------------------------ *)
(** ** The admission gate *)

(** C6: when at least one domain keyword pattern matches the question,
    [check_intent] returns [is_in_domain = true] and its trace is empty:
    the escalation classifier (the LLM) is not called. *)
Theorem keyword_match_short_circuits (question : str) (w : world) :
  some_domain_keyword_matches question = true ->
  run (check_intent question) w = (Return (mkIntentResult true None), []) /\
  no_classify (snd (run (check_intent question) w)).
Proof.
  intros H. rewrite <- domain_pattern_search in H.
  unfold run. rewrite (check_intent_keyword question w [] H).
  split; [reflexivity|]. intros q Hin. inversion Hin.
Qed.

Lemma keyword_match_short_circuits_witness :
  run (check_intent (py "Show me all employees"))
      (world_with (Raise (mkExn "RuntimeError" false "unreachable"))
         (Return (py "SELECT 1")))
  = (Return (mkIntentResult true None), []).
Proof.
  apply (keyword_match_short_circuits (py "Show me all employees")).
  vm_compute. reflexivity.
Defined.

(** C7: when no domain keyword matches and the escalation classifier
    raises, or answers with a reply whose trimmed lowercase text does not
    begin with "yes", [check_intent] returns [is_in_domain = false] with
    the fixed [REJECTION_MESSAGE], whatever the exception or the reply. *)
Theorem escalation_fails_closed (question : str) (w : world) :
  some_domain_keyword_matches question = false ->
  ((exists e, classifier_content w question = Raise e) \/
   (exists reply, classifier_content w question = Return reply /\
                  startswith "yes" (lower (strip reply)) = false)) ->
  fst (run (check_intent question) w)
  = Return (mkIntentResult false (Some REJECTION_MESSAGE)).
Proof.
  intros Hk Hc. rewrite <- domain_pattern_search in Hk.
  unfold run. rewrite (check_intent_escalate question w [] Hk). simpl.
  unfold escalation_verdict.
  destruct Hc as [[e He] | [reply [Hr Hno]]].
  - now rewrite He.
  - rewrite Hr, strip_idem, Hno. reflexivity.
Qed.

Lemma escalation_fails_closed_witness :
  fst (run (check_intent (py "What's the weather today?"))
         (world_with (Return (py " No, yes it is not. ")) (Return (py "SELECT 1"))))
  = Return (mkIntentResult false (Some REJECTION_MESSAGE)) /\
  fst (run (check_intent (py "What's the weather today?"))
         (world_with (Raise (mkExn "APIConnectionError" false "dns failure at 10.0.0.7"))
            (Return (py "SELECT 1"))))
  = Return (mkIntentResult false (Some REJECTION_MESSAGE)).
Proof.
  split.
  - apply escalation_fails_closed.
    + vm_compute. reflexivity.
    + right. exists (py " No, yes it is not. "). split; vm_compute; reflexivity.
  - apply escalation_fails_closed.
    + vm_compute. reflexivity.
    + left. eexists. reflexivity.
Defined.

(* ------------------------------------------------------------------ *)
(** ** The orchestrator *)

Section OrchestratorFacts.

(** A run that ends with an error response before the executor: [H] is
    the equation of the run, [Hne] says that its trace has no executor
    call. *)
Ltac stops_with H Hne :=
  left; injection H as <- <-; split; [exact Hne | left; eexists; reflexivity].


(** Every run of [handle_query] has one of two shapes: it stops before
    the executor (and then answers no [QueryResponse]), or it passed the gate,
    generated a statement the validator accepts, and ends with the one call
    of the executor on that statement. *)
Lemma handle_query_shape (w : world) (rid : str) (req : QueryRequest)
    (out : result exn response) (tr : trace) :
  run (handle_query rid req) w = (out, tr) ->
  exists intent tr_gate,
    run (check_intent (strip (query req))) w = (Return intent, tr_gate) /\
    no_exec tr_gate /\
    ((no_exec tr /\
      ((exists er, out = Return (Failure er)) \/
       (exists sn e, out = Raise e /\ is_value_error e = false /\
                     generator_content w (strip (query req)) sn None None = Raise e)))
     \/
     (exists rest sn content sql,
        is_in_domain intent = true /\
        generator_content w (strip (query req)) sn None None = Return content /\
        sql = _clean_sql (strip content) /\
        validate_sql sql = Return sql /\
        no_exec rest /\ In (LLMGenerate (strip (query req)) sn) rest /\
        out = Return (after_execution rid sql (executed w sql)) /\
        tr = (tr_gate ++ rest) ++ [DBExecute sql])).
Proof.
  set (q := strip (query req)). intros H.
  destruct (check_intent_run q w []) as (intent & tr_gate & Hci & Hne_gate & Hrun).
  simpl in Hci.
  exists intent, tr_gate. split; [exact Hrun|]. split; [exact Hne_gate|].
  unfold run, handle_query in H. fold q in H. unfold bind at 1 in H. rewrite Hci in H.
  destruct (is_in_domain intent) eqn:Hdom; cbn [negb] in H; cbv beta iota in H.
  2:{ stops_with H Hne_gate. }
  unfold bind at 1 in H. unfold try_except at 1 in H. cbv beta in H.
  destruct (retrieve_run q 5 (3 # 10) w tr_gate) as (r & ext_s & Hret & Hne_s).
  rewrite Hret in H.
  assert (Hne1 : no_exec (tr_gate ++ ext_s)) by (now apply no_exec_app).
  destruct r as [schema_snippets | e].
  2:{ stops_with H Hne1. }
  destruct schema_snippets as [|s0 sn].
  { stops_with H Hne1. }
  cbv beta iota in H. unfold bind at 1 in H. unfold try_except_ValueError at 1 in H.
  cbv beta in H.
  rewrite generate_sql_run in H.
  assert (Hne2 : no_exec ((tr_gate ++ ext_s) ++ [LLMGenerate q (s0 :: sn)])).
  { apply no_exec_app; [exact Hne1 | apply no_exec_generate]. }
  unfold generated in H.
  destruct (generator_content w q (s0 :: sn) None None) as [content | e] eqn:Hgen.
  2:{ left. destruct (is_value_error e) eqn:Hve; injection H as <- <-;
        (split; [exact Hne2|]); [left; eexists; reflexivity|].
      right. exists (s0 :: sn), e. auto. }
  destruct (is_empty (_clean_sql (strip content))) eqn:Hempty.
  { simpl in H. stops_with H Hne2. }
  destruct (validate_sql_cases (_clean_sql (strip content))) as [Hval | [exc [Hval _]]];
    rewrite Hval in H.
  2:{ stops_with H Hne2. }
  right. exists (ext_s ++ [LLMGenerate q (s0 :: sn)]), (s0 :: sn), content,
           (_clean_sql (strip content)).
  split; [reflexivity|]. split; [exact Hgen|]. split; [reflexivity|].
  split; [exact Hval|].
  split; [apply no_exec_app; [exact Hne_s | apply no_exec_generate]|].
  split; [apply in_or_app; right; now left|].
  unfold bind, try_except in H. rewrite execute_run in H.
  rewrite <- app_assoc in H. rewrite !app_assoc in *.
  unfold after_execution.
  destruct (executed w (_clean_sql (strip content))); injection H as <- <-; split; reflexivity.
Qed.

End OrchestratorFacts.

(** C1: in every run of [handle_query], if the executor is called on a
    statement, then that very statement passes [validate_sql], the
    admission gate accepted the question ([check_intent] returned
    [is_in_domain = true]) earlier in the same trace, and this call is the
    last and only call of the executor; and a [QueryResponse] is answered
    only from the result of that call. *)
Theorem executor_only_after_gates (w : world) (rid : str) (req : QueryRequest)
    (out : result exn response) (tr : trace) :
  run (handle_query rid req) w = (out, tr) ->
  (forall sql, In (DBExecute sql) tr ->
     validate_sql sql = Return sql /\
     exists intent tr_gate rest,
       run (check_intent (strip (query req))) w = (Return intent, tr_gate) /\
       is_in_domain intent = true /\
       tr = (tr_gate ++ rest) ++ [DBExecute sql] /\
       no_exec (tr_gate ++ rest)) /\
  (forall r, out = Return (Success r) ->
     In (DBExecute (qr_sql r)) tr /\
     exists er, fst (run (execute_readonly_query (qr_sql r)) w) = Return er /\
                qr_data r = rows er /\ qr_columns r = result_columns er /\
                qr_row_count r = row_count er /\
                qr_execution_time r = execution_time er).
Proof.
  intros H.
  destruct (handle_query_shape w rid req out tr H)
    as (intent & tr_gate & Hgate & Hne_gate & [[Hne Hout] | Hexec]).
  - split.
    + intros sql Hin. now elim (Hne sql).
    + intros r ->. destruct Hout as [[er Her] | (sn & e & Her & _)]; discriminate Her.
  - destruct Hexec as (rest & sn & content & sql0 & Hdom & Hgen & Hsql & Hval
                       & Hne_rest & Hin_gen & Hout & Htr).
    assert (Hne : no_exec (tr_gate ++ rest)) by (now apply no_exec_app).
    split.
    + intros sql Hin. rewrite Htr in Hin. apply in_app_or in Hin as [Hin | Hin].
      * now elim (Hne sql).
      * destruct Hin as [Heq | []]. injection Heq as <-.
        split; [exact Hval|]. exists intent, tr_gate, rest. repeat split; assumption.
    + intros r Hr. rewrite Hr in Hout. unfold after_execution in Hout.
      destruct (executed w sql0) as [er | exc] eqn:Hex; [|discriminate Hout].
      injection Hout as ->. simpl. split.
      * rewrite Htr. apply in_or_app. right. now left.
      * exists er. unfold run. rewrite execute_run. simpl fst.
        repeat split; try reflexivity. exact Hex.
Qed.

Lemma executor_only_after_gates_witness :
  In (DBExecute (py "SELECT name FROM employees"))
     (snd (run (handle_query "r1" request_employees)
             (world_with (Return (py "no"))
                (Return (py "SELECT name FROM employees;"))))) /\
  validate_sql (py "SELECT name FROM employees") = Return (py "SELECT name FROM employees").
Proof.
  pose proof (executor_only_after_gates
                (world_with (Return (py "no")) (Return (py "SELECT name FROM employees;")))
                (py "r1") request_employees _ _
                (surjective_pairing _)) as [Hexec _].
  assert (Hin : In (DBExecute (py "SELECT name FROM employees"))
                   (snd (run (handle_query "r1" request_employees)
                           (world_with (Return (py "no"))
                              (Return (py "SELECT name FROM employees;")))))).
  { vm_compute. do 3 right. left. reflexivity. }
  split; [exact Hin|]. exact (proj1 (Hexec _ Hin)).
Defined.

(** C2 fails on the generator path: when the LLM call inside
    [generate_sql] raises an exception that is not a [ValueError], the
    handler's [except ValueError] does not catch it and [handle_query]
    raises it past its boundary instead of answering an error outcome. *)
Theorem generator_exception_propagates :
  fst (run (handle_query "r1" request_employees)
         (world_with (Return (py "no"))
            (Raise (mkExn "APIConnectionError" false "Connection error."))))
  = Raise (mkExn "APIConnectionError" false "Connection error.").
Proof. vm_compute. reflexivity. Qed.

(** The only exceptions that leave [handle_query] are those of the
    generator call that are not [ValueError]s; an exception of the
    executor becomes an error outcome with at most the first 200
    characters of its text. *)
Lemma handle_query_raises_only_from_generator (w : world) (rid : str) (req : QueryRequest)
    (e : exn) (tr : trace) :
  run (handle_query rid req) w = (Raise e, tr) ->
  is_value_error e = false /\
  exists sn, generator_content w (strip (query req)) sn None None = Raise e.
Proof.
  intros H.
  destruct (handle_query_shape w rid req _ tr H)
    as (intent & tr_gate & _ & _ & [[_ Hout] | Hexec]).
  - destruct Hout as [[er Her] | (sn & e' & Her & Hve & Hgen)]; [discriminate Her|].
    injection Her as <-. eauto.
  - destruct Hexec as (_ & _ & _ & sql0 & _ & _ & _ & _ & _ & _ & Hout & _).
    unfold after_execution in Hout. destruct (executed w sql0); discriminate Hout.
Qed.

Lemma executor_exception_is_truncated (w : world) (rid : str) (req : QueryRequest)
    (out : result exn response) (tr : trace) (sql : str) (exc : exn) :
  run (handle_query rid req) w = (out, tr) ->
  In (DBExecute sql) tr ->
  db_execute w sql = Raise exc ->
  out = Return (Failure (error_response rid sql
                 (py "Query execution failed: " ++ slice_to 200 (text exc))
                 MSG_EXECUTION_HINT)) /\
  List.length (slice_to 200 (text exc)) <= 200.
Proof.
  intros H Hin Hdb.
  destruct (handle_query_shape w rid req out tr H)
    as (intent & tr_gate & _ & Hne_gate & [[Hne _] | Hexec]).
  - now elim (Hne sql).
  - destruct Hexec as (rest & sn & content & sql0 & _ & _ & _ & _
                       & Hne_rest & _ & Hout & Htr).
    rewrite Htr in Hin. apply in_app_or in Hin as [Hin | Hin].
    + elim (no_exec_app _ _ Hne_gate Hne_rest sql Hin).
    + destruct Hin as [Heq | []]. injection Heq as ->.
      unfold executed in Hout. rewrite Hdb in Hout. simpl in Hout.
      split; [exact Hout|]. unfold slice_to. rewrite length_firstn. lia.
Qed.

(* ------------------------------------------------------------------ *)
(** ** Scenario C *)

(** C3, as stated, fails: the validator's verdict on the statement of
    scenario C is not MultipleStatements. *)
Lemma scenario_C_not_multiple_statements :
  validate (py "SELECT * FROM employees; DROP TABLE employees;")
  <> Some MultipleStatements.
Proof. vm_compute. discriminate. Qed.

(** C3, amended: the statement of scenario C is rejected with
    BlockedKeyword (the DROP pattern is met before the single-statement
    check), and when the generator returns it the executor is never called
    and the outcome is an error response. *)
Theorem scenario_C_blocked_keyword (w : world) (rid : str) (req : QueryRequest)
    (out : result exn response) (tr : trace) :
  (forall q sn h c,
     generator_content w q sn h c
     = Return (py "SELECT * FROM employees; DROP TABLE employees;")) ->
  run (handle_query rid req) w = (out, tr) ->
  validate (py "SELECT * FROM employees; DROP TABLE employees;") = Some BlockedKeyword /\
  no_exec tr /\
  exists er, out = Return (Failure er).
Proof.
  intros Hgen H. split; [vm_compute; reflexivity|].
  destruct (handle_query_shape w rid req out tr H)
    as (intent & tr_gate & _ & _ & [[Hne Hout] | Hexec]).
  - split; [exact Hne|].
    destruct Hout as [Hout | (sn & e & _ & _ & Hraise)]; [exact Hout|].
    rewrite Hgen in Hraise. discriminate Hraise.
  - destruct Hexec as (_ & sn & content & sql0 & _ & Hc & Hsql & Hval & _).
    rewrite Hgen in Hc. injection Hc as <-. subst sql0.
    vm_compute in Hval. discriminate Hval.
Qed.

(* ------------------------------------------------------------------ *)
(** ** The grounding step *)

Lemma scan_columns_names (rows : list column_row) (cols : list str)
    (details : list (str * str)) :
  fst (scan_columns rows cols details) = cols ++ map column_name rows.
Proof.
  revert cols details. induction rows as [|row rows IH]; intros cols details; simpl.
  - now rewrite app_nil_r.
  - rewrite IH, <- app_assoc. reflexivity.
Qed.

Lemma scan_tables_all (w : world) (tables : list str) (acc : list snippet) (tr : trace) :
  (forall t, In t tables -> exists rows, db_columns w t = Return rows) ->
  exists snippets tr',
    scan_tables tables acc w tr = (Return (acc ++ snippets), tr') /\
    Forall2 (describes w) tables snippets.
Proof.
  revert acc tr. induction tables as [|t tables IH]; intros acc tr Hok.
  - exists [], tr. rewrite app_nil_r. split; [reflexivity | constructor].
  - destruct (Hok t (or_introl eq_refl)) as [rows Hrows].
    cbn [scan_tables]. unfold bind at 1. unfold call. rewrite Hrows.
    pose proof (scan_columns_names rows [] []) as Hnames.
    destruct (scan_columns rows [] []) as [cols details]. simpl in Hnames.
    destruct (IH (acc ++ [mkSnippet t (py "Table: " ++ t) cols details [] 1%Q])
                (tr ++ [DBListColumns t])
                (fun t' Hin => Hok t' (or_intror Hin)))
      as (snippets & tr' & E & Hall).
    exists (mkSnippet t (py "Table: " ++ t) cols details [] 1%Q :: snippets), tr'.
    split.
    + rewrite E, <- app_assoc. reflexivity.
    + constructor; [|exact Hall]. split; [reflexivity|].
      exists rows. split; [exact Hrows | exact Hnames].
Qed.

Lemma describes_tables (w : world) (tables : list str) (snippets : list snippet) :
  Forall2 (describes w) tables snippets -> map table snippets = tables.
Proof.
  induction 1 as [|t sn ts sns Hd _ IH]; simpl; [reflexivity|].
  destruct Hd as [Hname _]. now rewrite Hname, IH.
Qed.

(** C8, as stated, fails: with six tables in the catalog the retriever,
    called with [top_k = 5], returns six descriptors. *)
Lemma retrieve_exceeds_top_k :
  ~ (forall (w : world) (q : str) (snippets : list snippet) (tr : trace),
       run (retrieve_relevant_schema q 5 (3 # 10)) w = (Return snippets, tr) ->
       List.length snippets <= 5).
Proof.
  intros H.
  specialize (H world_six_tables (py "Show me all employees") _ _ (surjective_pairing _)).
  vm_compute in H. lia.
Qed.

(** C8, amended: whenever the catalog queries succeed, the grounding step
    returns exactly one descriptor per catalog table, in catalog order,
    whatever [top_k] is; the number of descriptors handed on is the number
    of catalog tables. *)
Theorem retrieve_returns_every_table (w : world) (q : str) (top_k : nat) (ms : Q)
    (tables : list str) :
  db_tables w = Return tables ->
  (forall t, In t tables -> exists rows, db_columns w t = Return rows) ->
  exists snippets,
    fst (run (retrieve_relevant_schema q top_k ms) w) = Return snippets /\
    Forall2 (describes w) tables snippets /\
    map table snippets = tables /\
    List.length snippets = List.length tables.
Proof.
  intros Ht Hc. unfold run, retrieve_relevant_schema, bind, call. rewrite Ht.
  destruct (scan_tables_all w tables [] ([] ++ [DBListTables]) Hc)
    as (snippets & tr' & E & Hall).
  exists snippets. rewrite E. split; [reflexivity|]. split; [exact Hall|].
  pose proof (describes_tables w tables snippets Hall) as Hmap.
  split; [exact Hmap|]. rewrite <- (length_map table snippets). now rewrite Hmap.
Qed.

Lemma retrieve_returns_every_table_witness :
  exists snippets,
    fst (run (retrieve_relevant_schema (py "Show me all employees") 5 (3 # 10))
           world_six_tables) = Return snippets /\
    List.length snippets = 6.
Proof.
  destruct (retrieve_returns_every_table world_six_tables
              (py "Show me all employees") 5 (3 # 10)
              [py "attendance"; py "departments"; py "employees";
               py "inventory"; py "products"; py "sales"])
    as (snippets & Hrun & _ & _ & Hlen).
  - reflexivity.
  - intros t _. exists employees_columns. reflexivity.
  - exists snippets. split; [exact Hrun | exact Hlen].
Defined.

Lemma scenario_C_blocked_keyword_witness :
  validate (py "SELECT * FROM employees; DROP TABLE employees;") = Some BlockedKeyword /\
  no_exec (snd (run (handle_query "r1" request_employees)
                  (world_with (Return (py "no"))
                     (Return (py "SELECT * FROM employees; DROP TABLE employees;"))))).
Proof.
  destruct (scenario_C_blocked_keyword
              (world_with (Return (py "no"))
                 (Return (py "SELECT * FROM employees; DROP TABLE employees;")))
              (py "r1") request_employees _ _
              (fun _ _ _ _ => eq_refl) (surjective_pairing _))
    as (Hv & Hne & _).
  split; [exact Hv | exact Hne].
Defined.

(* ------------------------------------------------------------------ *)
(** ** The SQL agent *)

(** [_clean_sql] ends with [strip]: its result has no leading and no
    trailing whitespace. *)
Lemma clean_sql_trimmed (raw : str) :
  match _clean_sql raw with [] => True | c :: _ => isspace c = false end /\
  (forall a c, _clean_sql raw = a ++ [c] -> isspace c = false).
Proof.
  unfold _clean_sql. split; [apply strip_head | intros a c; apply strip_last].
Qed.

(** [generate_sql] raises [ValueError] exactly when the cleaned text is
    empty, and otherwise returns the cleaned text. *)
Lemma generate_sql_result (w : world) (q : str) (sn : list snippet) (content : str) :
  generator_content w q sn None None = Return content ->
  fst (run (generate_sql q sn None None) w)
  = if is_empty (_clean_sql (strip content))
    then Raise (ValueError MSG_GENERATION)
    else Return (_clean_sql (strip content)).
Proof.
  intros H. unfold run. rewrite generate_sql_run. simpl. unfold generated.
  now rewrite H.
Qed.

(** C10 fails on the last clause: for the generator text "SELECT 1; ;"
    [generate_sql] returns "SELECT 1;", which ends with a semicolon. *)
Theorem generate_sql_keeps_a_semicolon :
  _clean_sql (py "SELECT 1; ;") = py "SELECT 1;" /\
  fst (run (generate_sql (py "Show me all employees") [] None None)
         (world_with (Return (py "no")) (Return (py "SELECT 1; ;"))))
  = Return (py "SELECT 1;").
Proof. split; vm_compute; reflexivity. Qed.

(* ------------------------------------------------------------------ *)
(** ** The scenarios of the specification, evaluated *)

(** No pattern of the sources falls outside the modelled fragment. *)
Lemma source_patterns_compile :
  forallb (fun p => match expr p with Never => false | _ => true end)
    (_ALLOWED_START :: _DOMAIN_PATTERN :: FENCE_OPEN :: FENCE_CLOSE
       :: map fst _BLOCKED_PATTERNS) = true.
Proof. vm_compute. reflexivity. Qed.

(** Scenario A: the question is accepted on the keyword path, grounded,
    validated and executed. *)
Example scenario_A :
  exists r,
    run (handle_query "r1" request_employees)
        (world_with (Raise (mkExn "RuntimeError" false "unused"))
           (Return (py "SELECT name FROM employees LIMIT 500")))
    = (Return (Success r),
       [DBListTables; DBListColumns "employees";
        LLMGenerate "Show me all employees"
          [mkSnippet "employees" "Table: employees"
             [py "emp_id"; py "name"; py "status"]
             [(py "emp_id", py "integer NOT NULL"); (py "name", py "text NOT NULL");
              (py "status", py "text DEFAULT 'active'")] [] 1%Q];
        DBExecute "SELECT name FROM employees LIMIT 500"]) /\
    qr_row_count r = 2.
Proof. eexists. split; vm_compute; reflexivity. Qed.

(** Scenario B: no keyword matches, the classifier answers "no": the fixed
    rejection message, and neither the generator nor the executor is
    called. *)
Example scenario_B :
  run (handle_query "r1" request_weather)
      (world_with (Return (py "no")) (Return (py "SELECT 1")))
  = (Return (Failure (error_response "r1" "" REJECTION_MESSAGE MSG_REPHRASE_DOMAIN)),
     [LLMClassify "What's the weather today?"]).
Proof. vm_compute. reflexivity. Qed.

(** Scenario D: a line comment is rejected as CommentInjection. *)
Example scenario_D :
  validate "select dept_name from departments -- comment" = Some CommentInjection.
Proof. vm_compute. reflexivity. Qed.

(* ================================================================== *)
(** * Further properties of the validator *)

Section MoreRegexFacts.

Lemma star_ext (ic : bool) (A : Type) (a : atom)
    (k k' : option ascii -> str -> option A) :
  (forall p t, k p t = k' p t) ->
  forall prev s, star ic a prev s k = star ic a prev s k'.
Proof.
  intros Hk prev s. revert prev. induction s as [|c s IH]; intros prev; simpl.
  - apply Hk.
  - rewrite IH, Hk. reflexivity.
Qed.

Lemma rmatch_ext (ic : bool) (A : Type) (r : regex) :
  forall (k k' : option ascii -> str -> option A) prev s,
    (forall p t, k p t = k' p t) ->
    rmatch ic r prev s k = rmatch ic r prev s k'.
Proof.
  induction r; intros k k' prev s Hk; simpl; try reflexivity.
  - apply Hk.
  - destruct s as [|c s]; [reflexivity|]. now rewrite Hk.
  - apply IHr1. intros p t. now apply IHr2.
  - rewrite (IHr1 k k' prev s Hk), (IHr2 k k' prev s Hk). reflexivity.
  - rewrite (IHr k k' prev s Hk), Hk. reflexivity.
  - now apply star_ext.
  - now rewrite Hk.
  - destruct prev; [reflexivity | apply Hk].
  - destruct s as [|c [|d s]]; rewrite ?Hk; reflexivity.
Qed.

Lemma rmatch_mk_seq_app (ic : bool) (A : Type) (a b : list regex)
    (prev : option ascii) (s : str) (k : option ascii -> str -> option A) :
  rmatch ic (mk_seq (a ++ b)) prev s k =
  rmatch ic (mk_seq a) prev s (fun p t => rmatch ic (mk_seq b) p t k).
Proof.
  revert prev s k. induction a as [|r a IH]; intros prev s k; [reflexivity|].
  destruct a as [|r' a].
  - destruct b as [|r2 b]; reflexivity.
  - change (mk_seq ((r :: r' :: a) ++ b)) with (Seq r (mk_seq ((r' :: a) ++ b))).
    change (mk_seq (r :: r' :: a)) with (Seq r (mk_seq (r' :: a))).
    cbn [rmatch]. apply rmatch_ext. intros p t. apply IH.
Qed.

Lemma matches_here_lits (w : str) (prev : option ascii) (s : str) :
  matches_here true (lits w) prev s = startswith_ci w s.
Proof.
  unfold matches_here, match_here. rewrite rmatch_lits.
  now destruct (startswith_ci w s).
Qed.

(** Searching for a literal text, ignoring case, is a substring test on
    the lowered texts. *)
Lemma search_from_lits (w : str) (prev : option ascii) (s : str) :
  search_from true (lits w) prev s = contains (lower w) (lower s).
Proof.
  revert prev. induction s as [|c s IH]; intros prev.
  - simpl. rewrite matches_here_lits. reflexivity.
  - cbn [search_from]. rewrite matches_here_lits, IH. reflexivity.
Qed.

Lemma begins_with_keyword_word_after (w : str) (b : str) :
  w <> [] -> forallb isword w = true ->
  startswith_ci w b = true -> word_after b = true.
Proof.
  intros Hne Hw H. destruct w as [|l w]; [congruence|].
  destruct b as [|c b]; [discriminate H|].
  unfold startswith_ci in H. simpl in H, Hw.
  apply andb_true_iff in H as [H _]. apply andb_true_iff in Hw as [Hl _].
  simpl. now rewrite (ci_eq_isword _ _ H).
Qed.

Lemma matches_here_word (w : str) (p : option ascii) (b : str) :
  w <> [] -> forallb isword w = true ->
  matches_here true (word_regex w) p b
  = negb (word_before p) && begins_with_keyword w b.
Proof.
  intros Hne Hw.
  destruct (exists_last Hne) as (w' & l & ->).
  assert (Hl : isword l = true).
  { rewrite forallb_app in Hw. apply andb_true_iff in Hw as [_ Hw].
    simpl in Hw. now rewrite andb_true_r in Hw. }
  unfold matches_here, match_here, word_regex.
  change (mk_seq (WordB :: map (fun c => One (ALit c)) (w' ++ [l]) ++ [WordB]))
    with (mk_seq ([WordB] ++ (map (fun c => One (ALit c)) (w' ++ [l]) ++ [WordB]))).
  rewrite rmatch_mk_seq_app. cbn [mk_seq rmatch].
  rewrite rmatch_mk_seq_app. fold (lits (w' ++ [l])). cbn [mk_seq rmatch].
  rewrite (keyword_then_boundary w' l p b Hl).
  destruct (begins_with_keyword (w' ++ [l]) b) eqn:E.
  - assert (Ha : word_after b = true).
    { apply (begins_with_keyword_word_after (w' ++ [l])); auto.
      unfold begins_with_keyword in E. now apply andb_true_iff in E as [E _]. }
    rewrite Ha. destruct (word_before p); reflexivity.
  - rewrite andb_false_r. now destruct (xorb (word_before p) (word_after b)).
Qed.

Lemma matches_here_word_start (w : str) (p : option ascii) (b : str) :
  w <> [] -> forallb isword w = true ->
  matches_here true (word_start_regex w) p b
  = negb (word_before p) && startswith_ci w b.
Proof.
  intros Hne Hw. unfold matches_here, match_here, word_start_regex.
  change (mk_seq (WordB :: map (fun c => One (ALit c)) w))
    with (mk_seq ([WordB] ++ map (fun c => One (ALit c)) w)).
  rewrite rmatch_mk_seq_app. cbn [mk_seq rmatch]. fold (lits w).
  rewrite rmatch_lits.
  destruct (startswith_ci w b) eqn:E.
  - rewrite (begins_with_keyword_word_after w b Hne Hw E).
    destruct (word_before p); reflexivity.
  - rewrite andb_false_r. now destruct (xorb (word_before p) (word_after b)).
Qed.

Lemma search_from_word (w : str) (prev : option ascii) (s : str) :
  w <> [] -> forallb isword w = true ->
  search_from true (word_regex w) prev s = word_search w prev s.
Proof.
  intros Hne Hw. revert prev. induction s as [|c s IH]; intros prev.
  - simpl. now rewrite matches_here_word.
  - cbn [search_from word_search]. now rewrite matches_here_word, IH.
Qed.

Lemma search_from_word_start (w : str) (prev : option ascii) (s : str) :
  w <> [] -> forallb isword w = true ->
  search_from true (word_start_regex w) prev s = word_start_search w prev s.
Proof.
  intros Hne Hw. revert prev. induction s as [|c s IH]; intros prev.
  - simpl. now rewrite matches_here_word_start.
  - cbn [search_from word_start_search]. now rewrite matches_here_word_start, IH.
Qed.

End MoreRegexFacts.

Section OccurrenceFacts.

Lemma last_opt_snoc (prev : option ascii) (a : str) (c : ascii) :
  last_opt prev (a ++ [c]) = Some c.
Proof. unfold last_opt. now rewrite fold_left_app. Qed.

Lemma last_opt_nonempty (p q : option ascii) (x : str) :
  x <> [] -> last_opt p x = last_opt q x.
Proof.
  intros Hne. destruct (exists_last Hne) as (y & c & ->).
  now rewrite !last_opt_snoc.
Qed.

Lemma last_opt_app (p : option ascii) (a b : str) :
  last_opt p (a ++ b) = last_opt (last_opt p a) b.
Proof. unfold last_opt. apply fold_left_app. Qed.

Lemma lower_app (a b : str) : lower (a ++ b) = lower a ++ lower b.
Proof. apply map_app. Qed.

Lemma startswith_app (x t : str) : startswith x (x ++ t) = true.
Proof.
  induction x as [|c x IH]; [reflexivity|]. simpl.
  now rewrite Ascii.eqb_refl, IH.
Qed.

Lemma startswith_split (x s : str) :
  startswith x s = true <-> exists t, s = x ++ t.
Proof.
  split.
  - revert s. induction x as [|c x IH]; intros s H; [now exists s|].
    destruct s as [|d s]; [discriminate H|]. simpl in H.
    apply andb_true_iff in H as [Hc H]. apply Ascii.eqb_eq in Hc. subst d.
    destruct (IH s H) as [t ->]. now exists t.
  - intros [t ->]. apply startswith_app.
Qed.

Lemma contains_split (m s : str) :
  contains m s = true <-> exists a b, s = a ++ m ++ b.
Proof.
  split.
  - induction s as [|c s IH]; simpl; intros H.
    + rewrite orb_false_r in H. apply startswith_split in H as [t Ht].
      now exists [], t.
    + apply orb_true_iff in H as [H | H].
      * apply startswith_split in H as [t Ht]. now exists [], t.
      * destruct (IH H) as (a & b & ->). now exists (c :: a), b.
  - intros (a & b & ->). induction a as [|c a IH].
    + simpl. destruct (m ++ b) eqn:E; simpl; rewrite <- E, startswith_app; reflexivity.
    + simpl. rewrite IH. apply orb_true_r.
Qed.

Lemma startswith_ci_split (w b : str) :
  startswith_ci w b = true <-> exists m b', b = m ++ b' /\ lower m = lower w.
Proof.
  unfold startswith_ci. split.
  - intros H. apply startswith_split in H as [t Ht].
    exists (firstn (List.length w) b), (skipn (List.length w) b). split.
    + now rewrite firstn_skipn.
    + unfold lower in *. rewrite <- firstn_map, Ht.
      rewrite <- (length_map lower_char w) at 1.
      rewrite firstn_app, firstn_all, Nat.sub_diag. simpl. apply app_nil_r.
  - intros (m & b' & -> & Hm). rewrite lower_app, Hm. apply startswith_app.
Qed.

Lemma lower_length (a b : str) : lower a = lower b -> List.length a = List.length b.
Proof.
  intros H. apply (f_equal (@List.length ascii)) in H.
  unfold lower in H. now rewrite !length_map in H.
Qed.

Lemma begins_with_keyword_split (w b : str) :
  begins_with_keyword w b = true <->
  exists m b', b = m ++ b' /\ lower m = lower w /\ word_after b' = false.
Proof.
  unfold begins_with_keyword. rewrite andb_true_iff, negb_true_iff. split.
  - intros [H Ha]. pose proof H as H'.
    apply startswith_ci_split in H as (m & b' & -> & Hm).
    exists m, b'. split; [reflexivity|]. split; [exact Hm|].
    rewrite <- (lower_length _ _ Hm) in Ha.
    rewrite skipn_app, skipn_all, Nat.sub_diag in Ha. exact Ha.
  - intros (m & b' & -> & Hm & Ha). split.
    + apply startswith_ci_split. now exists m, b'.
    + rewrite <- (lower_length _ _ Hm).
      now rewrite skipn_app, skipn_all, Nat.sub_diag.
Qed.

Lemma word_search_split (w : str) (prev : option ascii) (s : str) :
  word_search w prev s = true <->
  exists a b, s = a ++ b /\ word_before (last_opt prev a) = false /\
              begins_with_keyword w b = true.
Proof.
  revert prev. induction s as [|c s IH]; intros prev; simpl.
  - rewrite orb_false_r, andb_true_iff, negb_true_iff. split.
    + intros [Hp Hb]. now exists [], [].
    + intros (a & b & Hs & Hp & Hb).
      symmetry in Hs. apply app_eq_nil in Hs as [-> ->]. auto.
  - rewrite orb_true_iff, andb_true_iff, negb_true_iff, IH. split.
    + intros [[Hp Hb] | (a & b & -> & Hp & Hb)].
      * now exists [], (c :: s).
      * now exists (c :: a), b.
    + intros (a & b & Hs & Hp & Hb). destruct a as [|d a].
      * left. simpl in Hs. subst b. auto.
      * right. injection Hs as <- ->. now exists a, b.
Qed.

Lemma word_start_search_split (w : str) (prev : option ascii) (s : str) :
  word_start_search w prev s = true <->
  exists a b, s = a ++ b /\ word_before (last_opt prev a) = false /\
              startswith_ci w b = true.
Proof.
  revert prev. induction s as [|c s IH]; intros prev; simpl.
  - rewrite orb_false_r, andb_true_iff, negb_true_iff. split.
    + intros [Hp Hb]. now exists [], [].
    + intros (a & b & Hs & Hp & Hb).
      symmetry in Hs. apply app_eq_nil in Hs as [-> ->]. auto.
  - rewrite orb_true_iff, andb_true_iff, negb_true_iff, IH. split.
    + intros [[Hp Hb] | (a & b & -> & Hp & Hb)].
      * now exists [], (c :: s).
      * now exists (c :: a), b.
    + intros (a & b & Hs & Hp & Hb). destruct a as [|d a].
      * left. simpl in Hs. subst b. auto.
      * right. injection Hs as <- ->. now exists a, b.
Qed.

(** The scan for a whole word finds exactly the occurrences the
    specification speaks of. *)
Lemma word_search_occurs (w s : str) :
  word_search w None s = true <-> occurs_as_word w s.
Proof.
  rewrite word_search_split. unfold occurs_as_word. split.
  - intros (a & b & -> & Hp & Hb).
    apply begins_with_keyword_split in Hb as (m & b' & -> & Hm & Ha).
    now exists a, m, b'.
  - intros (a & m & b & -> & Hm & Hp & Ha). exists a, (m ++ b).
    split; [reflexivity|]. split; [exact Hp|].
    apply begins_with_keyword_split. now exists m, b.
Qed.

Lemma word_start_search_occurs (w s : str) :
  word_start_search w None s = true <-> occurs_at_word_start w s.
Proof.
  rewrite word_start_search_split. unfold occurs_at_word_start. split.
  - intros (a & b & -> & Hp & Hb).
    apply startswith_ci_split in Hb as (m & b' & -> & Hm).
    now exists a, m, b'.
  - intros (a & m & b & -> & Hm & Hp). exists a, (m ++ b).
    split; [reflexivity|]. split; [exact Hp|].
    apply startswith_ci_split. now exists m, b.
Qed.

End OccurrenceFacts.

Section TrimmingFacts.

Lemma drop_while_split (p : ascii -> bool) (s : str) :
  exists pre, s = pre ++ drop_while p s /\ forallb p pre = true.
Proof.
  induction s as [|c s (pre & Hs & Hp)]; simpl.
  - now exists [].
  - destruct (p c) eqn:Hc.
    + exists (c :: pre). simpl. rewrite Hc, Hp. split; [now rewrite Hs at 1 | reflexivity].
    + now exists [].
Qed.

Lemma drop_while_app_stop (p : ascii -> bool) (a : str) (c : ascii) (r : str) :
  p c = false -> drop_while p (a ++ c :: r) = drop_while p a ++ c :: r.
Proof.
  intros Hc. induction a as [|x a IH]; simpl.
  - now rewrite Hc.
  - destruct (p x); [exact IH | reflexivity].
Qed.

(** The trimmed text sits inside the text, between two runs of
    whitespace. *)
Lemma strip_infix (s : str) :
  exists pre post, s = pre ++ strip s ++ post /\
                   forallb isspace pre = true /\ forallb isspace post = true.
Proof.
  destruct (drop_while_split isspace s) as (pre & Hs & Hpre).
  destruct (drop_while_end_split isspace (drop_while isspace s)) as (post & Ht & Hpost).
  exists pre, post. unfold strip, lstrip, rstrip.
  split; [|auto]. rewrite <- Ht. exact Hs.
Qed.

(** A stretch of non-space characters survives trimming where it is. *)
Lemma strip_around (a m b : str) :
  m <> [] ->
  (forall c, In c m -> isspace c = false) ->
  strip (a ++ m ++ b) = lstrip a ++ m ++ rstrip b.
Proof.
  intros Hne Hm. unfold strip, lstrip, rstrip.
  destruct (exists_last Hne) as (m' & l & ->).
  assert (Hl : isspace l = false).
  { apply Hm. apply in_or_app. right. now left. }
  assert (Hlstrip : drop_while isspace (a ++ (m' ++ [l]) ++ b)
                    = drop_while isspace a ++ (m' ++ [l]) ++ b).
  { destruct m' as [|c m'']; simpl app.
    - now apply drop_while_app_stop.
    - apply drop_while_app_stop. apply Hm. now left. }
  rewrite Hlstrip.
  replace (drop_while isspace a ++ (m' ++ [l]) ++ b)
    with ((drop_while isspace a ++ m') ++ l :: b)
    by (rewrite <- !app_assoc; reflexivity).
  rewrite (drop_while_end_app_keep isspace _ l b Hl).
  rewrite <- !app_assoc. reflexivity.
Qed.

Lemma forallb_isword_lower (s : str) : forallb isword (lower s) = forallb isword s.
Proof.
  induction s as [|c s IH]; [reflexivity|]. simpl. now rewrite isword_lower, IH.
Qed.

Lemma spelled_word_chars (w m : str) :
  forallb isword w = true -> lower m = lower w ->
  forall c, In c m -> isspace c = false.
Proof.
  intros Hw Hm c Hin. apply isword_not_space.
  assert (H : forallb isword m = true).
  { now rewrite <- forallb_isword_lower, Hm, forallb_isword_lower. }
  rewrite forallb_forall in H. now apply H.
Qed.

Lemma spelled_nonempty (w m : str) : w <> [] -> lower m = lower w -> m <> [].
Proof.
  intros Hne Hm ->. destruct w; [congruence | discriminate Hm].
Qed.

Lemma word_before_spaces (pre : str) :
  forallb isspace pre = true -> word_before (last_opt None pre) = false.
Proof.
  intros H. destruct pre as [|c pre]; [reflexivity|].
  assert (Hne : c :: pre <> []) by discriminate.
  destruct (exists_last Hne) as (y & l & Hy). rewrite Hy in *.
  rewrite last_opt_snoc. simpl.
  rewrite forallb_app in H. apply andb_true_iff in H as [_ H]. simpl in H.
  rewrite andb_true_r in H.
  destruct (isword l) eqn:E; [|reflexivity].
  apply isword_not_space in E. congruence.
Qed.

Lemma word_before_lstrip (a : str) :
  word_before (last_opt None (lstrip a)) = word_before (last_opt None a).
Proof.
  unfold lstrip. destruct (drop_while_split isspace a) as (pre & Ha & Hpre).
  remember (drop_while isspace a) as v eqn:Hv. clear Hv.
  destruct v as [|c t].
  - rewrite app_nil_r in Ha. subst a. simpl. symmetry. now apply word_before_spaces.
  - rewrite Ha. rewrite last_opt_app. reflexivity.
Qed.

Lemma word_after_rstrip (b : str) : word_after (rstrip b) = word_after b.
Proof.
  unfold rstrip. destruct (drop_while_end_split isspace b) as (tail & Hb & Ht).
  remember (drop_while_end isspace b) as v eqn:Hv. clear Hv. subst b.
  symmetry. now apply word_after_app_spaces.
Qed.

Lemma occurs_as_word_strip (w s : str) :
  w <> [] -> forallb isword w = true ->
  (occurs_as_word w (strip s) <-> occurs_as_word w s).
Proof.
  intros Hne Hw. split.
  - intros (a & m & b & Hs & Hm & Hp & Ha).
    destruct (strip_infix s) as (pre & post & Hsplit & Hpre & Hpost).
    exists (pre ++ a), m, (b ++ post). split.
    + rewrite Hsplit at 1. rewrite Hs, <- !app_assoc. reflexivity.
    + split; [exact Hm|]. split.
      * rewrite last_opt_app. destruct a as [|c a].
        -- simpl. now apply word_before_spaces.
        -- rewrite (last_opt_nonempty _ None); [exact Hp | discriminate].
      * now rewrite word_after_app_spaces.
  - intros (a & m & b & -> & Hm & Hp & Ha).
    exists (lstrip a), m, (rstrip b). split.
    + apply strip_around; [now apply (spelled_nonempty w)|].
      now apply (spelled_word_chars w).
    + split; [exact Hm|]. now rewrite word_before_lstrip, word_after_rstrip.
Qed.

Lemma occurs_at_word_start_strip (w s : str) :
  w <> [] -> forallb isword w = true ->
  (occurs_at_word_start w (strip s) <-> occurs_at_word_start w s).
Proof.
  intros Hne Hw. split.
  - intros (a & m & b & Hs & Hm & Hp).
    destruct (strip_infix s) as (pre & post & Hsplit & Hpre & Hpost).
    exists (pre ++ a), m, (b ++ post). split.
    + rewrite Hsplit at 1. rewrite Hs, <- !app_assoc. reflexivity.
    + split; [exact Hm|].
      rewrite last_opt_app. destruct a as [|c a].
      * simpl. now apply word_before_spaces.
      * rewrite (last_opt_nonempty _ None); [exact Hp | discriminate].
  - intros (a & m & b & -> & Hm & Hp).
    exists (lstrip a), m, (rstrip b). split.
    + apply strip_around; [now apply (spelled_nonempty w)|].
      now apply (spelled_word_chars w).
    + split; [exact Hm|]. now rewrite word_before_lstrip.
Qed.

Lemma contains_strip (m s : str) :
  m <> [] -> (forall c, In c m -> isspace c = false) ->
  contains m (strip s) = contains m s.
Proof.
  intros Hne Hm. apply eq_true_iff_eq. rewrite !contains_split. split.
  - intros (a & b & Hs).
    destruct (strip_infix s) as (pre & post & Hsplit & _).
    exists (pre ++ a), (b ++ post). rewrite Hsplit at 1.
    rewrite Hs, <- !app_assoc. reflexivity.
  - intros (a & b & ->). exists (lstrip a), (rstrip b).
    apply strip_around; auto.
Qed.

End TrimmingFacts.

Section BlockedPatternFacts.

Lemma blocked_patterns_split :
  _BLOCKED_PATTERNS =
  map verb_entry BLOCKED_VERBS ++
  [ (Pattern (lits "--") true, py "SQL comments (--) are not allowed");
    (Pattern (lits "/*") true, py "Block comments (/*) are not allowed");
    (Pattern (word_start_regex "pg_") true,
     py "Access to pg_ system catalogs is not allowed");
    (Pattern (word_regex "information_schema") true,
     py "Access to information_schema is not allowed") ].
Proof. reflexivity. Qed.

Lemma first_blocked_app (l1 l2 : list (pattern * str)) (t : str) :
  first_blocked (l1 ++ l2) t =
  match first_blocked l1 t with
  | Some m => Some m
  | None => first_blocked l2 t
  end.
Proof.
  induction l1 as [|[p m] l1 IH]; [reflexivity|]. simpl.
  destruct (re_search p t); [reflexivity | exact IH].
Qed.

Lemma re_search_word (w t : str) :
  w <> [] -> forallb isword w = true ->
  (re_search (Pattern (word_regex w) true) t = true <-> occurs_as_word w t).
Proof.
  intros Hne Hw. unfold re_search. cbn [expr ignorecase].
  rewrite (search_from_word w None t Hne Hw). apply word_search_occurs.
Qed.

Lemma re_search_word_start (w t : str) :
  w <> [] -> forallb isword w = true ->
  (re_search (Pattern (word_start_regex w) true) t = true <-> occurs_at_word_start w t).
Proof.
  intros Hne Hw. unfold re_search. cbn [expr ignorecase].
  rewrite (search_from_word_start w None t Hne Hw). apply word_start_search_occurs.
Qed.

(** Outside the letters, ignoring case changes nothing. *)
Lemma eqb_lower_nonword (l c : ascii) :
  isword l = false -> Ascii.eqb l (lower_char c) = Ascii.eqb l c.
Proof.
  intros Hl.
  destruct (Ascii.eqb l (lower_char c)) eqn:E1, (Ascii.eqb l c) eqn:E2; try reflexivity.
  - apply Ascii.eqb_eq in E1. subst l. rewrite isword_lower in Hl.
    apply Ascii.eqb_neq in E2.
    destruct c as [[] [] [] [] [] [] [] []]; try discriminate Hl; now elim E2.
  - apply Ascii.eqb_eq in E2. subst l. apply Ascii.eqb_neq in E1.
    destruct c as [[] [] [] [] [] [] [] []]; try discriminate Hl; now elim E1.
Qed.

Lemma startswith_lower_nonword (m s : str) :
  forallb (fun l => negb (isword l)) m = true ->
  startswith m (lower s) = startswith m s.
Proof.
  revert s. induction m as [|l m IH]; intros s Hm; [reflexivity|].
  simpl in Hm. apply andb_true_iff in Hm as [Hl Hm]. apply negb_true_iff in Hl.
  destruct s as [|c s]; [reflexivity|]. simpl.
  now rewrite (eqb_lower_nonword l c Hl), (IH s Hm).
Qed.

Lemma contains_lower_nonword (m s : str) :
  forallb (fun l => negb (isword l)) m = true ->
  contains m (lower s) = contains m s.
Proof.
  intros Hm. induction s as [|c s IH].
  - reflexivity.
  - change (lower (c :: s)) with (lower_char c :: lower s).
    cbn [contains]. rewrite IH.
    change (lower_char c :: lower s) with (lower (c :: s)).
    now rewrite (startswith_lower_nonword m (c :: s) Hm).
Qed.

Lemma re_search_dashes (t : str) :
  re_search (Pattern (lits "--") true) t = contains "--" t.
Proof.
  unfold re_search. cbn [expr ignorecase]. rewrite search_from_lits.
  change (lower (py "--")) with (py "--"). now apply contains_lower_nonword.
Qed.

Lemma re_search_block_comment (t : str) :
  re_search (Pattern (lits "/*") true) t = contains "/*" t.
Proof.
  unfold re_search. cbn [expr ignorecase]. rewrite search_from_lits.
  change (lower (py "/*")) with (py "/*"). now apply contains_lower_nonword.
Qed.

Lemma blocked_verbs_are_words :
  forall w, In w BLOCKED_VERBS -> w <> [] /\ forallb isword w = true.
Proof.
  intros w Hin. simpl in Hin.
  repeat (destruct Hin as [<- | Hin]; [split; [discriminate | reflexivity]|]).
  elim Hin.
Qed.

Lemma blocked_verbs_kind :
  forall w, In w BLOCKED_VERBS ->
            lookup_kind kind_table (snd (verb_entry w)) = Some BlockedKeyword.
Proof.
  intros w Hin. simpl in Hin.
  repeat (destruct Hin as [<- | Hin]; [reflexivity|]).
  elim Hin.
Qed.

(** The loop over the verb entries stops at a verb that occurs, and passes
    when none does. *)
Lemma first_blocked_verbs (verbs : list str) (t : str) :
  (forall w, In w verbs -> w <> [] /\ forallb isword w = true) ->
  match first_blocked (map verb_entry verbs) t with
  | Some m => exists w, In w verbs /\ occurs_as_word w t /\ m = snd (verb_entry w)
  | None => forall w, In w verbs -> ~ occurs_as_word w t
  end.
Proof.
  intros Hw. induction verbs as [|v verbs IH]; simpl.
  - intros w [].
  - destruct (Hw v (or_introl eq_refl)) as [Hne Hword].
    destruct (re_search (Pattern (word_regex v) true) t) eqn:E.
    + apply (re_search_word v t Hne Hword) in E. exists v. auto.
    + assert (IH' := IH (fun w Hin => Hw w (or_intror Hin))).
      destruct (first_blocked (map verb_entry verbs) t) as [m|].
      * destruct IH' as (w & Hin & Hocc & Hm). exists w. auto.
      * intros w [<- | Hin]; [|now apply IH'].
        intros Hocc. apply (re_search_word v t Hne Hword) in Hocc. congruence.
Qed.

(** The whole loop, in the words of the specification. *)
Lemma first_blocked_none (t : str) :
  first_blocked _BLOCKED_PATTERNS t = None <->
  (~ (exists verb, In verb BLOCKED_VERBS /\ occurs_as_word verb t)) /\
  contains "--" t = false /\ contains "/*" t = false /\
  ~ occurs_at_word_start "pg_" t /\ ~ occurs_as_word "information_schema" t.
Proof.
  rewrite blocked_patterns_split, first_blocked_app.
  pose proof (first_blocked_verbs BLOCKED_VERBS t blocked_verbs_are_words) as Hv.
  destruct (first_blocked (map verb_entry BLOCKED_VERBS) t) as [m|].
  - split; [discriminate|]. intros [Hno _]. elim Hno.
    destruct Hv as (w & Hin & Hocc & _). eauto.
  - cbn [first_blocked]. rewrite re_search_dashes, re_search_block_comment.
    pose proof (re_search_word_start (py "pg_") t) as Hpg.
    pose proof (re_search_word (py "information_schema") t) as Hinfo.
    destruct (contains "--" t); [split; [discriminate | intros (_ & H & _); discriminate H]|].
    destruct (contains "/*" t);
      [split; [discriminate | intros (_ & _ & H & _); discriminate H]|].
    destruct (re_search (Pattern (word_start_regex "pg_") true) t) eqn:Epg.
    { split; [discriminate|]. intros (_ & _ & _ & H & _). elim H.
      apply Hpg; [discriminate | reflexivity | reflexivity]. }
    destruct (re_search (Pattern (word_regex "information_schema") true) t) eqn:Einfo.
    { split; [discriminate|]. intros (_ & _ & _ & _ & H). elim H.
      apply Hinfo; [discriminate | reflexivity | reflexivity]. }
    split; [|reflexivity]. intros _.
    split; [intros (w & Hin & Hocc); now apply (Hv w)|].
    split; [reflexivity|]. split; [reflexivity|]. split.
    + intros H. apply Hpg in H; [congruence | discriminate | reflexivity].
    + intros H. apply Hinfo in H; [congruence | discriminate | reflexivity].
Qed.

End BlockedPatternFacts.

Section ParenthesesFacts.

Lemma paren_scan_step (d : Z) (c : ascii) (s : str) :
  paren_scan d (c :: s) =
  let d1 := (d + (if Ascii.eqb c "(" then 1 else if Ascii.eqb c ")" then -1 else 0))%Z in
  if (d1 <? 0)%Z then None else paren_scan d1 s.
Proof.
  cbn [paren_scan]. cbv zeta.
  destruct (Ascii.eqb c "("); [reflexivity|].
  destruct (Ascii.eqb c ")"); [reflexivity|].
  now rewrite Z.add_0_r.
Qed.

(** The scan of the source against the depth of every prefix. *)
Lemma paren_scan_spec (s : str) :
  forall d d', (0 <= d)%Z ->
    (paren_scan d s = Some d' <->
     d' = (d + paren_depth s)%Z /\ forall n, (0 <= d + paren_depth (firstn n s))%Z).
Proof.
  induction s as [|c s IH]; intros d d' Hd.
  - simpl. split.
    + intros H. injection H as <-. split; [lia|]. intros n. rewrite firstn_nil. simpl. lia.
    + intros [-> _]. f_equal. lia.
  - rewrite paren_scan_step. cbv zeta.
    set (delta := (if Ascii.eqb c "(" then 1 else if Ascii.eqb c ")" then -1 else 0)%Z).
    assert (Hdepth : forall t, paren_depth (c :: t) = (delta + paren_depth t)%Z)
      by reflexivity.
    destruct (d + delta <? 0)%Z eqn:E.
    + apply Z.ltb_lt in E. split; [discriminate|].
      intros [_ H]. specialize (H 1%nat).
      change (firstn 1 (c :: s)) with [c] in H. rewrite Hdepth in H.
      change (paren_depth []) with 0%Z in H. lia.
    + apply Z.ltb_ge in E. rewrite (IH (d + delta)%Z d' E). rewrite Hdepth. split.
      * intros [-> H]. split; [lia|]. intros [|n].
        -- simpl. lia.
        -- simpl firstn. rewrite Hdepth. specialize (H n). lia.
      * intros [-> H]. split; [lia|]. intros n.
        specialize (H (S n)). simpl firstn in H. rewrite Hdepth in H. lia.
Qed.

Lemma parens_balanced_well_nested (s : str) :
  parens_balanced s = true <-> well_nested s.
Proof.
  unfold parens_balanced, well_nested.
  destruct (paren_scan 0 s) as [d|] eqn:E.
  - apply (paren_scan_spec s 0 d (Z.le_refl 0)) in E as [Hd Hn].
    rewrite Z.eqb_eq. simpl in Hd, Hn. split.
    + intros ->. split; [lia | exact Hn].
    + intros [H0 _]. lia.
  - split; [discriminate|]. intros [H0 Hn].
    assert (H : paren_scan 0 s = Some 0%Z).
    { apply paren_scan_spec; [lia|]. split; [simpl; lia | exact Hn]. }
    congruence.
Qed.

Lemma space_not_paren (c : ascii) :
  isspace c = true -> Ascii.eqb c "(" = false /\ Ascii.eqb c ")" = false.
Proof.
  destruct c as [[] [] [] [] [] [] [] []]; intros H; try discriminate H; now split.
Qed.

Lemma paren_scan_app (a b : str) (d : Z) :
  paren_scan d (a ++ b) =
  match paren_scan d a with
  | Some d' => paren_scan d' b
  | None => None
  end.
Proof.
  revert d. induction a as [|c a IH]; intros d; [reflexivity|].
  simpl app. rewrite !paren_scan_step. cbv zeta.
  destruct (_ <? 0)%Z; [reflexivity | apply IH].
Qed.

Lemma paren_scan_spaces (t : str) (d : Z) :
  forallb isspace t = true -> (0 <= d)%Z -> paren_scan d t = Some d.
Proof.
  intros Ht Hd. induction t as [|c t IH]; [reflexivity|].
  simpl in Ht. apply andb_true_iff in Ht as [Hc Ht].
  destruct (space_not_paren c Hc) as [H1 H2].
  rewrite paren_scan_step, H1, H2. cbv zeta. rewrite Z.add_0_r.
  destruct (d <? 0)%Z eqn:E; [apply Z.ltb_lt in E; lia | now apply IH].
Qed.

Lemma paren_scan_nonneg (s : str) (d d' : Z) :
  (0 <= d)%Z -> paren_scan d s = Some d' -> (0 <= d')%Z.
Proof.
  intros Hd H. apply (paren_scan_spec s d d' Hd) in H as [-> Hn].
  specialize (Hn (List.length s)). now rewrite firstn_all in Hn.
Qed.

(** Whitespace around the text plays no part in the parentheses check. *)
Lemma parens_balanced_strip (s : str) :
  parens_balanced (strip s) = parens_balanced s.
Proof.
  destruct (strip_infix s) as (pre & post & Hs & Hpre & Hpost).
  unfold parens_balanced. rewrite Hs at 2.
  rewrite paren_scan_app, (paren_scan_spaces pre 0 Hpre (Z.le_refl 0)).
  rewrite paren_scan_app.
  destruct (paren_scan 0 (strip s)) as [d|] eqn:E; [|reflexivity].
  rewrite (paren_scan_spaces post d Hpost); [reflexivity|].
  now apply (paren_scan_nonneg (strip s) 0 d).
Qed.

End ParenthesesFacts.

(* ------------------------------------------------------------------ *)
(** ** The verdict of the validator, check by check *)

Section VerdictFacts.

Lemma nonempty_trimmed (s : str) :
  strip s <> [] -> is_empty s || is_empty (strip s) = false.
Proof.
  intros Hs. destruct s as [|c s]; [now elim Hs|]. simpl.
  destruct (strip (c :: s)); [now elim Hs | reflexivity].
Qed.

(** What [first_blocked] answers on the trimmed text, in terms of the
    text itself. *)
Lemma first_blocked_strip_none (s : str) :
  first_blocked _BLOCKED_PATTERNS (strip s) = None <->
  ~ blocked_verb_occurs s /\ ~ comment_occurs s /\ ~ catalog_probe_occurs s.
Proof.
  rewrite first_blocked_none.
  rewrite !contains_strip
    by (discriminate || (intros c [<- | [<- | []]]; reflexivity)).
  rewrite occurs_at_word_start_strip by (discriminate || reflexivity).
  rewrite (occurs_as_word_strip (py "information_schema"))
    by (discriminate || reflexivity).
  unfold blocked_verb_occurs, comment_occurs, catalog_probe_occurs.
  split.
  - intros (Hv & H1 & H2 & H3 & H4). split; [|split].
    + intros (w & Hin & Hocc). apply Hv. exists w. split; [exact Hin|].
      destruct (blocked_verbs_are_words w Hin) as [Hne Hw].
      now apply occurs_as_word_strip.
    + intros [H | H]; congruence.
    + intros [H | H]; auto.
  - intros (Hv & Hc & Hp). split; [|split; [|split; [|split]]].
    + intros (w & Hin & Hocc). apply Hv. exists w. split; [exact Hin|].
      destruct (blocked_verbs_are_words w Hin) as [Hne Hw].
      now apply (occurs_as_word_strip w s Hne Hw).
    + destruct (contains "--" s) eqn:E; [elim Hc; now left | reflexivity].
    + destruct (contains "/*" s) eqn:E; [elim Hc; now right | reflexivity].
    + intros H. apply Hp. now left.
    + intros H. apply Hp. now right.
Qed.

End VerdictFacts.

Section VerdictOrder.

(** Once the text is non-empty and starts with an allowed keyword, the
    verdict is the first of: a blocked pattern, the parentheses check, the
    single-statement check. *)
Lemma validate_after_start (s : str) :
  strip s <> [] -> leading_keyword s = true ->
  validate s =
  match first_blocked _BLOCKED_PATTERNS (strip s) with
  | Some m => lookup_kind kind_table m
  | None =>
      if parens_balanced (strip s)
      then if has_terminator (body_all_stripped s)
           then Some MultipleStatements else None
      else Some UnbalancedParentheses
  end.
Proof.
  intros Hs Hk. unfold validate, validate_sql.
  rewrite (nonempty_trimmed s Hs), allowed_start_is_leading_keyword, Hk.
  cbn [negb]. cbv iota.
  destruct (first_blocked _BLOCKED_PATTERNS (strip s)); [reflexivity|].
  destruct (parens_balanced (strip s)); [|reflexivity].
  cbn [negb]. cbv iota.
  unfold has_terminator, body_all_stripped.
  now destruct (contains ";" (strip (rstrip_chars ";" (strip s)))).
Qed.

Lemma first_blocked_groups (t : str) :
  first_blocked _BLOCKED_PATTERNS t =
  match first_blocked (map verb_entry BLOCKED_VERBS) t with
  | Some m => Some m
  | None =>
      if contains "--" t then Some (py "SQL comments (--) are not allowed")
      else if contains "/*" t then Some (py "Block comments (/*) are not allowed")
      else if word_start_search "pg_" None t
           then Some (py "Access to pg_ system catalogs is not allowed")
      else if word_search "information_schema" None t
           then Some (py "Access to information_schema is not allowed")
      else None
  end.
Proof.
  rewrite blocked_patterns_split, first_blocked_app.
  destruct (first_blocked (map verb_entry BLOCKED_VERBS) t); [reflexivity|].
  cbn [first_blocked]. rewrite re_search_dashes, re_search_block_comment.
  unfold re_search. cbn [expr ignorecase].
  rewrite search_from_word_start by (discriminate || reflexivity).
  rewrite search_from_word by (discriminate || reflexivity).
  reflexivity.
Qed.

Lemma no_verb_first_blocked (s : str) :
  ~ blocked_verb_occurs s ->
  first_blocked (map verb_entry BLOCKED_VERBS) (strip s) = None.
Proof.
  intros Hno.
  pose proof (first_blocked_verbs BLOCKED_VERBS (strip s) blocked_verbs_are_words) as Hv.
  destruct (first_blocked (map verb_entry BLOCKED_VERBS) (strip s)) as [m|];
    [|reflexivity].
  destruct Hv as (w & Hin & Hocc & _). elim Hno. exists w. split; [exact Hin|].
  destruct (blocked_verbs_are_words w Hin) as [Hne Hw].
  now apply (occurs_as_word_strip w s Hne Hw).
Qed.

(** The same, with the first check as the code evaluates it. *)
Lemma validate_after_allowed_start (s : str) :
  strip s <> [] -> re_match _ALLOWED_START (strip s) = true ->
  validate s =
  match first_blocked _BLOCKED_PATTERNS (strip s) with
  | Some m => lookup_kind kind_table m
  | None =>
      if parens_balanced (strip s)
      then if has_terminator (body_all_stripped s)
           then Some MultipleStatements else None
      else Some UnbalancedParentheses
  end.
Proof.
  intros Hs Hk. apply validate_after_start; [exact Hs|].
  now rewrite <- allowed_start_is_leading_keyword.
Qed.

Lemma blocked_patterns_parts :
  _BLOCKED_PATTERNS = VERB_PATTERNS ++ COMMENT_PATTERNS ++ CATALOG_PATTERNS.
Proof. reflexivity. Qed.

Lemma comment_patterns_fire (t : str) :
  first_blocked COMMENT_PATTERNS t =
  if contains "--" t then Some (py "SQL comments (--) are not allowed")
  else if contains "/*" t then Some (py "Block comments (/*) are not allowed")
  else None.
Proof.
  change COMMENT_PATTERNS
    with [ (Pattern (lits "--") true, py "SQL comments (--) are not allowed");
           (Pattern (lits "/*") true, py "Block comments (/*) are not allowed") ].
  cbn [first_blocked]. now rewrite re_search_dashes, re_search_block_comment.
Qed.

Lemma catalog_patterns_fire (t : str) :
  first_blocked CATALOG_PATTERNS t =
  if word_start_search "pg_" None t
  then Some (py "Access to pg_ system catalogs is not allowed")
  else if word_search "information_schema" None t
       then Some (py "Access to information_schema is not allowed")
       else None.
Proof.
  change CATALOG_PATTERNS
    with [ (Pattern (word_start_regex "pg_") true,
            py "Access to pg_ system catalogs is not allowed");
           (Pattern (word_regex "information_schema") true,
            py "Access to information_schema is not allowed") ].
  cbn [first_blocked]. unfold re_search. cbn [expr ignorecase].
  rewrite search_from_word_start by (discriminate || reflexivity).
  rewrite search_from_word by (discriminate || reflexivity).
  reflexivity.
Qed.

End VerdictOrder.

(** X1: whitespace before and after the statement never changes the
    verdict: [validate] answers the same on a text and on its trimmed
    form. *)
Theorem validate_ignores_outer_whitespace (s : str) :
  validate s = validate (strip s).
Proof.
  unfold validate, validate_sql. rewrite strip_idem.
  assert (He : is_empty s || is_empty (strip s)
               = is_empty (strip s) || is_empty (strip s)).
  { destruct s as [|c s]; [reflexivity|]. simpl.
    now destruct (strip (c :: s)). }
  rewrite He.
  destruct (is_empty (strip s) || is_empty (strip s)); [reflexivity|].
  destruct (negb (re_match _ALLOWED_START (strip s))); [reflexivity|].
  destruct (first_blocked _BLOCKED_PATTERNS (strip s)); [reflexivity|].
  destruct (negb (parens_balanced (strip s))); [reflexivity|].
  destruct (contains ";" (strip (rstrip_chars ";" (strip s)))); reflexivity.
Qed.

(** X2: a statement that starts with SELECT or WITH and contains one of
    the eleven mutating or DDL verbs as a whole word, in any letter case
    and anywhere in the text (a subquery included), is rejected with
    BlockedKeyword. *)
Theorem blocked_verb_rejected (s : str) :
  strip s <> [] -> leading_keyword s = true ->
  blocked_verb_occurs s ->
  validate s = Some BlockedKeyword.
Proof.
  intros Hs Hk (w & Hin & Hocc).
  rewrite (validate_after_start s Hs Hk), first_blocked_groups.
  destruct (blocked_verbs_are_words w Hin) as [Hne Hw].
  apply (occurs_as_word_strip w s Hne Hw) in Hocc.
  pose proof (first_blocked_verbs BLOCKED_VERBS (strip s) blocked_verbs_are_words) as Hv.
  destruct (first_blocked (map verb_entry BLOCKED_VERBS) (strip s)) as [m|].
  - destruct Hv as (w' & Hin' & _ & ->). now apply blocked_verbs_kind.
  - now elim (Hv w Hin).
Qed.

Lemma blocked_verb_rejected_witness :
  validate (py "select id from (Delete from employees returning id) t")
  = Some BlockedKeyword.
Proof.
  apply blocked_verb_rejected.
  - vm_compute. discriminate.
  - vm_compute. reflexivity.
  - exists (py "DELETE"). split; [simpl; tauto|].
    exists (py "select id from ("), (py "Delete"), (py " from employees returning id) t").
    repeat split; vm_compute; reflexivity.
Defined.

(** X3: a statement that passes the leading-keyword check, on which none
    of the eleven verb patterns fires, and that contains the line-comment
    sequence or the opening of a block comment anywhere (inside a quoted
    literal too) is rejected with CommentInjection, whatever else it
    contains. *)
Theorem comment_rejected (s : str) :
  strip s <> [] -> re_match _ALLOWED_START (strip s) = true ->
  no_pattern_fires VERB_PATTERNS s ->
  comment_occurs s ->
  validate s = Some CommentInjection.
Proof.
  intros Hs Hk Hv Hc. unfold no_pattern_fires in Hv.
  rewrite (validate_after_allowed_start s Hs Hk).
  rewrite blocked_patterns_parts, first_blocked_app, Hv.
  rewrite first_blocked_app, comment_patterns_fire.
  rewrite !contains_strip
    by (discriminate || (intros c [<- | [<- | []]]; reflexivity)).
  destruct Hc as [Hc | Hc]; rewrite Hc; [reflexivity|].
  now destruct (contains "--" s).
Qed.

Lemma comment_rejected_witness :
  validate (py "SELECT name FROM pg_user /* hidden */") = Some CommentInjection.
Proof.
  apply comment_rejected.
  - vm_compute. discriminate.
  - vm_compute. reflexivity.
  - vm_compute. reflexivity.
  - right. vm_compute. reflexivity.
Defined.

(** X4: a statement that passes the leading-keyword check, on which
    neither a verb pattern nor a comment pattern fires, and that names a
    catalog (a word starting with pg_, or the word information_schema, in
    any letter case) is rejected with CatalogProbe. *)
Theorem catalog_probe_rejected (s : str) :
  strip s <> [] -> re_match _ALLOWED_START (strip s) = true ->
  no_pattern_fires VERB_PATTERNS s -> no_pattern_fires COMMENT_PATTERNS s ->
  catalog_probe_occurs s ->
  validate s = Some CatalogProbe.
Proof.
  intros Hs Hk Hv Hc Hp. unfold no_pattern_fires in Hv, Hc.
  rewrite (validate_after_allowed_start s Hs Hk).
  rewrite blocked_patterns_parts, first_blocked_app, Hv.
  rewrite first_blocked_app, Hc, catalog_patterns_fire.
  destruct (word_start_search "pg_" None (strip s)) eqn:Epg; [reflexivity|].
  destruct Hp as [Hp | Hp].
  - apply (occurs_at_word_start_strip (py "pg_") s) in Hp;
      [|discriminate | reflexivity].
    apply word_start_search_occurs in Hp. congruence.
  - apply (occurs_as_word_strip (py "information_schema") s) in Hp;
      [|discriminate | reflexivity].
    apply word_search_occurs in Hp. now rewrite Hp.
Qed.

Lemma catalog_probe_rejected_witness :
  validate (py "SELECT table_name FROM Information_Schema.tables")
  = Some CatalogProbe.
Proof.
  apply catalog_probe_rejected.
  - vm_compute. discriminate.
  - vm_compute. reflexivity.
  - vm_compute. reflexivity.
  - vm_compute. reflexivity.
  - right. apply word_search_occurs. vm_compute. reflexivity.
Defined.



(** X6: what the validator accepts is clean: whenever [validate_sql]
    returns, the trimmed text is non-empty and passes the leading-keyword
    check, no blocked verb occurs in the text as a whole word in any
    letter case, no comment sequence and no catalog name occurs in it, its
    parentheses are well nested, and no terminator is followed by anything
    but terminators. *)
Theorem accepted_statement_is_clean (s r : str) :
  validate_sql s = Return r ->
  strip s <> [] /\ re_match _ALLOWED_START (strip s) = true /\
  ~ blocked_verb_occurs s /\ ~ comment_occurs s /\ ~ catalog_probe_occurs s /\
  well_nested s /\ ~ second_statement_occurs s.
Proof.
  unfold second_statement_occurs.
  rewrite <- has_terminator_body_all, <- parens_balanced_well_nested,
    <- parens_balanced_strip.
  unfold has_terminator, body_all_stripped.
  intros H. unfold validate_sql in H.
  destruct (is_empty s || is_empty (strip s)) eqn:E0; [discriminate H|].
  destruct (re_match _ALLOWED_START (strip s)) eqn:E1; [|discriminate H].
  destruct (first_blocked _BLOCKED_PATTERNS (strip s)) eqn:E2; [discriminate H|].
  destruct (parens_balanced (strip s)) eqn:E3; [|discriminate H].
  destruct (contains ";" (strip (rstrip_chars ";" (strip s)))) eqn:E4;
    [discriminate H|].
  apply first_blocked_strip_none in E2 as (Hv & Hc & Hp).
  apply orb_false_iff in E0 as [_ E0].
  repeat split; auto; try discriminate.
  intros Hs. now rewrite Hs in E0.
Qed.

Lemma accepted_statement_is_clean_witness :
  strip (py "SELECT name FROM employees WHERE dept_id IN (1, 2);") <> [] /\
  re_match _ALLOWED_START
    (strip (py "SELECT name FROM employees WHERE dept_id IN (1, 2);")) = true /\
  ~ blocked_verb_occurs (py "SELECT name FROM employees WHERE dept_id IN (1, 2);") /\
  ~ comment_occurs (py "SELECT name FROM employees WHERE dept_id IN (1, 2);") /\
  ~ catalog_probe_occurs (py "SELECT name FROM employees WHERE dept_id IN (1, 2);") /\
  well_nested (py "SELECT name FROM employees WHERE dept_id IN (1, 2);") /\
  ~ second_statement_occurs (py "SELECT name FROM employees WHERE dept_id IN (1, 2);").
Proof.
  apply (accepted_statement_is_clean
           (py "SELECT name FROM employees WHERE dept_id IN (1, 2);")
           (py "SELECT name FROM employees WHERE dept_id IN (1, 2);")).
  vm_compute. reflexivity.
Defined.

(* ================================================================== *)
(** * Further properties of the gate and of the orchestrator *)

Section FrameFacts.

(** The calls a stage makes do not depend on the calls made before it. *)
Lemma check_intent_frame (q : str) (w : world) (tr : trace) :
  check_intent q w tr
  = (fst (run (check_intent q) w), tr ++ snd (run (check_intent q) w)).
Proof.
  unfold run. destruct (re_search _DOMAIN_PATTERN q) eqn:E.
  - rewrite !check_intent_keyword by exact E. simpl. now rewrite app_nil_r.
  - rewrite !check_intent_escalate by exact E. reflexivity.
Qed.

Lemma scan_tables_frame (tables : list str) (acc : list snippet) (w : world) (tr : trace) :
  scan_tables tables acc w tr
  = (fst (scan_tables tables acc w []), tr ++ snd (scan_tables tables acc w [])).
Proof.
  revert acc tr. induction tables as [|t tables IH]; intros acc tr.
  - simpl. unfold ret. simpl. now rewrite app_nil_r.
  - cbn [scan_tables]. unfold bind, call.
    destruct (db_columns w t) as [rows | e]; [|reflexivity].
    destruct (scan_columns rows [] []) as [cols details].
    rewrite (IH _ (tr ++ [DBListColumns t])), (IH _ ([] ++ [DBListColumns t])).
    simpl. now rewrite <- app_assoc.
Qed.

Lemma retrieve_frame (q : str) (top_k : nat) (ms : Q) (w : world) (tr : trace) :
  retrieve_relevant_schema q top_k ms w tr
  = (fst (run (retrieve_relevant_schema q top_k ms) w),
     tr ++ snd (run (retrieve_relevant_schema q top_k ms) w)).
Proof.
  unfold run, retrieve_relevant_schema, bind, call.
  destruct (db_tables w) as [tables | e]; [|reflexivity].
  rewrite (scan_tables_frame tables [] w (tr ++ [DBListTables])),
          (scan_tables_frame tables [] w ([] ++ [DBListTables])).
  simpl. now rewrite <- app_assoc.
Qed.

Lemma check_intent_returns (q : str) (w : world) :
  exists intent, fst (run (check_intent q) w) = Return intent.
Proof.
  destruct (check_intent_run q w []) as (intent & ext & _ & _ & Hrun).
  exists intent. now rewrite Hrun.
Qed.

End FrameFacts.

Section OrchestratorRun.

(** The run of [handle_query], stage by stage. *)
Lemma handle_query_run (w : world) (rid : str) (req : QueryRequest) :
  run (handle_query rid req) w =
  let q := strip (query req) in
  let gate := run (check_intent q) w in
  let sch := run (retrieve_relevant_schema q 5 (3 # 10)) w in
  match fst gate with
  | Raise e => (Raise e, snd gate)
  | Return intent =>
      if is_in_domain intent then
        match fst sch with
        | Raise e =>
            (Return (Failure (error_response rid ""
                       (py "Schema retrieval error: " ++ type_name e ++ py ": "
                          ++ slice_to 200 (text e)) "")),
             snd gate ++ snd sch)
        | Return [] =>
            (Return (Failure (error_response rid "" MSG_NO_TABLES MSG_TRY_TOPICS)),
             snd gate ++ snd sch)
        | Return (s0 :: sn) =>
            match generated w q (s0 :: sn) None None with
            | Raise e =>
                (if is_value_error e
                 then Return (Failure (error_response rid ""
                                MSG_GENERATION_FAILED MSG_BE_SPECIFIC))
                 else Raise e,
                 snd gate ++ snd sch ++ [LLMGenerate q (s0 :: sn)])
            | Return sql =>
                match validate_sql sql with
                | Raise exc =>
                    (Return (Failure (error_response rid sql
                               (py "Generated SQL failed safety checks: "
                                  ++ message exc) "")),
                     snd gate ++ snd sch ++ [LLMGenerate q (s0 :: sn)])
                | Return _ =>
                    (Return (after_execution rid sql (executed w sql)),
                     snd gate ++ snd sch
                       ++ [LLMGenerate q (s0 :: sn); DBExecute sql])
                end
            end
        end
      else
        (Return (Failure (error_response rid ""
                   match rejection_message intent with
                   | Some m => if is_empty m then MSG_NOT_RELATED else m
                   | None => MSG_NOT_RELATED
                   end MSG_REPHRASE_DOMAIN)),
         snd gate)
  end.
Proof.
  cbv zeta. set (q := strip (query req)).
  unfold run at 1. unfold handle_query. fold q. unfold bind at 1.
  rewrite (surjective_pairing (check_intent q w [])).
  change (check_intent q w []) with (run (check_intent q) w).
  destruct (fst (run (check_intent q) w)) as [intent | e]; [|reflexivity].
  destruct (is_in_domain intent); cbn [negb]; cbv beta iota; [|reflexivity].
  unfold bind at 1. unfold try_except at 1. cbv beta.
  rewrite retrieve_frame.
  destruct (fst (run (retrieve_relevant_schema q 5 (3 # 10)) w))
    as [[|s0 sn] | e]; try reflexivity.
  cbv beta iota. unfold bind at 1. unfold try_except_ValueError at 1. cbv beta.
  rewrite generate_sql_run.
  destruct (generated w q (s0 :: sn) None None) as [sql | e].
  - destruct (validate_sql sql) as [v | exc].
    + unfold bind, try_except. rewrite execute_run. unfold after_execution, ret.
      rewrite <- !app_assoc.
      now destruct (executed w sql).
    + unfold ret. now rewrite <- !app_assoc.
  - destruct (is_value_error e); unfold ret; now rewrite <- !app_assoc.
Qed.

End OrchestratorRun.

Section ShapeFacts.

Lemma gate_trace_shape (q : str) (w : world) :
  gate_calls q (snd (run (check_intent q) w)).
Proof.
  unfold run, gate_calls. destruct (re_search _DOMAIN_PATTERN q) eqn:E.
  - rewrite check_intent_keyword by exact E. now left.
  - rewrite check_intent_escalate by exact E. now right.
Qed.

Lemma scan_tables_trace_shape (tables : list str) (acc : list snippet) (w : world) :
  exists reached, snd (scan_tables tables acc w []) = map DBListColumns reached.
Proof.
  revert acc. induction tables as [|t tables IH]; intros acc.
  - now exists [].
  - cbn [scan_tables]. unfold bind, call.
    destruct (db_columns w t) as [rows | e].
    + destruct (scan_columns rows [] []) as [cols details].
      rewrite scan_tables_frame. cbn [snd].
      destruct (IH (acc ++ [mkSnippet t (py "Table: " ++ t) cols details [] 1%Q]))
        as [reached Hr].
      rewrite Hr. now exists (t :: reached).
    + now exists [t].
Qed.

(** The columns queries of the loop over the listed tables. *)
Lemma scan_tables_calls (w : world) (tables : list str) :
  forall acc,
    snd (scan_tables tables acc w []) = map DBListColumns (reached_tables w tables) /\
    (forall sn, fst (scan_tables tables acc w []) = Return sn ->
                reached_tables w tables = tables).
Proof.
  induction tables as [|t tables IH]; intros acc.
  - split; reflexivity.
  - cbn [scan_tables reached_tables]. unfold bind, call.
    destruct (db_columns w t) as [rows | e].
    + destruct (scan_columns rows [] []) as [cols details].
      rewrite scan_tables_frame. cbn [fst snd].
      destruct (IH (acc ++ [mkSnippet t (py "Table: " ++ t) cols details [] 1%Q]))
        as [Htr Hall].
      rewrite Htr. split; [reflexivity|].
      intros sn Hsn. now rewrite (Hall sn Hsn).
    + split; [reflexivity|]. intros sn Hsn. discriminate Hsn.
Qed.

(** The calls of [retrieve_relevant_schema]; when it returns, every listed
    table was queried. *)
Lemma retrieve_calls (q : str) (top_k : nat) (ms : Q) (w : world) :
  snd (run (retrieve_relevant_schema q top_k ms) w) = catalog_calls w /\
  (forall sn, fst (run (retrieve_relevant_schema q top_k ms) w) = Return sn ->
     exists tables, db_tables w = Return tables /\
                    catalog_calls w = DBListTables :: map DBListColumns tables).
Proof.
  unfold run, retrieve_relevant_schema, bind, call, catalog_calls.
  destruct (db_tables w) as [tables | e].
  - rewrite scan_tables_frame. cbn [fst snd].
    destruct (scan_tables_calls w tables []) as [Htr Hall].
    rewrite Htr. split; [reflexivity|].
    intros sn Hsn. exists tables. split; [reflexivity|].
    now rewrite (Hall sn Hsn).
  - split; [reflexivity|]. intros sn Hsn. discriminate Hsn.
Qed.

Lemma plain_keywords_are_literal :
  Forall (fun kw => plain_keyword kw = true -> expr (compile kw true) = lits kw)
         _DOMAIN_KEYWORDS.
Proof.
  unfold _DOMAIN_KEYWORDS.
  repeat (constructor; [intros H; (reflexivity || (vm_compute in H; discriminate H))|]).
  constructor.
Qed.

End ShapeFacts.

(** X7: [check_intent] always returns and never raises; it accepts exactly
    when a domain keyword matches or the classifier's trimmed, lowered
    reply begins with "yes"; the rejection message is absent on
    acceptance and is the fixed message on rejection; and it calls the
    classifier at most once. *)
Theorem check_intent_verdict (question : str) (w : world) :
  exists intent tr,
    run (check_intent question) w = (Return intent, tr) /\
    (is_in_domain intent = true <->
     some_domain_keyword_matches question = true \/
     exists reply, classifier_content w question = Return reply /\
                   startswith "yes" (lower (strip reply)) = true) /\
    (intent = accepted \/ intent = rejected) /\
    (is_in_domain intent = true <-> rejection_message intent = None) /\
    gate_calls question tr.
Proof.
  unfold run, gate_calls. rewrite <- domain_pattern_search.
  destruct (re_search _DOMAIN_PATTERN question) eqn:E.
  - rewrite check_intent_keyword by exact E.
    exists accepted, []. repeat split; auto.
  - rewrite check_intent_escalate by exact E.
    exists (escalation_verdict w question), [LLMClassify question].
    split; [reflexivity|]. unfold escalation_verdict.
    destruct (classifier_content w question) as [content | e].
    + rewrite strip_idem.
      destruct (startswith "yes" (lower (strip content))) eqn:Ey.
      * repeat split; auto. intros _. right. exists content. auto.
      * repeat split; auto; try discriminate.
        intros [H | (reply & Hr & Hy)]; [discriminate H|].
        injection Hr as <-. congruence.
    + repeat split; auto; try discriminate.
      intros [H | (reply & Hr & _)]; discriminate.
Qed.

(** X8: the keyword scan is a substring test that ignores case, not a
    word test: when a keyword written without regex operators occurs
    anywhere inside the question, even inside a longer word,
    [check_intent] accepts without calling the classifier. *)
Theorem keyword_scan_is_substring (kw question : str) (w : world) :
  In kw _DOMAIN_KEYWORDS -> plain_keyword kw = true ->
  contains (lower kw) (lower question) = true ->
  run (check_intent question) w = (Return accepted, []).
Proof.
  intros Hin Hplain Hc. unfold run. apply check_intent_keyword.
  rewrite domain_pattern_search. unfold some_domain_keyword_matches.
  apply existsb_exists. exists kw. split; [exact Hin|].
  unfold re_search. rewrite ignorecase_compile.
  pose proof plain_keywords_are_literal as Hlit.
  rewrite Forall_forall in Hlit. rewrite (Hlit kw Hin Hplain).
  now rewrite search_from_lits.
Qed.

Lemma keyword_scan_is_substring_witness :
  run (check_intent (py "Is my STOPWATCH broken?"))
      (world_with (Return (py "no")) (Return (py "SELECT 1")))
  = (Return accepted, []).
Proof.
  apply (keyword_scan_is_substring (py "top")).
  - unfold _DOMAIN_KEYWORDS.
    repeat match goal with |- In _ (_ :: _) => first [left; reflexivity | right] end.
  - reflexivity.
  - vm_compute. reflexivity.
Defined.

(** X9: when the gate rejects the question, [handle_query] answers an
    error response carrying the fixed rejection message, and the only call
    it has made is the gate's: no catalog query, no generator call, no
    executor call. *)
Theorem rejected_question_stops_pipeline (w : world) (rid : str) (req : QueryRequest) :
  fst (run (check_intent (strip (query req))) w) = Return rejected ->
  run (handle_query rid req) w
  = (Return (Failure (error_response rid "" REJECTION_MESSAGE MSG_REPHRASE_DOMAIN)),
     snd (run (check_intent (strip (query req))) w)) /\
  gate_calls (strip (query req)) (snd (run (handle_query rid req) w)).
Proof.
  intros H. rewrite handle_query_run. cbv zeta. rewrite H. simpl.
  split; [reflexivity | apply gate_trace_shape].
Qed.

Lemma rejected_question_stops_pipeline_witness :
  run (handle_query "r1" request_weather)
      (world_with (Return (py "No.")) (Return (py "SELECT 1")))
  = (Return (Failure (error_response "r1" "" REJECTION_MESSAGE MSG_REPHRASE_DOMAIN)),
     [LLMClassify "What's the weather today?"]).
Proof.
  refine (eq_trans (proj1 (rejected_question_stops_pipeline
                             (world_with (Return (py "No.")) (Return (py "SELECT 1")))
                             (py "r1") request_weather _)) _);
    vm_compute; reflexivity.
Defined.

(** X10: when the gate accepts and the catalog lists no table,
    [handle_query] answers the "no relevant tables" error response after
    the table listing alone; the generator and the executor are not
    called. *)
Theorem empty_catalog_stops_before_generator (w : world) (rid : str) (req : QueryRequest) :
  fst (run (check_intent (strip (query req))) w) = Return accepted ->
  db_tables w = Return [] ->
  run (handle_query rid req) w
  = (Return (Failure (error_response rid "" MSG_NO_TABLES MSG_TRY_TOPICS)),
     snd (run (check_intent (strip (query req))) w) ++ [DBListTables]).
Proof.
  intros Hg Ht. rewrite handle_query_run. cbv zeta. rewrite Hg. simpl.
  unfold run at 1 3. unfold retrieve_relevant_schema, bind, call. rewrite Ht.
  reflexivity.
Qed.

Lemma empty_catalog_stops_before_generator_witness :
  run (handle_query "r1" request_employees)
      (mkWorld (fun _ => Return (py "yes")) (fun _ _ _ _ => Return (py "SELECT 1"))
               (Return []) (fun _ => Return [])
               (fun _ => Return (mkDbRows [] [] 0%Q)))
  = (Return (Failure (error_response "r1" "" MSG_NO_TABLES MSG_TRY_TOPICS)),
     [DBListTables]).
Proof.
  refine (eq_trans (empty_catalog_stops_before_generator _ (py "r1")
                      request_employees _ _) _);
    vm_compute; reflexivity.
Defined.

(** X11: when the gate accepts and the catalog query raises,
    [handle_query] answers an error response whose message is
    "Schema retrieval error: ", the exception's class name, ": " and at
    most the first 200 characters of its text; the calls made are the
    gate's and the catalog's only. *)
Theorem schema_failure_reported (w : world) (rid : str) (req : QueryRequest) (e : exn) :
  fst (run (check_intent (strip (query req))) w) = Return accepted ->
  fst (run (retrieve_relevant_schema (strip (query req)) 5 (3 # 10)) w) = Raise e ->
  run (handle_query rid req) w
  = (Return (Failure (error_response rid ""
               (py "Schema retrieval error: " ++ type_name e ++ py ": "
                  ++ slice_to 200 (text e)) "")),
     snd (run (check_intent (strip (query req))) w)
       ++ snd (run (retrieve_relevant_schema (strip (query req)) 5 (3 # 10)) w)) /\
  List.length (slice_to 200 (text e)) <= 200.
Proof.
  intros Hg Hs. rewrite handle_query_run. cbv zeta. rewrite Hg, Hs.
  split; [reflexivity|]. unfold slice_to. rewrite length_firstn. lia.
Qed.

Lemma schema_failure_reported_witness :
  fst (run (handle_query "r1" request_employees)
         (mkWorld (fun _ => Return (py "yes")) (fun _ _ _ _ => Return (py "SELECT 1"))
                  (Raise (mkExn "OperationalError" false "connection refused"))
                  (fun _ => Return [])
                  (fun _ => Return (mkDbRows [] [] 0%Q))))
  = Return (Failure (error_response "r1" ""
              "Schema retrieval error: OperationalError: connection refused" "")).
Proof.
  refine (eq_trans (f_equal fst (proj1 (schema_failure_reported _ (py "r1")
                      request_employees
                      (mkExn "OperationalError" false "connection refused") _ _))) _);
    vm_compute; reflexivity.
Defined.

(** X12: when the generated statement fails validation, [handle_query]
    answers an error response that carries the generated statement in its
    [sql] field and the validator's message after the prefix
    "Generated SQL failed safety checks: "; the generator call is the last
    call of the run, so the executor is not called. *)
Theorem validation_failure_reported (w : world) (rid : str) (req : QueryRequest)
    (s0 : snippet) (sn : list snippet) (sql : str) (exc : SQLValidationError) :
  fst (run (check_intent (strip (query req))) w) = Return accepted ->
  fst (run (retrieve_relevant_schema (strip (query req)) 5 (3 # 10)) w)
  = Return (s0 :: sn) ->
  fst (run (generate_sql (strip (query req)) (s0 :: sn) None None) w) = Return sql ->
  validate_sql sql = Raise exc ->
  run (handle_query rid req) w
  = (Return (Failure (error_response rid sql
               (py "Generated SQL failed safety checks: " ++ message exc) "")),
     snd (run (check_intent (strip (query req))) w)
       ++ snd (run (retrieve_relevant_schema (strip (query req)) 5 (3 # 10)) w)
       ++ [LLMGenerate (strip (query req)) (s0 :: sn)]).
Proof.
  intros Hg Hs Hgen Hv. rewrite handle_query_run. cbv zeta. rewrite Hg, Hs.
  unfold run in Hgen. rewrite generate_sql_run in Hgen. simpl in Hgen.
  simpl. rewrite Hgen, Hv. reflexivity.
Qed.

Lemma validation_failure_reported_witness :
  fst (run (handle_query "r1" request_employees)
         (world_with (Return (py "no"))
            (Return (py "UPDATE employees SET status = 'x'"))))
  = Return (Failure (error_response "r1" "UPDATE employees SET status = 'x'"
              "Generated SQL failed safety checks: Only SELECT queries are allowed. Your query must start with SELECT or WITH."
              "")).
Proof.
  refine (eq_trans (f_equal fst (validation_failure_reported
                      (world_with (Return (py "no"))
                         (Return (py "UPDATE employees SET status = 'x'")))
                      (py "r1") request_employees _ _ _ _ _ _ _ _)) _);
    vm_compute; reflexivity.
Defined.

(** X13: every response [handle_query] returns carries the request id; a
    success response has [row_count] equal to the number of data rows, the
    explanation that goes with that count, status "success" and no error;
    an error response has no data, no columns, a zero row count, status
    "error" and a non-empty error message. *)
Theorem response_is_consistent (w : world) (rid : str) (req : QueryRequest)
    (resp : response) :
  fst (run (handle_query rid req) w) = Return resp ->
  match resp with
  | Success r =>
      qr_id r = rid /\ qr_row_count r = List.length (qr_data r) /\
      qr_explanation r = explain (List.length (qr_data r)) /\
      qr_status r = py "success" /\ qr_error r = None /\
      qr_personalization_used r = false
  | Failure r =>
      er_id r = rid /\ er_data r = [] /\ er_columns r = [] /\ er_row_count r = 0 /\
      er_status r = py "error" /\ er_error r <> []
  end.
Proof.
  rewrite handle_query_run. cbv zeta.
  destruct (check_intent_verdict (strip (query req)) w)
    as (intent & tr & Hrun & _ & Hint & _).
  rewrite Hrun. cbn [fst snd].
  destruct Hint as [-> | ->]; cbn [is_in_domain rejection_message accepted rejected].
  2:{ intros H. injection H as <-. repeat split; discriminate. }
  destruct (fst (run (retrieve_relevant_schema (strip (query req)) 5 (3 # 10)) w))
    as [[|s0 sn] | e].
  - intros H. injection H as <-. repeat split; discriminate.
  - destruct (generated w (strip (query req)) (s0 :: sn) None None) as [sql | e].
    + destruct (validate_sql sql) as [v | exc].
      * intros H. injection H as <-. unfold after_execution, executed.
        destruct (db_execute w sql) as [res | exc];
          repeat split; try discriminate.
      * intros H. injection H as <-. repeat split; discriminate.
    + destruct (is_value_error e); intros H; [|discriminate H].
      injection H as <-. repeat split; discriminate.
  - intros H. injection H as <-. repeat split; discriminate.
Qed.

Lemma response_is_consistent_witness :
  exists r,
    fst (run (handle_query "r1" request_employees)
           (world_with (Return (py "no")) (Return (py "SELECT name FROM employees"))))
    = Return (Success r) /\
    qr_id r = py "r1" /\ qr_row_count r = List.length (qr_data r).
Proof.
  refine (ex_intro _ _ (conj eq_refl _)).
  exact (let H := response_is_consistent
                    (world_with (Return (py "no"))
                       (Return (py "SELECT name FROM employees")))
                    (py "r1") request_employees _ eq_refl in
         conj (proj1 H) (proj1 (proj2 H))).
Defined.

(** X14: the calls of a run of [handle_query] are exactly these, in this
    order, and nothing is retried: the calls of the gate (none, or one
    classifier call on the question); then, only if the gate accepted, the
    table listing followed, when it succeeds, by one columns query for each
    listed table in the order of the listing, stopping after the first
    that raises; then at most one generator call, made only when every
    listed table was queried and on the snippets the retriever returned;
    then at most one executor call, made only on the statement the
    generator returned and the validator accepted. *)
Theorem calls_follow_stage_order (w : world) (rid : str) (req : QueryRequest) :
  exists intent rest,
    fst (run (check_intent (strip (query req))) w) = Return intent /\
    gate_calls (strip (query req)) (snd (run (check_intent (strip (query req))) w)) /\
    snd (run (handle_query rid req) w)
    = snd (run (check_intent (strip (query req))) w)
      ++ (if is_in_domain intent then catalog_calls w ++ rest else []) /\
    (rest = [] \/
     exists tables sn,
       db_tables w = Return tables /\
       catalog_calls w = DBListTables :: map DBListColumns tables /\
       fst (run (retrieve_relevant_schema (strip (query req)) 5 (3 # 10)) w)
       = Return sn /\
       (rest = [LLMGenerate (strip (query req)) sn] \/
        exists sql,
          generated w (strip (query req)) sn None None = Return sql /\
          validate sql = None /\
          rest = [LLMGenerate (strip (query req)) sn; DBExecute sql])).
Proof.
  rewrite handle_query_run. cbv zeta.
  pose proof (gate_trace_shape (strip (query req)) w) as Hgate.
  destruct (retrieve_calls (strip (query req)) 5 (3 # 10) w) as [Hsch Hall].
  destruct (check_intent_returns (strip (query req)) w) as [intent Hint].
  rewrite Hint, Hsch. exists intent.
  destruct (is_in_domain intent).
  2:{ exists []. cbn [snd]. rewrite app_nil_r. auto. }
  destruct (fst (run (retrieve_relevant_schema (strip (query req)) 5 (3 # 10)) w))
    as [[|s0 sn] | e] eqn:Hret.
  - exists []. cbn [snd]. rewrite app_nil_r. auto.
  - destruct (Hall (s0 :: sn) eq_refl) as (tables & Htab & Hcat).
    assert (Hrest : forall rest,
              rest = [LLMGenerate (strip (query req)) (s0 :: sn)] \/
              (exists sql,
                 generated w (strip (query req)) (s0 :: sn) None None = Return sql /\
                 validate sql = None /\
                 rest = [LLMGenerate (strip (query req)) (s0 :: sn); DBExecute sql]) ->
              rest = [] \/
              exists tables0 sn0,
                db_tables w = Return tables0 /\
                catalog_calls w = DBListTables :: map DBListColumns tables0 /\
                @Return exn (list snippet) (s0 :: sn) = Return sn0 /\
                (rest = [LLMGenerate (strip (query req)) sn0] \/
                 exists sql,
                   generated w (strip (query req)) sn0 None None = Return sql /\
                   validate sql = None /\
                   rest = [LLMGenerate (strip (query req)) sn0; DBExecute sql])).
    { intros rest H. right. exists tables, (s0 :: sn). auto. }
    destruct (generated w (strip (query req)) (s0 :: sn) None None) as [sql | e] eqn:Hgen.
    + destruct (validate_sql sql) as [v | exc] eqn:Hval.
      * exists [LLMGenerate (strip (query req)) (s0 :: sn); DBExecute sql].
        cbn [snd]. repeat split; auto. apply Hrest. right. exists sql.
        repeat split; auto. unfold validate. now rewrite Hval.
      * exists [LLMGenerate (strip (query req)) (s0 :: sn)].
        cbn [snd]. repeat split; auto.
    + exists [LLMGenerate (strip (query req)) (s0 :: sn)].
      cbn [snd]. repeat split; auto.
  - exists []. cbn [snd]. rewrite app_nil_r. auto.
Qed.

(* ================================================================== *)
(** * Further properties of the executor and of the retriever *)

Section DictFacts.

Lemma str_eqb_eq (a b : str) : str_eqb a b = true <-> a = b.
Proof. unfold str_eqb. destruct (list_eq_dec ascii_dec a b); split; congruence. Qed.

Lemma str_eqb_refl (a : str) : str_eqb a a = true.
Proof. now apply str_eqb_eq. Qed.

Lemma str_eqb_neq (a b : str) : str_eqb a b = false <-> a <> b.
Proof. unfold str_eqb. destruct (list_eq_dec ascii_dec a b); split; congruence. Qed.

Lemma str_eqb_sym_false (a b : str) : str_eqb a b = false -> str_eqb b a = false.
Proof. rewrite !str_eqb_neq. congruence. Qed.

Lemma lookup_dict_set (d : list (str * str)) (k v c : str) :
  lookup c (dict_set d k v) = if str_eqb k c then Some v else lookup c d.
Proof.
  induction d as [|[k0 v0] d IH]; simpl.
  - reflexivity.
  - destruct (str_eqb k0 k) eqn:E; simpl.
    + apply str_eqb_eq in E. subst k0. now destruct (str_eqb k c).
    + rewrite IH. destruct (str_eqb k0 c) eqn:E0; [|reflexivity].
      apply str_eqb_eq in E0. subst k0.
      destruct (str_eqb k c) eqn:E1; [|reflexivity].
      apply str_eqb_eq in E1. subst k. now rewrite str_eqb_refl in E.
Qed.

Lemma dict_set_keys (d : list (str * str)) (k v : str) :
  map fst (dict_set d k v)
  = if existsb (str_eqb k) (map fst d) then map fst d else map fst d ++ [k].
Proof.
  induction d as [|[k0 v0] d IH]; simpl; [reflexivity|].
  destruct (str_eqb k0 k) eqn:E.
  - apply str_eqb_eq in E. subst k0. now rewrite str_eqb_refl.
  - rewrite (str_eqb_sym_false _ _ E). simpl. rewrite IH.
    now destruct (existsb (str_eqb k) (map fst d)).
Qed.

Lemma dict_set_nodup (d : list (str * str)) (k v : str) :
  NoDup (map fst d) -> NoDup (map fst (dict_set d k v)).
Proof.
  intros H. rewrite dict_set_keys.
  destruct (existsb (str_eqb k) (map fst d)) eqn:E; [exact H|].
  apply NoDup_app; [exact H | repeat constructor; intros [] |].
  intros x Hx [Hk | []]. subst x.
  assert (Ht : existsb (str_eqb k) (map fst d) = true).
  { apply existsb_exists. exists k. split; [exact Hx | apply str_eqb_refl]. }
  congruence.
Qed.

Lemma dict_set_fresh (d : list (str * str)) (k v : str) :
  ~ In k (map fst d) -> dict_set d k v = d ++ [(k, v)].
Proof.
  induction d as [|[k0 v0] d IH]; simpl; intros H; [reflexivity|].
  destruct (str_eqb k0 k) eqn:E.
  - apply str_eqb_eq in E. elim H. now left.
  - rewrite IH; [reflexivity|]. intros Hin. apply H. now right.
Qed.

Lemma lookup_app (c : str) (a b : list (str * str)) :
  lookup c (a ++ b) = match lookup c a with Some v => Some v | None => lookup c b end.
Proof.
  induction a as [|[k v] a IH]; simpl; [reflexivity|].
  now destruct (str_eqb k c).
Qed.

(** [dict(zip(columns, row))]: under each name the last value wins. *)
Lemma lookup_dict_zip (cols row : list str) (d : list (str * str)) (c : str) :
  lookup c (dict_zip cols row d)
  = match lookup c (rev (combine cols row)) with
    | Some v => Some v
    | None => lookup c d
    end.
Proof.
  revert row d. induction cols as [|c0 cols IH]; intros row d; [reflexivity|].
  destruct row as [|v0 row]; [reflexivity|].
  cbn [dict_zip combine rev]. rewrite IH, lookup_app, lookup_dict_set.
  destruct (lookup c (rev (combine cols row))); [reflexivity|].
  simpl. now destruct (str_eqb c0 c).
Qed.

Lemma dict_zip_nodup (cols row : list str) (d : list (str * str)) :
  NoDup (map fst d) -> NoDup (map fst (dict_zip cols row d)).
Proof.
  revert row d. induction cols as [|c0 cols IH]; intros row d H; [exact H|].
  destruct row as [|v0 row]; [exact H|].
  cbn [dict_zip]. apply IH. now apply dict_set_nodup.
Qed.

Lemma dict_zip_distinct (cols row : list str) (d : list (str * str)) :
  NoDup cols -> (forall c, In c cols -> ~ In c (map fst d)) ->
  dict_zip cols row d = d ++ combine cols row.
Proof.
  revert row d. induction cols as [|c0 cols IH]; intros row d Hnd Hfresh.
  - simpl. now rewrite app_nil_r.
  - destruct row as [|v0 row]; [simpl; now rewrite app_nil_r|].
    cbn [dict_zip combine]. inversion Hnd as [|? ? Hnotin Hnd']; subst.
    rewrite (dict_set_fresh d c0 v0) by (apply Hfresh; now left).
    rewrite IH; [now rewrite <- app_assoc | exact Hnd' |].
    intros c Hc. rewrite map_app. simpl. intros Hin.
    apply in_app_or in Hin as [Hin | [<- | []]].
    + apply (Hfresh c); [now right | exact Hin].
    + contradiction.
Qed.

End DictFacts.

Section RetrieverFacts.

Lemma scan_columns_distinct (rows : list column_row) (cols : list str)
    (details : list (str * str)) :
  NoDup (map column_name rows) ->
  (forall r, In r rows -> ~ In (column_name r) (map fst details)) ->
  scan_columns rows cols details
  = (cols ++ map column_name rows,
     details ++ map (fun r => (column_name r, detail_of r)) rows).
Proof.
  revert cols details. induction rows as [|row rows IH]; intros cols details Hnd Hfresh.
  - simpl. now rewrite !app_nil_r.
  - cbn [scan_columns map]. inversion Hnd as [|? ? Hnotin Hnd']; subst.
    rewrite (dict_set_fresh details _ _ (Hfresh row (or_introl eq_refl))).
    rewrite IH; [now rewrite <- !app_assoc | exact Hnd' |].
    intros r Hr. rewrite map_app. simpl. intros Hin.
    apply in_app_or in Hin as [Hin | [Heq | []]].
    + apply (Hfresh r); [now right | exact Hin].
    + apply Hnotin. rewrite Heq. now apply in_map.
Qed.

Lemma scan_tables_exact (w : world) (rows_of : str -> list column_row)
    (tables : list str) (acc : list snippet) (tr : trace) :
  (forall t, In t tables ->
     db_columns w t = Return (rows_of t) /\ NoDup (map column_name (rows_of t))) ->
  scan_tables tables acc w tr
  = (Return (acc ++ map (fun t => snippet_of t (rows_of t)) tables),
     tr ++ map DBListColumns tables).
Proof.
  revert acc tr. induction tables as [|t tables IH]; intros acc tr Hok.
  - simpl. unfold ret. now rewrite !app_nil_r.
  - destruct (Hok t (or_introl eq_refl)) as [Hrows Hnd].
    cbn [scan_tables]. unfold bind at 1. unfold call. rewrite Hrows.
    rewrite (scan_columns_distinct (rows_of t) [] [] Hnd) by (intros r _ []).
    cbn [app]. rewrite IH by (intros t' Hin; apply Hok; now right).
    cbn [map]. unfold snippet_of. now rewrite <- !app_assoc.
Qed.

Lemma scan_tables_failure (w : world) (ok : list str) (t : str) (rest : list str)
    (e : exn) (acc : list snippet) (tr : trace) :
  (forall t', In t' ok -> exists rows, db_columns w t' = Return rows) ->
  db_columns w t = Raise e ->
  scan_tables (ok ++ t :: rest) acc w tr
  = (Raise e, tr ++ map DBListColumns (ok ++ [t])).
Proof.
  revert acc tr. induction ok as [|t0 ok IH]; intros acc tr Hok He.
  - cbn [app scan_tables]. unfold bind, call. now rewrite He.
  - destruct (Hok t0 (or_introl eq_refl)) as [rows Hrows].
    cbn [app scan_tables]. unfold bind at 1. unfold call. rewrite Hrows.
    destruct (scan_columns rows [] []) as [cols details].
    rewrite IH by (auto; intros t' Hin; apply Hok; now right).
    cbn [map]. now rewrite <- app_assoc.
Qed.

End RetrieverFacts.

(** X15: when the engine answers a statement with distinct column names,
    [execute_readonly_query] makes that one engine call and returns each
    row as the pairs of column name and value in column order, the column
    names as given, and [row_count] equal to the number of rows. *)
Theorem execute_rows_are_zipped (w : world) (sql : str) (res : db_rows) :
  db_execute w sql = Return res ->
  NoDup (keys res) ->
  run (execute_readonly_query sql) w
  = (Return (mkExecutionResult (map (combine (keys res)) (raw_rows res))
               (keys res) (List.length (raw_rows res)) (elapsed res)),
     [DBExecute sql]).
Proof.
  intros Hdb Hnd. unfold run. rewrite execute_run. unfold executed. rewrite Hdb.
  rewrite length_map.
  replace (map (fun row => dict_zip (keys res) row []) (raw_rows res))
    with (map (combine (keys res)) (raw_rows res)); [reflexivity|].
  apply map_ext. intros row.
  now rewrite (dict_zip_distinct (keys res) row [] Hnd) by (intros c _ []).
Qed.

Lemma execute_rows_are_zipped_witness :
  fst (run (execute_readonly_query (py "SELECT name FROM employees"))
         (world_with (Return (py "no")) (Return (py "SELECT 1"))))
  = Return (mkExecutionResult [[(py "name", py "Ada")]; [(py "name", py "Grace")]]
              [py "name"] 2 (1 # 100)).
Proof.
  refine (eq_trans (f_equal fst (execute_rows_are_zipped
                      (world_with (Return (py "no")) (Return (py "SELECT 1")))
                      (py "SELECT name FROM employees")
                      (mkDbRows [py "name"] [[py "Ada"]; [py "Grace"]] (1 # 100))
                      eq_refl _)) _).
  - repeat constructor. intros [].
  - reflexivity.
Defined.

(** X16: each row dict [execute_readonly_query] returns has one entry per
    distinct column name, and under a name that several result columns
    share it holds the value of the last of them: the values of the
    earlier columns of that name are lost. *)
Theorem duplicate_columns_keep_last (w : world) (sql : str) (res : db_rows)
    (er : ExecutionResult) :
  db_execute w sql = Return res ->
  fst (run (execute_readonly_query sql) w) = Return er ->
  rows er = map (fun raw => dict_zip (keys res) raw []) (raw_rows res) /\
  forall raw, In raw (raw_rows res) ->
    NoDup (map fst (dict_zip (keys res) raw [])) /\
    forall c, lookup c (dict_zip (keys res) raw [])
              = lookup c (rev (combine (keys res) raw)).
Proof.
  intros Hdb Hrun. unfold run in Hrun. rewrite execute_run in Hrun.
  unfold executed in Hrun. rewrite Hdb in Hrun. simpl in Hrun.
  injection Hrun as <-. split; [reflexivity|].
  intros raw _. split.
  - apply dict_zip_nodup. constructor.
  - intros c. rewrite lookup_dict_zip.
    now destruct (lookup c (rev (combine (keys res) raw))).
Qed.

Lemma duplicate_columns_keep_last_witness :
  lookup (py "id") (dict_zip [py "id"; py "name"; py "id"] [py "7"; py "Ada"; py "42"] [])
  = Some (py "42") /\
  List.length (dict_zip [py "id"; py "name"; py "id"] [py "7"; py "Ada"; py "42"] []) = 2.
Proof.
  pose proof (duplicate_columns_keep_last
                (mkWorld (fun _ => Return (py "yes")) (fun _ _ _ _ => Return (py "SELECT 1"))
                   (Return []) (fun _ => Return [])
                   (fun _ => Return (mkDbRows [py "id"; py "name"; py "id"]
                                       [[py "7"; py "Ada"; py "42"]] 0%Q)))
                (py "SELECT e.id, e.name, d.id FROM e JOIN d ON true")
                _ _ eq_refl eq_refl) as [_ H].
  destruct (H [py "7"; py "Ada"; py "42"] (or_introl eq_refl)) as [_ Hl].
  split; [|reflexivity]. exact (eq_trans (Hl (py "id")) eq_refl).
Defined.

(** X17: when the catalog queries succeed and no table lists a column
    name twice, [retrieve_relevant_schema] returns, for every catalog
    table in catalog order, the snippet with the table's name, the
    description "Table: " followed by the name, its column names in
    catalog order, one detail per column, no relationships and similarity
    1; it queries the table list once and then the columns of each table
    once, in order. *)
Theorem retrieve_describes_catalog (w : world) (q : str) (top_k : nat) (ms : Q)
    (tables : list str) (rows_of : str -> list column_row) :
  db_tables w = Return tables ->
  (forall t, In t tables ->
     db_columns w t = Return (rows_of t) /\ NoDup (map column_name (rows_of t))) ->
  run (retrieve_relevant_schema q top_k ms) w
  = (Return (map (fun t => snippet_of t (rows_of t)) tables),
     DBListTables :: map DBListColumns tables).
Proof.
  intros Ht Hc. unfold run, retrieve_relevant_schema, bind, call. rewrite Ht.
  now rewrite (scan_tables_exact w rows_of tables [] _ Hc).
Qed.

Lemma retrieve_describes_catalog_witness :
  run (retrieve_relevant_schema (py "Show me all employees") 5 (3 # 10))
      (world_with (Return (py "no")) (Return (py "SELECT 1")))
  = (Return [mkSnippet "employees" "Table: employees"
               [py "emp_id"; py "name"; py "status"]
               [(py "emp_id", py "integer NOT NULL"); (py "name", py "text NOT NULL");
                (py "status", py "text DEFAULT 'active'")] [] 1%Q],
     [DBListTables; DBListColumns "employees"]).
Proof.
  refine (eq_trans (retrieve_describes_catalog
                      (world_with (Return (py "no")) (Return (py "SELECT 1")))
                      (py "Show me all employees") 5 (3 # 10)
                      [py "employees"] (fun _ => employees_columns) eq_refl _) _).
  - intros t _. split; [reflexivity|].
    repeat constructor; simpl; intuition discriminate.
  - reflexivity.
Defined.

(** X18: [retrieve_relevant_schema] hands on the first collaborator
    exception unchanged and stops there: when the table listing raises,
    nothing else is queried; when the columns query of a table raises, the
    tables after it are not queried and no partial list of snippets is
    returned. *)
Theorem retrieve_stops_at_first_failure (w : world) (q : str) (top_k : nat) (ms : Q)
    (e : exn) :
  (db_tables w = Raise e ->
   run (retrieve_relevant_schema q top_k ms) w = (Raise e, [DBListTables])) /\
  (forall ok t rest,
     db_tables w = Return (ok ++ t :: rest) ->
     (forall t', In t' ok -> exists rows, db_columns w t' = Return rows) ->
     db_columns w t = Raise e ->
     run (retrieve_relevant_schema q top_k ms) w
     = (Raise e, DBListTables :: map DBListColumns (ok ++ [t]))).
Proof.
  split.
  - intros Ht. unfold run, retrieve_relevant_schema, bind, call. now rewrite Ht.
  - intros ok t rest Ht Hok He.
    unfold run, retrieve_relevant_schema, bind, call. rewrite Ht.
    now rewrite (scan_tables_failure w ok t rest e [] _ Hok He).
Qed.

Lemma retrieve_stops_at_first_failure_witness :
  run (retrieve_relevant_schema (py "q") 5 (3 # 10))
      (mkWorld (fun _ => Return (py "yes")) (fun _ _ _ _ => Return (py "SELECT 1"))
               (Return [py "a"; py "b"; py "c"])
               (fun t => if str_eqb t "b"
                         then Raise (mkExn "TimeoutError" false "timed out")
                         else Return employees_columns)
               (fun _ => Return (mkDbRows [] [] 0%Q)))
  = (Raise (mkExn "TimeoutError" false "timed out"),
     [DBListTables; DBListColumns "a"; DBListColumns "b"]).
Proof.
  match goal with |- run _ ?w = _ =>
    refine (proj2 (retrieve_stops_at_first_failure w (py "q") 5 (3 # 10)
                     (mkExn "TimeoutError" false "timed out"))
              [py "a"] (py "b") [py "c"] eq_refl _ eq_refl)
  end.
  intros t' [<- | []]. now exists employees_columns.
Defined.

(* ================================================================== *)
(** * Further properties of the SQL agent *)

Section DeletionFacts.

(** Whatever a match answers, its continuation answered it on a suffix of
    the text. *)
Lemma star_suffix (ic : bool) (A : Type) (a : atom) (prev : option ascii) (s : str)
    (k : option ascii -> str -> option A) (x : A) :
  star ic a prev s k = Some x ->
  exists p t pre, s = pre ++ t /\ k p t = Some x.
Proof.
  revert prev. induction s as [|c s IH]; intros prev; simpl; intros H.
  - now exists prev, [], [].
  - destruct (atom_ok ic a c).
    + destruct (star ic a (Some c) s k) as [y|] eqn:E.
      * injection H as <-. destruct (IH (Some c) E) as (p & t & pre & -> & Hk).
        now exists p, t, (c :: pre).
      * now exists prev, (c :: s), [].
    + now exists prev, (c :: s), [].
Qed.

Lemma rmatch_suffix (ic : bool) (A : Type) (r : regex) :
  forall (prev : option ascii) (s : str) (k : option ascii -> str -> option A) (x : A),
    rmatch ic r prev s k = Some x ->
    exists p t pre, s = pre ++ t /\ k p t = Some x.
Proof.
  induction r; intros prev s k x H; simpl in H.
  - now exists prev, s, [].
  - discriminate H.
  - destruct s as [|c s]; [discriminate H|].
    destruct (atom_ok ic a c); [|discriminate H]. now exists (Some c), s, [c].
  - destruct (IHr1 _ _ _ _ H) as (p1 & t1 & pre1 & -> & H1).
    destruct (IHr2 _ _ _ _ H1) as (p2 & t2 & pre2 & -> & H2).
    exists p2, t2, (pre1 ++ pre2). now rewrite <- app_assoc.
  - destruct (rmatch ic r1 prev s k) as [y|] eqn:E.
    + injection H as <-. now apply IHr1 in E.
    + now apply IHr2 in H.
  - destruct (rmatch ic r prev s k) as [y|] eqn:E.
    + injection H as <-. now apply IHr in E.
    + now exists prev, s, [].
  - now apply star_suffix in H.
  - destruct (xorb (word_before prev) (word_after s)); [|discriminate H].
    now exists prev, s, [].
  - destruct prev; [discriminate H|]. now exists None, s, [].
  - destruct s as [|c [|d s]].
    + now exists prev, [], [].
    + destruct (Ascii.eqb c "010"); [|discriminate H]. now exists prev, [c], [].
    + discriminate H.
Qed.

Lemma match_here_suffix (ic : bool) (r : regex) (prev : option ascii) (s t : str) :
  match_here ic r prev s = Some t -> exists pre, s = pre ++ t.
Proof.
  intros H. apply rmatch_suffix in H as (p & t' & pre & -> & Hk).
  injection Hk as <-. now exists pre.
Qed.

(** An expression that ends with [$] leaves nothing, or one final
    newline. *)
Lemma rmatch_ends_with_eol (ic : bool) (r : regex) :
  ends_with_eol r = true ->
  forall prev s t, match_here ic r prev s = Some t -> t = [] \/ t = [newline].
Proof.
  unfold match_here. induction r; intros He prev s t H; try discriminate He.
  - simpl in He, H. apply rmatch_suffix in H as (p1 & t1 & pre1 & _ & H1).
    now apply (IHr2 He p1 t1).
  - simpl in H. destruct s as [|c [|d s]].
    + injection H as <-. now left.
    + destruct (Ascii.eqb c "010") eqn:E; [|discriminate H].
      injection H as <-. apply Ascii.eqb_eq in E. subst c. now right.
    + discriminate H.
Qed.

(** An expression that needs a character finds no match in a text without
    it. *)
Lemma rmatch_needs_char (ic : bool) (A : Type) (c : ascii) (r : regex) :
  needs_char c r = true ->
  forall (prev : option ascii) (s : str) (k : option ascii -> str -> option A),
    (forall d, In d s -> atom_ok ic (ALit c) d = false) ->
    rmatch ic r prev s k = None.
Proof.
  induction r; intros Hn prev s k Hs; try discriminate Hn.
  - destruct a as [l| |]; try discriminate Hn. simpl in Hn.
    apply Ascii.eqb_eq in Hn. subst l. simpl.
    destruct s as [|d s]; [reflexivity|].
    change ((if atom_ok ic (ALit c) d then k (Some d) s else None) = None).
    now rewrite (Hs d (or_introl eq_refl)).
  - simpl in Hn. simpl.
    destruct (needs_char c r1) eqn:E1.
    + now apply IHr1.
    + simpl in Hn.
      destruct (rmatch ic r1 prev s (fun p t => rmatch ic r2 p t k)) as [x|] eqn:E;
        [|reflexivity].
      apply rmatch_suffix in E as (p1 & t1 & pre1 & -> & H1).
      rewrite (IHr2 Hn p1 t1 k) in H1; [discriminate H1|].
      intros d Hd. apply Hs. apply in_or_app. now right.
Qed.

(** Deleting the matches of an expression that matches nowhere changes
    nothing. *)
Lemma delete_from_no_match (ic : bool) (r : regex) (s : str) :
  (forall p pre t, s = pre ++ t -> match_here ic r p t = None) ->
  forall prev, delete_from ic r prev s 0 = s.
Proof.
  induction s as [|c s IH]; intros Hno prev; [reflexivity|].
  cbn [delete_from]. rewrite (Hno prev [] (c :: s) eq_refl).
  f_equal. apply IH. intros p pre t ->. now apply (Hno p (c :: pre)).
Qed.

(** In the middle of a match the rest of it is dropped. *)
Lemma delete_from_skip (ic : bool) (r : regex) (s : str) :
  forall n prev, exists p,
    delete_from ic r prev s n = delete_from ic r p (skipn n s) 0.
Proof.
  induction s as [|c s IH]; intros n prev.
  - exists prev. destruct n; reflexivity.
  - destruct n as [|n]; [now exists prev|].
    cbn [delete_from skipn]. apply IH.
Qed.

Lemma match_here_no_lookbehind (ic : bool) (r : regex) :
  no_lookbehind r = true ->
  forall p q s, match_here ic r p s = match_here ic r q s.
Proof.
  unfold match_here.
  assert (G : forall (r : regex), no_lookbehind r = true ->
            forall (k k' : option ascii -> str -> option str) p q s,
              (forall p1 p2 t, k p1 t = k' p2 t) ->
              rmatch ic r p s k = rmatch ic r q s k').
  { clear r. induction r; intros Hn k k' p q s Hk; try discriminate Hn; simpl.
    - apply Hk.
    - reflexivity.
    - destruct s as [|c s]; [reflexivity|]. now rewrite (Hk (Some c) (Some c)).
    - simpl in Hn. apply andb_true_iff in Hn as [H1 H2].
      apply IHr1; [exact H1|]. intros p1 p2 t. now apply IHr2.
    - simpl in Hn. apply andb_true_iff in Hn as [H1 H2].
      rewrite (IHr1 H1 k k' p q s Hk), (IHr2 H2 k k' p q s Hk). reflexivity.
    - simpl in Hn. rewrite (IHr Hn k k' p q s Hk), (Hk p q s). reflexivity.
    - revert p q. induction s as [|c s IHs]; intros p q; simpl.
      + apply Hk.
      + rewrite (IHs (Some c) (Some c)), (Hk p q). reflexivity.
    - destruct s as [|c [|d s]]; rewrite ?(Hk p q); reflexivity. }
  intros Hn p q s. now apply G.
Qed.

End DeletionFacts.


(* ------------------------------------------------------------------ *)
(** ** The fences of [_clean_sql] *)

Section FenceFacts.

Lemma drop_while_nil_iff (p : ascii -> bool) (s : str) :
  drop_while p s = [] <-> forallb p s = true.
Proof.
  induction s as [|c s IH]; simpl; [tauto|].
  destruct (p c); simpl; [exact IH|]. split; discriminate.
Qed.

Lemma drop_while_end_nil_all (p : ascii -> bool) (s : str) :
  drop_while_end p s = [] -> forallb p s = true.
Proof.
  induction s as [|c s IH]; simpl; [reflexivity|].
  destruct (drop_while_end p s); [|discriminate].
  destruct (p c); [intros _; now apply IH | discriminate].
Qed.

Lemma drop_while_end_cons (p : ascii -> bool) (c : ascii) (s : str) :
  drop_while_end p (c :: s)
  = if forallb p (c :: s) then [] else c :: drop_while_end p s.
Proof.
  simpl. destruct (drop_while_end p s) as [|d t] eqn:E.
  - rewrite (drop_while_end_nil_all p s E), andb_true_r. now destruct (p c).
  - destruct (forallb p s) eqn:F.
    + now rewrite (drop_while_end_all p s F) in E.
    + now rewrite andb_false_r.
Qed.

Lemma drop_while_app_all (p : ascii -> bool) (a s : str) :
  forallb p a = true -> drop_while p (a ++ s) = drop_while p s.
Proof.
  induction a as [|c a IH]; simpl; [reflexivity|].
  intros H. apply andb_true_iff in H as [Hc Ha]. now rewrite Hc, IH.
Qed.

Lemma drop_while_app_some (p : ascii -> bool) (a s : str) :
  forallb p a = false -> drop_while p (a ++ s) = drop_while p a ++ s.
Proof.
  induction a as [|c a IH]; simpl; [discriminate|].
  destruct (p c); simpl; [exact IH | reflexivity].
Qed.

Lemma drop_while_end_app_all (p : ascii -> bool) (s t : str) :
  forallb p t = true -> drop_while_end p (s ++ t) = drop_while_end p s.
Proof.
  intros Ht. induction s as [|c s IH]; simpl.
  - now apply drop_while_end_all.
  - now rewrite IH.
Qed.

(** Whitespace after a text does not change what [strip] answers. *)
Lemma strip_app_spaces (s t : str) :
  forallb isspace t = true -> strip (s ++ t) = strip s.
Proof.
  intros Ht. unfold strip, lstrip, rstrip.
  destruct (forallb isspace s) eqn:Hs.
  - rewrite (drop_while_app_all isspace s t Hs).
    rewrite (proj2 (drop_while_nil_iff isspace t) Ht).
    now rewrite (proj2 (drop_while_nil_iff isspace s) Hs).
  - rewrite (drop_while_app_some isspace s t Hs).
    now apply drop_while_end_app_all.
Qed.

(** Whitespace before a text does not change it either. *)
Lemma strip_spaces_app (a s : str) :
  forallb isspace a = true -> strip (a ++ s) = strip s.
Proof.
  intros Ha. unfold strip, lstrip. now rewrite drop_while_app_all.
Qed.

Lemma is_infix_refl (s : str) : is_infix s s.
Proof. exists [], []. now rewrite app_nil_r. Qed.

Lemma is_infix_trans (a b c : str) : is_infix a b -> is_infix b c -> is_infix a c.
Proof.
  intros (p & q & ->) (p' & q' & ->).
  exists (p' ++ p), (q ++ q'). now rewrite <- !app_assoc.
Qed.

Lemma strip_is_infix (s : str) : is_infix (strip s) s.
Proof. destruct (strip_infix s) as (pre & post & H & _). now exists pre, post. Qed.

Lemma rstrip_chars_is_infix (chars s : str) : is_infix (rstrip_chars chars s) s.
Proof.
  unfold rstrip_chars.
  destruct (drop_while_end_split (char_in chars) s) as (post & H & _).
  exists [], post. exact H.
Qed.

(** An anchored expression matches nowhere after the first character. *)
Lemma rmatch_starts_with_bol (ic : bool) (A : Type) (r : regex) :
  starts_with_bol r = true ->
  forall (c : ascii) (s : str) (k : option ascii -> str -> option A),
    rmatch ic r (Some c) s k = None.
Proof.
  induction r; intros Hb c s k; try discriminate Hb.
  - simpl in *. now apply IHr1.
  - reflexivity.
Qed.

Lemma delete_from_anchored_rest (ic : bool) (r : regex) :
  starts_with_bol r = true ->
  forall s n c, delete_from ic r (Some c) s n = skipn n s.
Proof.
  intros Hb. induction s as [|d s IH]; intros n c.
  - now destruct n.
  - destruct n as [|n]; cbn [delete_from skipn].
    + unfold match_here. rewrite (rmatch_starts_with_bol ic _ r Hb).
      f_equal. apply (IH 0).
    + apply IH.
Qed.

Lemma skipn_length_app (pre t : str) : skipn (List.length pre) (pre ++ t) = t.
Proof. induction pre; simpl; auto. Qed.

(** Deleting the matches of an anchored expression deletes the match at
    the start of the text, when there is one, and nothing else. *)
Lemma delete_from_anchored (ic : bool) (r : regex) (s : str) :
  starts_with_bol r = true ->
  delete_from ic r None s 0
  = match match_here ic r None s with Some t => t | None => s end.
Proof.
  intros Hb. destruct s as [|c s].
  - simpl. destruct (match_here ic r None []) as [t|] eqn:E; [|reflexivity].
    apply match_here_suffix in E as (pre & E).
    symmetry in E. now apply app_eq_nil in E as [_ ->].
  - cbn [delete_from]. destruct (match_here ic r None (c :: s)) as [t|] eqn:E.
    + apply match_here_suffix in E as (pre & E).
      destruct pre as [|x pre]; simpl in E.
      * subst t. rewrite Nat.sub_diag. f_equal.
        apply (delete_from_anchored_rest ic r Hb s 0 c).
      * injection E as <- ->.
        replace (List.length (c :: pre ++ t) - List.length t)
          with (S (List.length pre)) by (cbn [List.length]; rewrite length_app; lia).
        rewrite (delete_from_anchored_rest ic r Hb).
        apply skipn_length_app.
    + f_equal. apply (delete_from_anchored_rest ic r Hb s 0 c).
Qed.

(** Deleting the matches of an expression that ends with [$] keeps a
    prefix of the text, followed at most by its final newline. *)
Lemma delete_from_ends_with_eol (ic : bool) (r : regex) :
  ends_with_eol r = true ->
  forall s prev, exists a b t,
    s = a ++ b /\ delete_from ic r prev s 0 = a ++ t /\ (t = [] \/ t = [newline]).
Proof.
  intros He. induction s as [|c s IH]; intros prev.
  - exists [], [], []. auto.
  - cbn [delete_from]. destruct (match_here ic r prev (c :: s)) as [t|] eqn:E.
    + pose proof (rmatch_ends_with_eol ic r He _ _ _ E) as Ht.
      apply match_here_suffix in E as (pre & E).
      destruct pre as [|x pre]; simpl in E.
      * subst t. rewrite Nat.sub_diag.
        destruct Ht as [Ht|Ht]; [discriminate Ht|]. injection Ht as -> ->.
        exists [], [newline], [newline]. auto.
      * injection E as <- ->.
        replace (List.length (c :: pre ++ t) - List.length t)
          with (S (List.length pre)) by (cbn [List.length]; rewrite length_app; lia).
        destruct (delete_from_skip ic r (pre ++ t) (List.length pre) (Some c)) as (p & ->).
        rewrite skipn_length_app.
        exists [], (c :: pre ++ t), (delete_from ic r p t 0).
        split; [reflexivity|]. split; [reflexivity|].
        destruct Ht as [-> | ->]; [now left|].
        cbn [delete_from].
        destruct (match_here ic r p [newline]) as [t'|] eqn:E'; [|now right].
        destruct (rmatch_ends_with_eol ic r He _ _ _ E') as [-> | ->]; simpl; auto.
    + destruct (IH (Some c)) as (a & b & t & -> & -> & Ht).
      exists (c :: a), b, t. auto.
Qed.

Lemma expr_FENCE_OPEN :
  expr FENCE_OPEN
  = Seq Bol (Seq (One (ALit backtick)) (Seq (One (ALit backtick))
      (Seq (One (ALit backtick))
        (Seq (Opt (Seq (One (ALit "s")) (Seq (One (ALit "q")) (One (ALit "l")))))
             (Star ASpace))))).
Proof. reflexivity. Qed.

Lemma expr_FENCE_CLOSE :
  expr FENCE_CLOSE
  = Seq (Star ASpace) (Seq (One (ALit backtick)) (Seq (One (ALit backtick))
      (Seq (One (ALit backtick)) Eol))).
Proof. reflexivity. Qed.

(** The opening fence is deleted at the start of the text only. *)
Lemma sub_FENCE_OPEN_suffix (raw : str) :
  exists pre, raw = pre ++ re_sub_empty FENCE_OPEN raw.
Proof.
  unfold re_sub_empty. rewrite delete_from_anchored by reflexivity.
  destruct (match_here _ _ None raw) as [t|] eqn:E.
  - now apply match_here_suffix in E.
  - now exists [].
Qed.

(** What [_clean_sql] answers is a contiguous part of its argument. *)
Lemma clean_sql_is_infix (raw : str) : is_infix (_clean_sql raw) raw.
Proof.
  unfold _clean_sql.
  destruct (sub_FENCE_OPEN_suffix raw) as (pre & Hraw).
  remember (re_sub_empty FENCE_OPEN raw) as x1 eqn:Hx1. clear Hx1.
  unfold re_sub_empty at 1.
  destruct (delete_from_ends_with_eol (ignorecase FENCE_CLOSE) (expr FENCE_CLOSE)
              eq_refl x1 None) as (a & b & t & Hx & -> & Ht).
  assert (Hs : strip (a ++ t) = strip a).
  { apply strip_app_spaces. destruct Ht as [-> | ->]; reflexivity. }
  rewrite Hs.
  apply is_infix_trans with (rstrip_chars ";" (strip a)); [apply strip_is_infix|].
  apply is_infix_trans with (strip a); [apply rstrip_chars_is_infix|].
  apply is_infix_trans with a; [apply strip_is_infix|].
  exists pre, b. now rewrite Hraw, Hx at 1.
Qed.

Lemma backtick_atom (ic : bool) (d : ascii) :
  d <> backtick -> atom_ok ic (ALit backtick) d = false.
Proof.
  intros Hd. unfold atom_ok. destruct ic.
  - change (lower_char backtick) with backtick.
    rewrite (eqb_lower_nonword backtick d eq_refl).
    apply Ascii.eqb_neq. congruence.
  - apply Ascii.eqb_neq. congruence.
Qed.

(** A text without a backtick holds no fence. *)
Lemma sub_fence_no_backtick (p : pattern) (s : str) :
  needs_char backtick (expr p) = true ->
  ~ In backtick s ->
  re_sub_empty p s = s.
Proof.
  intros Hn Hs. unfold re_sub_empty. apply delete_from_no_match.
  intros q pre t ->. unfold match_here. apply (rmatch_needs_char _ _ backtick _ Hn).
  intros d Hd. apply backtick_atom. intros ->. apply Hs, in_or_app. now right.
Qed.

End FenceFacts.


Section FenceRemoval.

Lemma star_space_all (ic : bool) (prev : option ascii) (s : str) :
  star ic ASpace prev s (fun _ t => Some t) = Some (drop_while isspace s).
Proof.
  revert prev. induction s as [|c s IH]; intros prev; simpl; [reflexivity|].
  destruct (isspace c); [now rewrite IH | reflexivity].
Qed.

Lemma space_atom (ic : bool) (l c : ascii) :
  isspace l = false -> isspace c = true -> atom_ok ic (ALit l) c = false.
Proof.
  intros Hl Hc. unfold atom_ok. destruct ic; apply Ascii.eqb_neq; intros E.
  - rewrite <- (isspace_lower l), E, isspace_lower in Hl. congruence.
  - subst c. congruence.
Qed.

(** The opening fence, with its optional language tag and the whitespace
    after it, is what the first expression matches. *)
Lemma match_FENCE_OPEN (tag ws rest : str) :
  tag = [] \/ lower tag = py "sql" ->
  ws <> [] -> forallb isspace ws = true ->
  match_here true (expr FENCE_OPEN) None (py "```" ++ tag ++ ws ++ rest)
  = Some (drop_while isspace (ws ++ rest)).
Proof.
  intros Htag Hne Hws. rewrite expr_FENCE_OPEN. unfold match_here.
  change (py "```") with [backtick; backtick; backtick].
  cbn [app rmatch].
  change (atom_ok true (ALit backtick) backtick) with true. cbv iota.
  destruct Htag as [-> | Htag].
  - destruct ws as [|x ws]; [congruence|].
    simpl in Hws. apply andb_true_iff in Hws as [Hx Hws].
    cbn [app]. rewrite (space_atom true "s" x eq_refl Hx).
    apply star_space_all.
  - destruct tag as [|a [|b [|c [|d tag]]]]; try discriminate Htag.
    injection Htag as Ha Hb Hc.
    cbn [app]. unfold atom_ok. rewrite Ha, Hb, Hc.
    change (Ascii.eqb (lower_char "s") "s") with true.
    change (Ascii.eqb (lower_char "q") "q") with true.
    change (Ascii.eqb (lower_char "l") "l") with true.
    cbv iota. now rewrite star_space_all.
Qed.

(** The closing fence matches where only whitespace stands before it. *)
Lemma match_FENCE_CLOSE (prev : option ascii) (u : str) :
  ~ In backtick u ->
  match_here false (expr FENCE_CLOSE) prev (u ++ py "```")
  = if forallb isspace u then Some [] else None.
Proof.
  intros Hu. rewrite expr_FENCE_CLOSE. unfold match_here. cbn [rmatch].
  rewrite star_space_skip.
  - change (py "```") with (backtick :: [backtick; backtick]).
    rewrite drop_while_app_stop by reflexivity.
    destruct (forallb isspace u) eqn:F.
    + now rewrite (proj2 (drop_while_nil_iff isspace u) F).
    + destruct (drop_while isspace u) as [|d t] eqn:E.
      * apply drop_while_nil_iff in E. congruence.
      * cbn [app rmatch]. rewrite backtick_atom; [reflexivity|].
        intros ->. apply Hu, (drop_while_incl isspace). rewrite E. now left.
  - intros p c t Hc. cbn [rmatch].
    now rewrite (space_atom false backtick c eq_refl Hc).
  - intros p p' t. now destruct t.
Qed.

(** Deleting the closing fence at the end of a text deletes the
    whitespace before it too. *)
Lemma sub_FENCE_CLOSE (u : str) :
  ~ In backtick u ->
  forall prev, delete_from false (expr FENCE_CLOSE) prev (u ++ py "```") 0 = rstrip u.
Proof.
  unfold rstrip. induction u as [|c u IH]; intros Hu prev.
  - reflexivity.
  - rewrite drop_while_end_cons.
    change ((c :: u) ++ py "```") with (c :: (u ++ py "```")). cbn [delete_from].
    change (c :: u ++ py "```") with ((c :: u) ++ py "```").
    rewrite (match_FENCE_CLOSE prev (c :: u) Hu).
    destruct (forallb isspace (c :: u)).
    + cbn [app List.length Nat.sub].
      destruct (delete_from_skip false (expr FENCE_CLOSE) (u ++ py "```")
                  (List.length (u ++ py "```")) (Some c)) as (p & ->).
      now rewrite skipn_all.
    + f_equal. apply IH. intros H. apply Hu. now right.
Qed.

Lemma strip_spaces_around (a m b : str) :
  forallb isspace a = true -> forallb isspace b = true ->
  strip (a ++ m ++ b) = strip m.
Proof.
  intros Ha Hb. rewrite (strip_spaces_app a (m ++ b) Ha).
  now apply strip_app_spaces.
Qed.

Lemma spaces_no_backtick (ws : str) :
  forallb isspace ws = true -> ~ In backtick ws.
Proof.
  intros H Hin. rewrite forallb_forall in H. now apply H in Hin.
Qed.

End FenceRemoval.

(* ------------------------------------------------------------------ *)
(** ** What the generator hands on *)

(** X19: when [generate_sql] returns a statement, it has called the LLM
    service exactly once and nothing else, and the statement is not empty,
    has no whitespace at either end, and is a contiguous part of the
    content the service replied: the cleaning only ever removes text. *)
Theorem generate_sql_returns_part_of_reply (w : world) (q : str)
    (sn : list snippet) (h : option hints) (c : option (list turn))
    (sql : str) (tr : trace) :
  run (generate_sql q sn h c) w = (Return sql, tr) ->
  exists content,
    generator_content w q sn h c = Return content /\
    tr = [LLMGenerate q sn] /\
    sql <> [] /\ strip sql = sql /\ is_infix sql content.
Proof.
  unfold run. rewrite generate_sql_run. unfold generated.
  destruct (generator_content w q sn h c) as [content | e]; [|discriminate].
  destruct (_clean_sql (strip content)) as [|x s] eqn:E; [discriminate|].
  cbn [is_empty]. intros H. injection H as <- <-.
  exists content. repeat split.
  - discriminate.
  - rewrite <- E. unfold _clean_sql. apply strip_idem.
  - rewrite <- E.
    apply is_infix_trans with (strip content);
      [apply clean_sql_is_infix | apply strip_is_infix].
Qed.

Lemma generate_sql_returns_part_of_reply_witness :
  exists content,
    generator_content (world_with (Return (py "yes"))
       (Return (py "```sql" ++ [newline] ++ py "SELECT 1;" ++ [newline] ++ py "```"))) (py "Show me all employees") [] None None = Return content /\
    [LLMGenerate (py "Show me all employees") []]
    = [LLMGenerate (py "Show me all employees") []] /\
    py "SELECT 1" <> [] /\ strip (py "SELECT 1") = py "SELECT 1" /\
    is_infix (py "SELECT 1") content.
Proof.
  apply (generate_sql_returns_part_of_reply
           (world_with (Return (py "yes"))
       (Return (py "```sql" ++ [newline] ++ py "SELECT 1;" ++ [newline] ++ py "```"))) (py "Show me all employees") [] None None).
  reflexivity.
Defined.

(** X20: a reply without a backtick holds no fence: [_clean_sql] only
    trims it, removes the semicolons at its end, and trims again. *)
Theorem clean_sql_without_fence (raw : str) :
  ~ In backtick raw ->
  _clean_sql raw = strip (rstrip_chars ";" (strip raw)).
Proof.
  intros H. unfold _clean_sql.
  rewrite (sub_fence_no_backtick FENCE_OPEN raw eq_refl H).
  now rewrite (sub_fence_no_backtick FENCE_CLOSE raw eq_refl H).
Qed.

Lemma clean_sql_without_fence_witness :
  _clean_sql (py "  SELECT name FROM employees;  ")
  = strip (rstrip_chars ";" (strip (py "  SELECT name FROM employees;  "))).
Proof.
  apply clean_sql_without_fence.
  vm_compute. intros H. repeat (destruct H as [H | H]; [discriminate H|]). exact H.
Defined.

(** X21: a fenced reply is unwrapped: for a text without a backtick,
    placed between an opening fence (three backticks, then nothing or the
    tag sql in any letter case, then at least one whitespace character)
    and a closing fence (any whitespace, then three backticks at the very
    end), [_clean_sql] answers what it answers for the text alone. *)
Theorem fenced_reply_is_unwrapped (tag ws1 body ws2 : str) :
  tag = [] \/ lower tag = py "sql" ->
  ws1 <> [] -> forallb isspace ws1 = true -> forallb isspace ws2 = true ->
  ~ In backtick body ->
  _clean_sql (py "```" ++ tag ++ ws1 ++ body ++ ws2 ++ py "```") = _clean_sql body.
Proof.
  intros Htag Hne H1 H2 Hb.
  assert (Hu : ~ In backtick (drop_while isspace (ws1 ++ body ++ ws2))).
  { intros H. apply drop_while_incl in H.
    apply in_app_or in H as [H | H]; [now apply (spaces_no_backtick ws1 H1)|].
    apply in_app_or in H as [H | H]; [now apply Hb|].
    now apply (spaces_no_backtick ws2 H2). }
  unfold _clean_sql.
  rewrite (sub_fence_no_backtick FENCE_OPEN body eq_refl Hb).
  rewrite (sub_fence_no_backtick FENCE_CLOSE body eq_refl Hb).
  unfold re_sub_empty at 2. rewrite delete_from_anchored by reflexivity.
  change (ignorecase FENCE_OPEN) with true.
  rewrite (match_FENCE_OPEN tag ws1 (body ++ ws2 ++ py "```") Htag Hne H1).
  replace (ws1 ++ body ++ ws2 ++ py "```")
    with ((ws1 ++ body ++ ws2) ++ backtick :: [backtick; backtick])
    by now rewrite <- !app_assoc.
  rewrite drop_while_app_stop by reflexivity.
  unfold re_sub_empty. change (ignorecase FENCE_CLOSE) with false.
  change (backtick :: [backtick; backtick]) with (py "```").
  rewrite (sub_FENCE_CLOSE _ Hu None).
  change (rstrip (drop_while isspace (ws1 ++ body ++ ws2)))
    with (strip (ws1 ++ body ++ ws2)).
  now rewrite strip_idem, (strip_spaces_around ws1 body ws2 H1 H2).
Qed.

Lemma fenced_reply_is_unwrapped_witness :
  _clean_sql (py "```" ++ py "SQL" ++ [newline] ++ py "SELECT 1;" ++ [newline] ++ py "```")
  = _clean_sql (py "SELECT 1;").
Proof.
  apply (fenced_reply_is_unwrapped (py "SQL") [newline] (py "SELECT 1;") [newline]).
  - right. reflexivity.
  - discriminate.
  - reflexivity.
  - reflexivity.
  - vm_compute. intros H. repeat (destruct H as [H | H]; [discriminate H|]). exact H.
Defined.


(* ------------------------------------------------------------------ *)
(** ** The schema block of the prompt *)

Section PromptFacts.

Lemma is_infix_app_l (x a b : str) : is_infix x a -> is_infix x (a ++ b).
Proof. intros (p & q & ->). exists p, (q ++ b). now rewrite <- !app_assoc. Qed.

Lemma is_infix_app_r (x a b : str) : is_infix x b -> is_infix x (a ++ b).
Proof. intros (p & q & ->). exists (a ++ p), q. now rewrite <- !app_assoc. Qed.

Lemma is_infix_join (sep x : str) (parts : list str) :
  In x parts -> is_infix x (join sep parts).
Proof.
  induction parts as [|y parts IH]; [intros []|].
  intros [-> | H].
  - destruct parts; [apply is_infix_refl | apply is_infix_app_l, is_infix_refl].
  - destruct parts as [|z parts]; [destruct H|].
    change (join sep (y :: z :: parts)) with (y ++ sep ++ join sep (z :: parts)).
    now apply is_infix_app_r, is_infix_app_r, IH.
Qed.

Lemma contains_is_infix (m s : str) : contains m s = true <-> is_infix m s.
Proof. apply contains_split. Qed.

(** The three parts of the text of a snippet. *)
Lemma section_of_parts (s : snippet) :
  exists details joins,
    PromptBuilder.section_of s
    = ((py "TABLE: " ++ table s) ++ [newline] ++ py "  Description: " ++ description s
       ++ [newline] ++ py "  Columns: " ++ join ", " (columns s))
      ++ details ++ joins /\
    (column_details s <> [] ->
     details = ([newline] ++ py "  Column Details:" ++ [newline])
               ++ join [newline]
                    (map (fun cd => py "    - " ++ fst cd ++ py ": " ++ snd cd)
                         (column_details s))) /\
    (relationships s <> [] ->
     joins = [newline] ++ py "  Joins: " ++ join "; " (relationships s)).
Proof.
  unfold PromptBuilder.section_of.
  exists (match column_details s with
          | [] => []
          | _ :: _ =>
              ([newline] ++ py "  Column Details:" ++ [newline])
              ++ join [newline]
                   (map (fun cd => py "    - " ++ fst cd ++ py ": " ++ snd cd)
                        (column_details s))
          end),
         (match relationships s with
          | [] => []
          | _ :: _ => [newline] ++ py "  Joins: " ++ join "; " (relationships s)
          end).
  destruct (column_details s) as [|cd cds], (relationships s) as [|r rs];
    (split; [rewrite ?app_nil_r, <- ?app_assoc; reflexivity
            | split; intros H; [try reflexivity | try reflexivity]; congruence]).
Qed.

End PromptFacts.

(** X22: the schema block names everything it is given: for every
    snippet handed to [_format_schema_snippets], the text holds the line
    TABLE: with the table's name, each of its column names, one detail
    line per column detail, and each of its relationships. *)
Theorem schema_block_names_everything (snippets : list snippet) (s : snippet) :
  In s snippets ->
  contains (py "TABLE: " ++ table s) (PromptBuilder._format_schema_snippets snippets) = true /\
  (forall c, In c (columns s) ->
     contains c (PromptBuilder._format_schema_snippets snippets) = true) /\
  (forall c d, In (c, d) (column_details s) ->
     contains (py "    - " ++ c ++ py ": " ++ d)
              (PromptBuilder._format_schema_snippets snippets) = true) /\
  (forall r, In r (relationships s) ->
     contains r (PromptBuilder._format_schema_snippets snippets) = true).
Proof.
  intros Hs.
  assert (Hsec : is_infix (PromptBuilder.section_of s)
                          (PromptBuilder._format_schema_snippets snippets)).
  { unfold PromptBuilder._format_schema_snippets.
    destruct snippets as [|s0 rest]; [destruct Hs|].
    apply is_infix_join. now apply in_map. }
  destruct (section_of_parts s) as (details & joins & Hparts & Hd & Hj).
  rewrite Hparts in Hsec.
  repeat split.
  - apply contains_is_infix. eapply is_infix_trans; [|exact Hsec].
    apply is_infix_app_l, is_infix_app_l, is_infix_refl.
  - intros c Hc. apply contains_is_infix. eapply is_infix_trans; [|exact Hsec].
    apply is_infix_app_l. do 6 apply is_infix_app_r. now apply is_infix_join.
  - intros c d Hcd. apply contains_is_infix. eapply is_infix_trans; [|exact Hsec].
    apply is_infix_app_r, is_infix_app_l. rewrite Hd by (intros E; now rewrite E in Hcd).
    apply is_infix_app_r, is_infix_join.
    apply (in_map (fun cd => py "    - " ++ fst cd ++ py ": " ++ snd cd) _ _ Hcd).
  - intros r Hr. apply contains_is_infix. eapply is_infix_trans; [|exact Hsec].
    apply is_infix_app_r, is_infix_app_r. rewrite Hj by (intros E; now rewrite E in Hr).
    do 2 apply is_infix_app_r. now apply is_infix_join.
Qed.

Lemma schema_block_names_everything_witness :
  contains (py "TABLE: " ++ py "employees")
    (PromptBuilder._format_schema_snippets
       [snippet_of "departments" []; snippet_of "employees" employees_columns]) = true.
Proof.
  refine (proj1 (schema_block_names_everything
                   [snippet_of "departments" []; snippet_of "employees" employees_columns]
                   (snippet_of "employees" employees_columns) _)).
  right. left. reflexivity.
Defined.


(* ------------------------------------------------------------------ *)
(** ** The origins of [cors_origin_list] *)

Section SplitFacts.
Import Config.

Lemma split_nonempty (sep : ascii) (s : str) : split sep s <> [].
Proof.
  destruct s as [|c s]; simpl; [discriminate|].
  destruct (Ascii.eqb c sep); [discriminate|].
  destruct (split sep s); discriminate.
Qed.

Lemma split_no_sep (sep : ascii) (a : str) : ~ In sep a -> split sep a = [a].
Proof.
  induction a as [|c a IH]; intros H; simpl; [reflexivity|].
  destruct (Ascii.eqb c sep) eqn:E.
  - apply Ascii.eqb_eq in E. subst c. exfalso. apply H. now left.
  - rewrite IH; [reflexivity|]. intros Hin. apply H. now right.
Qed.

Lemma split_app_sep (sep : ascii) (a rest : str) :
  ~ In sep a -> split sep (a ++ sep :: rest) = a :: split sep rest.
Proof.
  induction a as [|c a IH]; intros H; simpl.
  - now rewrite Ascii.eqb_refl.
  - destruct (Ascii.eqb c sep) eqn:E.
    + apply Ascii.eqb_eq in E. subst c. exfalso. apply H. now left.
    + rewrite IH; [reflexivity|]. intros Hin. apply H. now right.
Qed.

(** Splitting what [join] built gives the parts back. *)
Lemma split_join (sep : ascii) (parts : list str) :
  parts <> [] -> (forall p, In p parts -> ~ In sep p) ->
  split sep (join [sep] parts) = parts.
Proof.
  induction parts as [|p parts IH]; intros Hne Hp; [congruence|].
  destruct parts as [|p' parts].
  - apply split_no_sep, Hp. now left.
  - change (join [sep] (p :: p' :: parts)) with (p ++ sep :: join [sep] (p' :: parts)).
    rewrite split_app_sep by (apply Hp; now left).
    rewrite IH; [reflexivity | discriminate |].
    intros q Hq. apply Hp. now right.
Qed.

(** Joining the pieces of a text gives the text back. *)
Lemma join_split (sep : ascii) (s : str) : join [sep] (split sep s) = s.
Proof.
  induction s as [|c s IH]; [reflexivity|]. simpl split.
  pose proof (split_nonempty sep s) as Hne.
  destruct (Ascii.eqb c sep) eqn:E.
  - apply Ascii.eqb_eq in E. subst c.
    destruct (split sep s) as [|h t]; [congruence|].
    change (join [sep] ([] :: h :: t)) with (sep :: join [sep] (h :: t)).
    now rewrite IH.
  - destruct (split sep s) as [|h t]; [congruence|].
    destruct t as [|h' t].
    + simpl in *. now rewrite IH.
    + change (join [sep] ((c :: h) :: h' :: t))
        with (c :: join [sep] (h :: h' :: t)).
      now rewrite IH.
Qed.

Lemma split_pieces_no_sep (sep : ascii) (s p : str) :
  In p (split sep s) -> ~ In sep p.
Proof.
  revert p. induction s as [|c s IH]; intros p; simpl.
  - intros [<- | []] [].
  - destruct (Ascii.eqb c sep) eqn:E.
    + intros [<- | H]; [intros [] | now apply IH].
    + apply Ascii.eqb_neq in E.
      destruct (split sep s) as [|h t].
      * intros [<- | []] [H | []]. congruence.
      * intros [<- | H].
        -- intros [H | H]; [congruence|]. apply (IH h); [now left | exact H].
        -- apply IH. now right.
Qed.

Lemma split_pieces_infix (sep : ascii) (s p : str) :
  In p (split sep s) -> is_infix p s.
Proof.
  intros H. pose proof (is_infix_join [sep] p (split sep s) H) as Hi.
  now rewrite join_split in Hi.
Qed.

End SplitFacts.

(** X23: every origin [cors_origin_list] returns is a non-empty piece of
    the setting, without whitespace at either end and without a comma. *)
Theorem cors_origins_are_clean (settings : Config.Settings) (o : str) :
  In o (Config.cors_origin_list settings) ->
  o <> [] /\ strip o = o /\ ~ In Config.comma o /\
  is_infix o (Config.CORS_ORIGINS settings).
Proof.
  unfold Config.cors_origin_list. intros H.
  apply in_map_iff in H as (p & <- & H).
  apply filter_In in H as [Hp Hne].
  repeat split.
  - intros E. now rewrite E in Hne.
  - apply strip_idem.
  - intros Hc. apply (strip_keeps Config.comma p eq_refl) in Hc.
    now apply (split_pieces_no_sep _ _ _ Hp).
  - apply is_infix_trans with p; [apply strip_is_infix|].
    now apply split_pieces_infix with Config.comma.
Qed.

Lemma cors_origins_are_clean_witness :
  py "http://localhost:3000" <> [] /\
  strip (py "http://localhost:3000") = py "http://localhost:3000" /\
  ~ In Config.comma (py "http://localhost:3000") /\
  is_infix (py "http://localhost:3000")
    (Config.CORS_ORIGINS
       (Config.mkSettings (py "https://app.example.com, ,http://localhost:3000 ") 20)).
Proof.
  apply (cors_origins_are_clean
           (Config.mkSettings (py "https://app.example.com, ,http://localhost:3000 ") 20)).
  vm_compute. right. left. reflexivity.
Defined.

(** X24: round trip: origins that are non-empty, without whitespace at
    either end and without a comma, written into the setting with commas
    between them, are read back by [cors_origin_list] as they were, in the
    same order; no origin is lost or merged. *)
Theorem cors_origins_round_trip (origins : list str) (max_turns : Z) :
  (forall o, In o origins -> o <> [] /\ strip o = o /\ ~ In Config.comma o) ->
  Config.cors_origin_list (Config.mkSettings (join (py ",") origins) max_turns)
  = origins.
Proof.
  intros H. unfold Config.cors_origin_list. cbn [Config.CORS_ORIGINS].
  destruct origins as [|o origins]; [reflexivity|].
  change (py ",") with [Config.comma].
  rewrite split_join; [|discriminate | intros p Hp; apply (H p Hp)].
  remember (o :: origins) as l eqn:El. clear El o origins.
  induction l as [|o l IH]; [reflexivity|].
  destruct (H o (or_introl eq_refl)) as (Hne & Hs & _).
  cbn [filter]. rewrite Hs. destruct o as [|c o]; [congruence|].
  cbn [is_empty negb map]. rewrite Hs. f_equal.
  apply IH. intros p Hp. apply H. now right.
Qed.

Lemma cors_origins_round_trip_witness :
  Config.cors_origin_list
    (Config.mkSettings
       (join (py ",") [py "https://app.example.com"; py "http://localhost:3000"]) 20)
  = [py "https://app.example.com"; py "http://localhost:3000"].
Proof.
  apply cors_origins_round_trip.
  intros o [<- | [<- | []]]; (split; [discriminate | split; [reflexivity|]]);
    vm_compute; intros H;
    repeat (destruct H as [H | H]; [discriminate H|]); exact H.
Defined.


(* ------------------------------------------------------------------ *)
(** ** The window of a session *)

Section SessionFacts.
Import Config SessionMemory.

Lemma skipn_app_le {A : Type} (k : nat) (l l' : list A) :
  k <= List.length l -> skipn k (l ++ l') = skipn k l ++ l'.
Proof.
  intros H. rewrite skipn_app.
  replace (k - List.length l) with 0 by lia. reflexivity.
Qed.

Lemma last_n_app_last_n {A : Type} (m : nat) (l l' : list A) :
  last_n m (last_n m l ++ l') = last_n m (l ++ l').
Proof.
  unfold last_n. destruct (Nat.le_gt_cases (List.length l) m) as [H | H].
  - replace (List.length l - m) with 0 by lia. reflexivity.
  - rewrite !length_app, length_skipn.
    replace (List.length l - (List.length l - m) + List.length l' - m)
      with (List.length l') by lia.
    replace (List.length l + List.length l' - m)
      with (List.length l' + (List.length l - m)) by lia.
    rewrite <- skipn_skipn.
    now rewrite (skipn_app_le (List.length l - m) l l') by lia.
Qed.

Lemma last_n_length {A : Type} (m : nat) (l : list A) :
  List.length (last_n m l) = Nat.min m (List.length l).
Proof. unfold last_n. rewrite length_skipn. lia. Qed.

Lemma last_n_all {A : Type} (m : nat) (l : list A) :
  List.length l <= m -> last_n m l = l.
Proof. intros H. unfold last_n. now replace (List.length l - m) with 0 by lia. Qed.

Lemma last_n_snoc {A : Type} (m : nat) (l : list A) (x : A) :
  last_n (S m) (l ++ [x]) = last_n m l ++ [x].
Proof.
  unfold last_n. rewrite length_app. cbn [List.length].
  replace (List.length l + 1 - S m) with (List.length l - m) by lia.
  apply skipn_app_le. lia.
Qed.

Lemma last_n_last_n {A : Type} (n m : nat) (l : list A) :
  last_n n (last_n m l) = last_n (Nat.min n m) l.
Proof.
  unfold last_n at 1. rewrite last_n_length. unfold last_n.
  rewrite skipn_skipn. f_equal. lia.
Qed.

(** [l[-m:]] for a positive [m]: the last [m] elements. *)
Lemma slice_from_negative {A : Type} (m : Z) (l : list A) :
  (0 < m)%Z -> slice_from (- m) l = last_n (Z.to_nat m) l.
Proof.
  intros H. unfold slice_from, last_n.
  destruct (Z.ltb_spec (- m) 0) as [_ | H']; [|lia].
  f_equal. lia.
Qed.

(** [l[k:]] for a [k] that is not negative: without the first [k]
    elements. *)
Lemma slice_from_nonnegative {A : Type} (k : Z) (l : list A) :
  (0 <= k)%Z -> slice_from k l = skipn (Z.to_nat k) l.
Proof.
  intros H. unfold slice_from.
  destruct (Z.ltb_spec k 0) as [H' | _]; [lia|].
  destruct (Z.le_gt_cases k (Z.of_nat (List.length l))) as [Hk | Hk].
  - now rewrite Z.min_l.
  - rewrite Z.min_r, Nat2Z.id by lia.
    rewrite skipn_all. symmetry. apply skipn_all2. lia.
Qed.

Lemma add_turn_turns (settings : Settings) (now : str) (self : Session)
    (r c : str) (q : option str) :
  (0 < SESSION_MAX_TURNS settings)%Z ->
  turns (add_turn settings now self r c q)
  = last_n (Z.to_nat (SESSION_MAX_TURNS settings))
           (turns self ++ [mkConversationTurn r c q now]).
Proof.
  intros H. unfold add_turn. cbn [turns set_turns].
  destruct (Z.gtb_spec (Z.of_nat (List.length (turns self ++ [mkConversationTurn r c q now])))
              (SESSION_MAX_TURNS settings)) as [Hgt | Hle]; cbn [turns set_turns].
  - now apply slice_from_negative.
  - symmetry. apply last_n_all. lia.
Qed.

Lemma add_turns_turns (settings : Settings) (calls : list call_args) :
  (0 < SESSION_MAX_TURNS settings)%Z ->
  forall self,
    last_n (Z.to_nat (SESSION_MAX_TURNS settings)) (turns (add_turns settings self calls))
    = last_n (Z.to_nat (SESSION_MAX_TURNS settings)) (turns self ++ map turn_of calls).
Proof.
  intros H. induction calls as [|c calls IH]; intros self.
  - simpl. now rewrite app_nil_r.
  - change (add_turns settings self (c :: calls))
      with (add_turns settings
              (add_turn settings (at_time c) self (with_role c) (with_content c)
                        (with_sql c)) calls).
    rewrite IH, add_turn_turns by exact H.
    rewrite last_n_app_last_n. cbn [map]. fold (turn_of c).
    now rewrite <- app_assoc.
Qed.

Lemma add_turns_bounded (settings : Settings) (calls : list call_args) :
  (0 < SESSION_MAX_TURNS settings)%Z ->
  forall self,
    List.length (turns self) <= Z.to_nat (SESSION_MAX_TURNS settings) ->
    List.length (turns (add_turns settings self calls))
    <= Z.to_nat (SESSION_MAX_TURNS settings).
Proof.
  intros H. induction calls as [|c calls IH]; intros self Hb; [exact Hb|].
  apply IH. rewrite add_turn_turns by exact H. rewrite last_n_length. lia.
Qed.

Lemma get_context_messages_positive (self : Session) (n : Z) :
  (0 < n)%Z ->
  get_context_messages self n
  = map (fun t => mkMessage (role t) (content t)) (last_n (Z.to_nat n) (turns self)).
Proof.
  intros H. unfold get_context_messages. now rewrite slice_from_negative.
Qed.

End SessionFacts.

(** X25: the session is a sliding window: with a positive
    SESSION_MAX_TURNS, a session that holds at most that many turns holds,
    after any sequence of [add_turn] calls, exactly the most recent
    SESSION_MAX_TURNS turns of its history (all of them while there are
    fewer), oldest first, and so never more than the maximum. *)
Theorem session_keeps_latest_turns (settings : Config.Settings)
    (self : SessionMemory.Session) (calls : list SessionMemory.call_args) :
  (0 < Config.SESSION_MAX_TURNS settings)%Z ->
  List.length (SessionMemory.turns self) <= Z.to_nat (Config.SESSION_MAX_TURNS settings) ->
  SessionMemory.turns (SessionMemory.add_turns settings self calls)
  = SessionMemory.last_n (Z.to_nat (Config.SESSION_MAX_TURNS settings))
      (SessionMemory.turns self ++ map SessionMemory.turn_of calls) /\
  List.length (SessionMemory.turns (SessionMemory.add_turns settings self calls))
  <= Z.to_nat (Config.SESSION_MAX_TURNS settings).
Proof.
  intros H Hb.
  pose proof (add_turns_bounded settings calls H self Hb) as Hlen.
  split; [|exact Hlen].
  rewrite <- add_turns_turns by exact H.
  symmetry. now apply last_n_all.
Qed.

Lemma session_keeps_latest_turns_witness :
  SessionMemory.turns
    (SessionMemory.add_turns (Config.mkSettings (py "*") 2)
       (SessionMemory.mkSession (py "s1") (py "u1") [] (py "t0"))
       [SessionMemory.mkCall (py "t1") (py "user") (py "first") None;
        SessionMemory.mkCall (py "t2") (py "assistant") (py "second") (Some (py "SELECT 1"));
        SessionMemory.mkCall (py "t3") (py "user") (py "third") None])
  = [SessionMemory.mkConversationTurn (py "assistant") (py "second")
       (Some (py "SELECT 1")) (py "t2");
     SessionMemory.mkConversationTurn (py "user") (py "third") None (py "t3")].
Proof.
  refine (eq_trans (proj1 (session_keeps_latest_turns (Config.mkSettings (py "*") 2)
                     (SessionMemory.mkSession (py "s1") (py "u1") [] (py "t0"))
                     _ _ _)) _).
  - reflexivity.
  - simpl. lia.
  - reflexivity.
Defined.

(** X26: a limit that is not positive does not bound the session: with
    SESSION_MAX_TURNS = 0 [add_turn] evicts nothing and the session grows
    by one turn per call; with a negative limit -k it drops the k oldest
    turns of the extended list on every call. *)
Theorem nonpositive_limit_is_no_bound (settings : Config.Settings) (now : str)
    (self : SessionMemory.Session) (r c : str) (q : option str) :
  (Config.SESSION_MAX_TURNS settings <= 0)%Z ->
  SessionMemory.turns (SessionMemory.add_turn settings now self r c q)
  = skipn (Z.to_nat (- Config.SESSION_MAX_TURNS settings))
      (SessionMemory.turns self ++ [SessionMemory.mkConversationTurn r c q now]).
Proof.
  intros H. unfold SessionMemory.add_turn. cbn [SessionMemory.turns SessionMemory.set_turns].
  destruct (Z.gtb_spec
              (Z.of_nat (List.length
                 (SessionMemory.turns self ++ [SessionMemory.mkConversationTurn r c q now])))
              (Config.SESSION_MAX_TURNS settings)) as [Hgt | Hle];
    cbn [SessionMemory.turns SessionMemory.set_turns].
  - apply slice_from_nonnegative. lia.
  - rewrite length_app in Hle. cbn [List.length] in Hle. lia.
Qed.

Lemma nonpositive_limit_is_no_bound_witness :
  SessionMemory.turns
    (SessionMemory.add_turn (Config.mkSettings (py "*") 0) (py "t2")
       (SessionMemory.mkSession (py "s1") (py "u1")
          [SessionMemory.mkConversationTurn (py "user") (py "first") None (py "t1")]
          (py "t0"))
       (py "assistant") (py "second") None)
  = [SessionMemory.mkConversationTurn (py "user") (py "first") None (py "t1");
     SessionMemory.mkConversationTurn (py "assistant") (py "second") None (py "t2")].
Proof.
  refine (eq_trans (nonpositive_limit_is_no_bound (Config.mkSettings (py "*") 0) _ _ _ _ _ _) _).
  - simpl. lia.
  - reflexivity.
Defined.

(** X27: what the prompt gets after a turn is added: with a positive
    SESSION_MAX_TURNS and a positive last_n, [get_context_messages] on the
    session [add_turn] leaves answers the role and content of the turn just
    added as its last message, after those of the min(last_n,
    SESSION_MAX_TURNS) - 1 turns before it; the SQL text and the time of a
    turn are not passed on. *)
Theorem context_ends_with_new_turn (settings : Config.Settings) (now : str)
    (self : SessionMemory.Session) (r c : str) (q : option str) (n : Z) :
  (0 < Config.SESSION_MAX_TURNS settings)%Z -> (0 < n)%Z ->
  SessionMemory.get_context_messages (SessionMemory.add_turn settings now self r c q) n
  = map (fun t => SessionMemory.mkMessage (SessionMemory.role t) (SessionMemory.content t))
        (SessionMemory.last_n
           (Nat.min (Z.to_nat n) (Z.to_nat (Config.SESSION_MAX_TURNS settings)) - 1)
           (SessionMemory.turns self))
    ++ [SessionMemory.mkMessage r c].
Proof.
  intros H Hn. rewrite get_context_messages_positive by exact Hn.
  rewrite add_turn_turns by exact H. rewrite last_n_last_n.
  destruct (Nat.min (Z.to_nat n) (Z.to_nat (Config.SESSION_MAX_TURNS settings)))
    as [|k] eqn:E; [lia|].
  rewrite last_n_snoc, map_app. cbn [map SessionMemory.role SessionMemory.content].
  now replace (S k - 1) with k by lia.
Qed.

Lemma context_ends_with_new_turn_witness :
  SessionMemory.get_context_messages
    (SessionMemory.add_turn (Config.mkSettings (py "*") 20) (py "t2")
       (SessionMemory.mkSession (py "s1") (py "u1")
          [SessionMemory.mkConversationTurn (py "user") (py "first") None (py "t1")]
          (py "t0"))
       (py "assistant") (py "second") (Some (py "SELECT 1"))) 6
  = [SessionMemory.mkMessage (py "user") (py "first");
     SessionMemory.mkMessage (py "assistant") (py "second")].
Proof.
  refine (eq_trans (context_ends_with_new_turn (Config.mkSettings (py "*") 20) _ _ _ _ _ 6 _ _) _).
  - simpl. lia.
  - lia.
  - reflexivity.
Defined.


(* ------------------------------------------------------------------ *)
(** ** The domains of a query *)

Section DomainFacts.
Import MemoryUpdater.

Lemma lower_char_idem (c : ascii) : lower_char (lower_char c) = lower_char c.
Proof. destruct c as [[] [] [] [] [] [] [] []]; reflexivity. Qed.

Lemma lower_idem (s : str) : lower (lower s) = lower s.
Proof.
  unfold lower. rewrite map_map. apply map_ext. intros c. apply lower_char_idem.
Qed.

(** A text without the character [c] occurs in [a ++ c :: b] exactly
    when it occurs in [a] or in [b]. *)
Lemma is_infix_around (c : ascii) (m a b : str) :
  ~ In c m ->
  is_infix m (a ++ c :: b) <-> is_infix m a \/ is_infix m b.
Proof.
  intros Hc. split.
  - intros (x & y & E).
    apply app_eq_app in E as (l & [[-> E] | [-> E]]).
    + symmetry in E. apply app_eq_app in E as (l' & [[-> E] | [-> E]]).
      * left. exists x, l'. reflexivity.
      * destruct l' as [|d l'].
        -- left. exists x, []. now rewrite !app_nil_r.
        -- injection E as -> _. exfalso. apply Hc, in_or_app. right. now left.
    + destruct l as [|d l].
      * destruct m as [|d m]; [left; exists a, []; now rewrite app_nil_r|].
        injection E as -> _. exfalso. apply Hc. now left.
      * injection E as -> ->. right. now exists l, y.
  - intros [H | H]; [now apply is_infix_app_l|].
    apply is_infix_app_r. now apply (is_infix_app_r m [c] b).
Qed.

Lemma keywords_have_no_space (d kw : str) (kws : list str) :
  In (d, kws) _DOMAIN_KEYWORDS -> In kw kws -> ~ In " "%char kw.
Proof.
  intros Hd Hkw Hin.
  assert (H : forallb (fun e => forallb (fun k => negb (char_in k " ")) (snd e))
                _DOMAIN_KEYWORDS = true) by reflexivity.
  rewrite forallb_forall in H. specialize (H _ Hd). cbn [snd] in H.
  rewrite forallb_forall in H. specialize (H _ Hkw).
  apply negb_true_iff in H. unfold char_in in H.
  assert (E : existsb (Ascii.eqb " ") kw = true).
  { apply existsb_exists. exists " "%char. split; [exact Hin | apply Ascii.eqb_refl]. }
  congruence.
Qed.

(** A keyword occurs in the joined text exactly when it occurs in one of
    the two texts. *)
Lemma domain_keyword_in_combined (d query sql : str) :
  domain_keyword_in d (lower (query ++ py " " ++ sql)) <->
  domain_keyword_in d (lower query) \/ domain_keyword_in d (lower sql).
Proof.
  rewrite !lower_app.
  change (lower (py " ")) with [" "%char].
  change ([" "%char] ++ lower sql) with (" "%char :: lower sql).
  unfold domain_keyword_in. split.
  - intros (kws & kw & Hd & Hkw & Hc).
    apply contains_is_infix in Hc.
    apply (is_infix_around _ _ _ _ (keywords_have_no_space d kw kws Hd Hkw)) in Hc.
    destruct Hc as [Hc | Hc]; [left | right];
      exists kws, kw; repeat split; try assumption; now apply contains_is_infix.
  - intros [(kws & kw & Hd & Hkw & Hc) | (kws & kw & Hd & Hkw & Hc)];
      exists kws, kw; repeat split; try assumption;
      apply contains_is_infix;
      apply (is_infix_around _ _ _ _ (keywords_have_no_space d kw kws Hd Hkw));
      [left | right]; now apply contains_is_infix.
Qed.

Lemma matched_domains (d text : str) :
  In d (map fst (filter (fun entry => existsb (fun kw => contains kw text) (snd entry))
                        _DOMAIN_KEYWORDS))
  <-> domain_keyword_in d text.
Proof.
  unfold domain_keyword_in. split.
  - intros H. apply in_map_iff in H as ([d' kws] & <- & H).
    apply filter_In in H as [Hd H]. apply existsb_exists in H as (kw & Hkw & Hc).
    now exists kws, kw.
  - intros (kws & kw & Hd & Hkw & Hc).
    apply in_map_iff. exists (d, kws). split; [reflexivity|].
    apply filter_In. split; [exact Hd|].
    apply existsb_exists. now exists kw.
Qed.

End DomainFacts.

(** X28: which domains [_detect_domains] reports: a domain is in the
    result exactly when one of its keywords occurs in the lower-cased
    question or in the lower-cased statement (no keyword can lie across
    the two), and HR is also the answer when no keyword of any domain
    occurs. *)
Theorem detect_domains_reads_both_texts (query sql d : str) :
  In d (MemoryUpdater._detect_domains query sql) <->
  (MemoryUpdater.domain_keyword_in d (lower query) \/
   MemoryUpdater.domain_keyword_in d (lower sql)) \/
  (d = py "HR" /\
   forall d', ~ MemoryUpdater.domain_keyword_in d' (lower query) /\
              ~ MemoryUpdater.domain_keyword_in d' (lower sql)).
Proof.
  unfold MemoryUpdater._detect_domains.
  pose proof (fun d' => matched_domains d' (lower (query ++ py " " ++ sql))) as Hm.
  pose proof (fun d' => domain_keyword_in_combined d' query sql) as Hc.
  destruct (map fst (filter _ MemoryUpdater._DOMAIN_KEYWORDS)) as [|d0 ds] eqn:E.
  - split.
    + intros [<- | []]. right. split; [reflexivity|].
      intros d'. split; intros H;
        [exact (proj2 (Hm d') (proj2 (Hc d') (or_introl H)))
        |exact (proj2 (Hm d') (proj2 (Hc d') (or_intror H)))].
    + intros [H | [-> _]]; [|now left].
      apply Hc, Hm in H. destruct H.
  - split.
    + intros H. left. now apply Hc, Hm.
    + intros [H | [_ H]]; [now apply Hm, Hc|].
      exfalso. destruct (H d0) as [H1 H2].
      assert (Hin : MemoryUpdater.domain_keyword_in d0 (lower (query ++ py " " ++ sql)))
        by (apply Hm; now left).
      apply Hc in Hin. tauto.
Qed.

(** X29: the shape of the answer of [_detect_domains]: it is never
    empty, it lists each domain at most once and in the fixed order HR,
    Inventory, Production, Sales, and it does not depend on the letter case
    of the question or of the statement. *)
Theorem detect_domains_shape (query sql : str) :
  MemoryUpdater._detect_domains query sql <> [] /\
  (exists keep : str -> bool,
     MemoryUpdater._detect_domains query sql
     = filter keep [py "HR"; py "Inventory"; py "Production"; py "Sales"]) /\
  MemoryUpdater._detect_domains (lower query) (lower sql)
  = MemoryUpdater._detect_domains query sql.
Proof.
  split; [|split].
  - unfold MemoryUpdater._detect_domains.
    destruct (map fst (filter _ MemoryUpdater._DOMAIN_KEYWORDS)); discriminate.
  - unfold MemoryUpdater._detect_domains.
    remember (fun entry : str * list str =>
                existsb (fun kw => contains kw (lower (query ++ py " " ++ sql)))
                        (snd entry)) as f eqn:Hf.
    clear Hf. unfold MemoryUpdater._DOMAIN_KEYWORDS. cbn [filter].
    repeat match goal with
           | |- context [if f ?e then _ else _] => destruct (f e)
           end;
      cbn [map fst];
      match goal with
      | |- exists keep, ?l = _ => exists (fun d => existsb (str_eqb d) l)
      end; reflexivity.
  - unfold MemoryUpdater._detect_domains.
    now rewrite !lower_app, !lower_idem.
Qed.
